(** * GoogleEarthView: the 2D/3D camera synchronisation control

    A shallow embedding of
    [openlayers.addins/GoogleEarthView/lib/OpenLayers/Control/GoogleEarthView.js].

    The control is a JavaScript object whose methods mutate its own
    properties, call into the map, the vector layer, the drag control and
    the Google Earth plugin, and may raise [TypeError] when they dereference
    a property that is still [null].  Methods are therefore written in a
    state-and-exception monad over the record [State]; a raised exception
    keeps the mutations made before it, as in JavaScript.

    Numbers are kept abstract behind the class [JSNumber]: the operators the
    source applies to them ([<], [!=], unary minus, [*], [/], [+], [-]) and
    the members of [Math] it calls.  The instance [Double.Number], on
    binary64 floats, is the arithmetic of JavaScript; the instances on the
    reals and on the rationals are exact arithmetic.  The OpenLayers geodesy
    used by the source is the class [OpenLayersLib]. *)

From Stdlib Require Import Bool List String ZArith QArith Qabs Reals Lra Lia.
From Stdlib Require Floats Uint63.
Import ListNotations.
Close Scope Q_scope.
Close Scope Z_scope.

Set Implicit Arguments.

(** ** JavaScript numbers and the OpenLayers geodesy *)

Class JSNumber (num : Type) : Type := {
  num_of_Z : Z -> num;                (* an integer literal *)
  num_neg : num -> num;               (* -a *)
  num_add : num -> num -> num;        (* a + b *)
  num_sub : num -> num -> num;        (* a - b *)
  num_mul : num -> num -> num;        (* a * b *)
  num_div : num -> num -> num;        (* a / b *)
  num_lt : num -> num -> bool;        (* a < b *)
  num_neq : num -> num -> bool;       (* a != b *)
  Math_PI : num;
  Math_sin : num -> num;
  Math_atan2 : num -> num -> num
}.

(** [OpenLayers.Projection]: identified by its code. *)
Definition Projection := string.

(** [OpenLayers.LonLat] and [OpenLayers.Pixel] are plain value holders. *)
Record LonLat (num : Type) : Type := { lon : num; lat : num }.
Record Pixel (num : Type) : Type := { px_x : num; px_y : num }.

Class OpenLayersLib (num : Type) : Type := {
  (* OpenLayers.Projection.transform, on the coordinates of the point *)
  Projection_transform_xy : num * num -> Projection -> Projection -> num * num;
  (* OpenLayers.Util.distVincenty, in kilometres *)
  Util_distVincenty : LonLat num -> LonLat num -> num;
  (* OpenLayers.Spherical.computeHeading *)
  Spherical_computeHeading : LonLat num -> LonLat num -> num
}.

(** ** Objects *)

Section Objects.
Variable num : Type.

(** [OpenLayers.Geometry.Point].  [pt_oid] is the identity of the object:
    two points with the same coordinates may be distinct objects. *)
Record Point : Type := { pt_oid : nat; pt_x : num; pt_y : num }.

(** [OpenLayers.Geometry.LineString]: it holds the point objects it was
    built from, not copies. *)
Record LineString : Type := { ls_oid : nat; components : list Point }.

(** A symbolizer; only [rotation] is ever written by the control. *)
Record Style : Type := { rotation : option num }.

(** [OpenLayers.Feature.Vector] for the two markers and for the line. *)
Record PointFeature : Type := { pf_geometry : option Point; pf_style : Style }.
Record LineFeature : Type := { lf_geometry : option LineString; lf_style : Style }.

(** The identity of a feature object, as compared by [===] in [onDrag] and
    as held by the layer. *)
Inductive FeatureId : Type :=
| CameraFeature
| LineFeatureId
| LookAtFeature
| OtherFeature (n : nat).

(** [OpenLayers.Layer.Vector]: the features it currently holds. *)
Record Layer : Type := {
  layer_visibility : bool;
  layer_displayInLayerSwitcher : bool;
  features : list FeatureId
}.

(** [OpenLayers.Control.DragFeature] *)
Record DragFeature : Type := { geometryTypes : list string }.

(** The map the control was added to: its projection and the conversions
    between viewport pixels and map coordinates that the layer delegates to
    it. *)
Record Map : Type := {
  getProjectionObject : Projection;
  getLonLatFromViewPortPx : Pixel num -> LonLat num;
  getViewPortPxFromLonLat : LonLat num -> Pixel num
}.

(** [KmlCamera] and [KmlLookAt], the two readings of the plugin's view. *)
Record KmlCamera : Type := {
  cam_longitude : num;
  cam_latitude : num;
  cam_altitude : num;
  cam_heading : num;
  cam_tilt : num
}.

(** [la_range] is [None] when [setRange] was handed [null]. *)
Record KmlLookAt : Type := {
  la_longitude : num;
  la_latitude : num;
  la_altitude : num;
  la_heading : num;
  la_tilt : num;
  la_range : option num
}.

Definition setLongitude (v : num) (l : KmlLookAt) : KmlLookAt :=
  {| la_longitude := v; la_latitude := la_latitude l;
     la_altitude := la_altitude l; la_heading := la_heading l;
     la_tilt := la_tilt l; la_range := la_range l |}.
Definition setLatitude (v : num) (l : KmlLookAt) : KmlLookAt :=
  {| la_longitude := la_longitude l; la_latitude := v;
     la_altitude := la_altitude l; la_heading := la_heading l;
     la_tilt := la_tilt l; la_range := la_range l |}.
Definition setHeading (v : num) (l : KmlLookAt) : KmlLookAt :=
  {| la_longitude := la_longitude l; la_latitude := la_latitude l;
     la_altitude := la_altitude l; la_heading := v;
     la_tilt := la_tilt l; la_range := la_range l |}.
Definition setRange (v : option num) (l : KmlLookAt) : KmlLookAt :=
  {| la_longitude := la_longitude l; la_latitude := la_latitude l;
     la_altitude := la_altitude l; la_heading := la_heading l;
     la_tilt := la_tilt l; la_range := v |}.

(** [google.earth.GEPlugin]: [ge_id] is the identity of the plugin
    instance; [copyAsCamera] and [copyAsLookAt] are
    [getView().copyAsCamera(altitudeMode)] and
    [getView().copyAsLookAt(altitudeMode)] on its current view. *)
Record GEPlugin : Type := {
  ge_id : nat;
  ALTITUDE_RELATIVE_TO_GROUND : num;
  SPEED_TELEPORT : num;
  copyAsCamera : num -> KmlCamera;
  copyAsLookAt : num -> KmlLookAt
}.

(** The function object made by [OpenLayers.Function.bind(this.update, this)]. *)
Inductive Callback : Type := BoundUpdate.

(** The calls that change a collaborator, most recent first.  What the
    source only reads from a collaborator is not logged: the projection and
    the pixel conversions of the map and its layer are fields of [Map], the
    view of the plugin ([getView().copyAsCamera], [getView().copyAsLookAt])
    is a field of [GEPlugin]. *)
Inductive Call : Type :=
| Map_addLayer
| Map_addControl
| Map_removeControl
| Map_removeLayer
| DragFeature_activate
| DragFeature_deactivate
| Layer_removeAllFeatures
| Layer_addFeatures (fs : list FeatureId)
| GE_addEventListener (target : option nat)      (* "frameend" *)
| GE_removeEventListener (target : option nat)   (* "frameend" *)
| GE_setFlyToSpeed (ge : nat) (speed : num)
| GE_setAbstractView (ge : nat) (view : KmlLookAt).

(** The options that do not change after construction. *)
Record Config : Type := {
  displayInLayerSwitcher : bool;
  visible : bool;
  cameraStyle : Style;
  lineStyle : Style;
  lookAtStyle : Style;
  gimballLockThreshold : num;
  geProjection : Projection
}.

(** The control object ([active] and [map] come from [OpenLayers.Control]),
    the log of calls made on collaborators and the allocator of geometry
    objects. *)
Record State : Type := {
  config : Config;
  active : bool;
  map : option Map;
  gePlugin : option GEPlugin;
  altitudeMode : num;
  layer : option Layer;
  featuresAdded : bool;
  dragFeatureControl : option DragFeature;
  cameraFeature : option PointFeature;
  lineFeature : option LineFeature;
  lookAtFeature : option PointFeature;
  gimballLock : bool;
  frameendCallback : option Callback;
  gePluginFlyToSpeedSet : bool;
  initialLookAt : option (LonLat num);
  initialRange : option num;
  calls : list Call;
  nextOid : nat
}.

Definition set_active (v : bool) (s : State) : State :=
  {| config := config s; active := v; map := map s; gePlugin := gePlugin s;
     altitudeMode := altitudeMode s; layer := layer s;
     featuresAdded := featuresAdded s;
     dragFeatureControl := dragFeatureControl s;
     cameraFeature := cameraFeature s; lineFeature := lineFeature s;
     lookAtFeature := lookAtFeature s; gimballLock := gimballLock s;
     frameendCallback := frameendCallback s;
     gePluginFlyToSpeedSet := gePluginFlyToSpeedSet s;
     initialLookAt := initialLookAt s; initialRange := initialRange s;
     calls := calls s; nextOid := nextOid s |}.

Definition set_map (v : option Map) (s : State) : State :=
  {| config := config s; active := active s; map := v;
     gePlugin := gePlugin s; altitudeMode := altitudeMode s;
     layer := layer s; featuresAdded := featuresAdded s;
     dragFeatureControl := dragFeatureControl s;
     cameraFeature := cameraFeature s; lineFeature := lineFeature s;
     lookAtFeature := lookAtFeature s; gimballLock := gimballLock s;
     frameendCallback := frameendCallback s;
     gePluginFlyToSpeedSet := gePluginFlyToSpeedSet s;
     initialLookAt := initialLookAt s; initialRange := initialRange s;
     calls := calls s; nextOid := nextOid s |}.

Definition set_gePlugin (v : option GEPlugin) (s : State) : State :=
  {| config := config s; active := active s; map := map s; gePlugin := v;
     altitudeMode := altitudeMode s; layer := layer s;
     featuresAdded := featuresAdded s;
     dragFeatureControl := dragFeatureControl s;
     cameraFeature := cameraFeature s; lineFeature := lineFeature s;
     lookAtFeature := lookAtFeature s; gimballLock := gimballLock s;
     frameendCallback := frameendCallback s;
     gePluginFlyToSpeedSet := gePluginFlyToSpeedSet s;
     initialLookAt := initialLookAt s; initialRange := initialRange s;
     calls := calls s; nextOid := nextOid s |}.

Definition set_altitudeMode (v : num) (s : State) : State :=
  {| config := config s; active := active s; map := map s;
     gePlugin := gePlugin s; altitudeMode := v; layer := layer s;
     featuresAdded := featuresAdded s;
     dragFeatureControl := dragFeatureControl s;
     cameraFeature := cameraFeature s; lineFeature := lineFeature s;
     lookAtFeature := lookAtFeature s; gimballLock := gimballLock s;
     frameendCallback := frameendCallback s;
     gePluginFlyToSpeedSet := gePluginFlyToSpeedSet s;
     initialLookAt := initialLookAt s; initialRange := initialRange s;
     calls := calls s; nextOid := nextOid s |}.

Definition set_layer (v : option Layer) (s : State) : State :=
  {| config := config s; active := active s; map := map s;
     gePlugin := gePlugin s; altitudeMode := altitudeMode s; layer := v;
     featuresAdded := featuresAdded s;
     dragFeatureControl := dragFeatureControl s;
     cameraFeature := cameraFeature s; lineFeature := lineFeature s;
     lookAtFeature := lookAtFeature s; gimballLock := gimballLock s;
     frameendCallback := frameendCallback s;
     gePluginFlyToSpeedSet := gePluginFlyToSpeedSet s;
     initialLookAt := initialLookAt s; initialRange := initialRange s;
     calls := calls s; nextOid := nextOid s |}.

Definition set_featuresAdded (v : bool) (s : State) : State :=
  {| config := config s; active := active s; map := map s;
     gePlugin := gePlugin s; altitudeMode := altitudeMode s;
     layer := layer s; featuresAdded := v;
     dragFeatureControl := dragFeatureControl s;
     cameraFeature := cameraFeature s; lineFeature := lineFeature s;
     lookAtFeature := lookAtFeature s; gimballLock := gimballLock s;
     frameendCallback := frameendCallback s;
     gePluginFlyToSpeedSet := gePluginFlyToSpeedSet s;
     initialLookAt := initialLookAt s; initialRange := initialRange s;
     calls := calls s; nextOid := nextOid s |}.

Definition set_dragFeatureControl (v : option DragFeature) (s : State) : State :=
  {| config := config s; active := active s; map := map s;
     gePlugin := gePlugin s; altitudeMode := altitudeMode s;
     layer := layer s; featuresAdded := featuresAdded s;
     dragFeatureControl := v; cameraFeature := cameraFeature s;
     lineFeature := lineFeature s; lookAtFeature := lookAtFeature s;
     gimballLock := gimballLock s; frameendCallback := frameendCallback s;
     gePluginFlyToSpeedSet := gePluginFlyToSpeedSet s;
     initialLookAt := initialLookAt s; initialRange := initialRange s;
     calls := calls s; nextOid := nextOid s |}.

Definition set_cameraFeature (v : option PointFeature) (s : State) : State :=
  {| config := config s; active := active s; map := map s;
     gePlugin := gePlugin s; altitudeMode := altitudeMode s;
     layer := layer s; featuresAdded := featuresAdded s;
     dragFeatureControl := dragFeatureControl s; cameraFeature := v;
     lineFeature := lineFeature s; lookAtFeature := lookAtFeature s;
     gimballLock := gimballLock s; frameendCallback := frameendCallback s;
     gePluginFlyToSpeedSet := gePluginFlyToSpeedSet s;
     initialLookAt := initialLookAt s; initialRange := initialRange s;
     calls := calls s; nextOid := nextOid s |}.

Definition set_lineFeature (v : option LineFeature) (s : State) : State :=
  {| config := config s; active := active s; map := map s;
     gePlugin := gePlugin s; altitudeMode := altitudeMode s;
     layer := layer s; featuresAdded := featuresAdded s;
     dragFeatureControl := dragFeatureControl s;
     cameraFeature := cameraFeature s; lineFeature := v;
     lookAtFeature := lookAtFeature s; gimballLock := gimballLock s;
     frameendCallback := frameendCallback s;
     gePluginFlyToSpeedSet := gePluginFlyToSpeedSet s;
     initialLookAt := initialLookAt s; initialRange := initialRange s;
     calls := calls s; nextOid := nextOid s |}.

Definition set_lookAtFeature (v : option PointFeature) (s : State) : State :=
  {| config := config s; active := active s; map := map s;
     gePlugin := gePlugin s; altitudeMode := altitudeMode s;
     layer := layer s; featuresAdded := featuresAdded s;
     dragFeatureControl := dragFeatureControl s;
     cameraFeature := cameraFeature s; lineFeature := lineFeature s;
     lookAtFeature := v; gimballLock := gimballLock s;
     frameendCallback := frameendCallback s;
     gePluginFlyToSpeedSet := gePluginFlyToSpeedSet s;
     initialLookAt := initialLookAt s; initialRange := initialRange s;
     calls := calls s; nextOid := nextOid s |}.

Definition set_gimballLock (v : bool) (s : State) : State :=
  {| config := config s; active := active s; map := map s;
     gePlugin := gePlugin s; altitudeMode := altitudeMode s;
     layer := layer s; featuresAdded := featuresAdded s;
     dragFeatureControl := dragFeatureControl s;
     cameraFeature := cameraFeature s; lineFeature := lineFeature s;
     lookAtFeature := lookAtFeature s; gimballLock := v;
     frameendCallback := frameendCallback s;
     gePluginFlyToSpeedSet := gePluginFlyToSpeedSet s;
     initialLookAt := initialLookAt s; initialRange := initialRange s;
     calls := calls s; nextOid := nextOid s |}.

Definition set_frameendCallback (v : option Callback) (s : State) : State :=
  {| config := config s; active := active s; map := map s;
     gePlugin := gePlugin s; altitudeMode := altitudeMode s;
     layer := layer s; featuresAdded := featuresAdded s;
     dragFeatureControl := dragFeatureControl s;
     cameraFeature := cameraFeature s; lineFeature := lineFeature s;
     lookAtFeature := lookAtFeature s; gimballLock := gimballLock s;
     frameendCallback := v; gePluginFlyToSpeedSet := gePluginFlyToSpeedSet s;
     initialLookAt := initialLookAt s; initialRange := initialRange s;
     calls := calls s; nextOid := nextOid s |}.

Definition set_gePluginFlyToSpeedSet (v : bool) (s : State) : State :=
  {| config := config s; active := active s; map := map s;
     gePlugin := gePlugin s; altitudeMode := altitudeMode s;
     layer := layer s; featuresAdded := featuresAdded s;
     dragFeatureControl := dragFeatureControl s;
     cameraFeature := cameraFeature s; lineFeature := lineFeature s;
     lookAtFeature := lookAtFeature s; gimballLock := gimballLock s;
     frameendCallback := frameendCallback s; gePluginFlyToSpeedSet := v;
     initialLookAt := initialLookAt s; initialRange := initialRange s;
     calls := calls s; nextOid := nextOid s |}.

Definition set_initialLookAt (v : option (LonLat num)) (s : State) : State :=
  {| config := config s; active := active s; map := map s;
     gePlugin := gePlugin s; altitudeMode := altitudeMode s;
     layer := layer s; featuresAdded := featuresAdded s;
     dragFeatureControl := dragFeatureControl s;
     cameraFeature := cameraFeature s; lineFeature := lineFeature s;
     lookAtFeature := lookAtFeature s; gimballLock := gimballLock s;
     frameendCallback := frameendCallback s;
     gePluginFlyToSpeedSet := gePluginFlyToSpeedSet s; initialLookAt := v;
     initialRange := initialRange s; calls := calls s; nextOid := nextOid s |}.

Definition set_initialRange (v : option num) (s : State) : State :=
  {| config := config s; active := active s; map := map s;
     gePlugin := gePlugin s; altitudeMode := altitudeMode s;
     layer := layer s; featuresAdded := featuresAdded s;
     dragFeatureControl := dragFeatureControl s;
     cameraFeature := cameraFeature s; lineFeature := lineFeature s;
     lookAtFeature := lookAtFeature s; gimballLock := gimballLock s;
     frameendCallback := frameendCallback s;
     gePluginFlyToSpeedSet := gePluginFlyToSpeedSet s;
     initialLookAt := initialLookAt s; initialRange := v; calls := calls s;
     nextOid := nextOid s |}.

Definition set_calls (v : list Call) (s : State) : State :=
  {| config := config s; active := active s; map := map s;
     gePlugin := gePlugin s; altitudeMode := altitudeMode s;
     layer := layer s; featuresAdded := featuresAdded s;
     dragFeatureControl := dragFeatureControl s;
     cameraFeature := cameraFeature s; lineFeature := lineFeature s;
     lookAtFeature := lookAtFeature s; gimballLock := gimballLock s;
     frameendCallback := frameendCallback s;
     gePluginFlyToSpeedSet := gePluginFlyToSpeedSet s;
     initialLookAt := initialLookAt s; initialRange := initialRange s;
     calls := v; nextOid := nextOid s |}.

Definition set_nextOid (v : nat) (s : State) : State :=
  {| config := config s; active := active s; map := map s;
     gePlugin := gePlugin s; altitudeMode := altitudeMode s;
     layer := layer s; featuresAdded := featuresAdded s;
     dragFeatureControl := dragFeatureControl s;
     cameraFeature := cameraFeature s; lineFeature := lineFeature s;
     lookAtFeature := lookAtFeature s; gimballLock := gimballLock s;
     frameendCallback := frameendCallback s;
     gePluginFlyToSpeedSet := gePluginFlyToSpeedSet s;
     initialLookAt := initialLookAt s; initialRange := initialRange s;
     calls := calls s; nextOid := v |}.

(** ** The monad of methods *)

Inductive JSError : Type := TypeError.

Inductive Outcome (A : Type) : Type :=
| Val (a : A) (s : State)
| Throw (e : JSError) (s : State).
Arguments Val {A} a s.
Arguments Throw {A} e s.

Definition state_of {A} (o : Outcome A) : State :=
  match o with Val _ s => s | Throw _ s => s end.

Definition M (A : Type) : Type := State -> Outcome A.

Definition ret {A} (a : A) : M A := fun s => Val a s.

Definition bind {A B} (c : M A) (k : A -> M B) : M B :=
  fun s => match c s with
           | Val a s' => k a s'
           | Throw e s' => Throw e s'
           end.

Definition gets {A} (f : State -> A) : M A := fun s => Val (f s) s.

Definition modify (f : State -> State) : M unit := fun s => Val tt (f s).

(** Reading a property of an object held in a field: [TypeError] on [null]. *)
Definition deref {A} (f : State -> option A) : M A :=
  fun s => match f s with
           | Some a => Val a s
           | None => Throw TypeError s
           end.

Definition deref_opt {A} (o : option A) : M A :=
  fun s => match o with
           | Some a => Val a s
           | None => Throw TypeError s
           end.

Definition call (c : Call) : M unit :=
  modify (fun s => set_calls (c :: calls s) s).

End Objects.

Arguments Val {num A} a s.
Arguments Throw {num A} e s.
Arguments ret {num A} a _.
Arguments bind {num A B} c k _.
Arguments gets {num A} f _.
Arguments modify {num} f _.
Arguments deref {num A} f _.
Arguments deref_opt {num A} o _.
Arguments call {num} c _.
Arguments TypeError : clear implicits.

Declare Scope js_scope.
Delimit Scope js_scope with js.
Notation "x <- c ;; k" := (bind c (fun x => k))
  (at level 61, c at next level, right associativity) : js_scope.
Notation "c ;; k" := (bind c (fun _ => k))
  (at level 61, right associativity) : js_scope.
Open Scope js_scope.

(** ** The methods of the control *)

Section Methods.
Context {num : Type} {N : JSNumber num} {L : OpenLayersLib num}.

(** Truthiness of a property holding an object or [null]. *)
Definition truthy {A} (o : option A) : bool :=
  match o with Some _ => true | None => false end.

(** [a || b] on computations: [b] is not run when [a] yields [true]. *)
Definition orM (a b : M num bool) : M num bool :=
  x <- a ;; if x then ret true else b.

(** [new OpenLayers.Geometry.Point(x, y)] *)
Definition new_Point (x y : num) : M num (Point num) :=
  fun s => Val {| pt_oid := nextOid s; pt_x := x; pt_y := y |}
               (set_nextOid (S (nextOid s)) s).

(** [new OpenLayers.Geometry.LineString(points)] *)
Definition new_LineString (ps : list (Point num)) : M num (LineString num) :=
  fun s => Val {| ls_oid := nextOid s; components := ps |}
               (set_nextOid (S (nextOid s)) s).

(** [point.clone()] *)
Definition clone (p : Point num) : M num (Point num) :=
  new_Point (pt_x p) (pt_y p).

(** [OpenLayers.Projection.transform(point, source, dest)] and
    [point.transform(source, dest)]: the point is modified in place. *)
Definition Projection_transform (p : Point num) (source dest : Projection)
  : Point num :=
  let xy := Projection_transform_xy (pt_x p, pt_y p) source dest in
  {| pt_oid := pt_oid p; pt_x := fst xy; pt_y := snd xy |}.

(** *** The base class

    Modelled from the spec: [OpenLayers.Control.prototype.activate] and
    [deactivate] belong to OpenLayers ([@requires OpenLayers/Control.js]) and
    are not among the sources.  The spec gives their guard: activating an
    active control, or deactivating an inactive one, is a no-op that returns
    failure; otherwise the call flips [active] and returns success.  The
    "activate"/"deactivate" events they trigger and the CSS class they toggle
    are left out: nothing in this control listens to or reads them. *)
Definition Control_activate : M num bool :=
  a <- gets (@active num) ;;
  if a then ret false
  else modify (set_active true) ;; ret true.

Definition Control_deactivate : M num bool :=
  a <- gets (@active num) ;;
  if a then modify (set_active false) ;; ret true
  else ret false.

(** [OpenLayers.Control.prototype.setMap], called by [map.addControl]. *)
Definition Control_setMap (m : Map num) : M num unit :=
  modify (set_map (Some m)).

(** *** connectGEPlugin, disconnectGEPlugin *)

Definition connectGEPlugin : M num unit :=
  modify (set_frameendCallback (Some BoundUpdate)) ;;
  ge <- gets (@gePlugin num) ;;
  call (GE_addEventListener num (option_map (@ge_id num) ge)) ;;
  modify (set_gePluginFlyToSpeedSet false).

Definition disconnectGEPlugin : M num unit :=
  cb <- gets (@frameendCallback num) ;;
  match cb with
  | Some _ =>
      ge <- gets (@gePlugin num) ;;
      call (GE_removeEventListener num (option_map (@ge_id num) ge)) ;;
      modify (set_frameendCallback None)
  | None => ret tt
  end.

(** *** Layer and feature helpers *)

(** [this.layer.removeAllFeatures()] *)
Definition layer_removeAllFeatures : M num unit :=
  l <- deref (@layer num) ;;
  modify (set_layer (Some {| layer_visibility := layer_visibility l;
                             layer_displayInLayerSwitcher :=
                               layer_displayInLayerSwitcher l;
                             features := [] |})) ;;
  call (Layer_removeAllFeatures num).

(** [this.layer.addFeatures(fs)] *)
Definition layer_addFeatures (fs : list FeatureId) : M num unit :=
  l <- deref (@layer num) ;;
  modify (set_layer (Some {| layer_visibility := layer_visibility l;
                             layer_displayInLayerSwitcher :=
                               layer_displayInLayerSwitcher l;
                             features := features l ++ fs |})) ;;
  call (Layer_addFeatures num fs).

(** [this.cameraFeature.geometry] and [this.lookAtFeature.geometry], read
    for one of their coordinates. *)
Definition point_geometry (f : State num -> option (PointFeature num))
  : M num (Point num) :=
  pf <- deref f ;; deref_opt (pf_geometry pf).

(** [this.cameraFeature.style.rotation = r] *)
Definition set_camera_rotation (r : num) : M num unit :=
  cf <- deref (@cameraFeature num) ;;
  modify (set_cameraFeature
            (Some {| pf_geometry := pf_geometry cf;
                     pf_style := {| rotation := Some r |} |})).

(** *** update *)

Definition update : M num unit :=
  m <- deref (@map num) ;;
  let mapProjection := getProjectionObject m in
  ge <- deref (@gePlugin num) ;;
  am <- gets (@altitudeMode num) ;;
  geo <- gets (fun s => geProjection (config s)) ;;
  (* Calculate new cameraFeature geometry *)
  let geCamera := copyAsCamera ge am in
  p <- new_Point (cam_longitude geCamera) (cam_latitude geCamera) ;;
  let newCameraGeometry := Projection_transform p geo mapProjection in
  (* Calculate new lookAtFeature geometry *)
  let geLookAt := copyAsLookAt ge am in
  q <- new_Point (la_longitude geLookAt) (la_latitude geLookAt) ;;
  let newLookAtGeometry := Projection_transform q geo mapProjection in
  prevGimballLock <- gets (@gimballLock num) ;;
  thr <- gets (fun s => gimballLockThreshold (config s)) ;;
  modify (set_gimballLock (num_lt (cam_tilt geCamera) thr)) ;;
  changed <-
    orM (fa <- gets (@featuresAdded num) ;; ret (negb fa))
   (orM (gl <- gets (@gimballLock num) ;; ret (xorb gl prevGimballLock))
   (orM (g <- point_geometry (@cameraFeature num) ;;
         ret (num_neq (pt_x newCameraGeometry) (pt_x g)))
   (orM (g <- point_geometry (@cameraFeature num) ;;
         ret (num_neq (pt_y newCameraGeometry) (pt_y g)))
   (orM (g <- point_geometry (@lookAtFeature num) ;;
         ret (num_neq (pt_x newLookAtGeometry) (pt_x g)))
        (g <- point_geometry (@lookAtFeature num) ;;
         ret (num_neq (pt_y newLookAtGeometry) (pt_y g))))))) ;;
  if changed then
    fa <- gets (@featuresAdded num) ;;
    (if fa then layer_removeAllFeatures else ret tt) ;;
    cf <- deref (@cameraFeature num) ;;
    modify (set_cameraFeature
              (Some {| pf_geometry := Some newCameraGeometry;
                       pf_style := pf_style cf |})) ;;
    lf <- deref (@lookAtFeature num) ;;
    modify (set_lookAtFeature
              (Some {| pf_geometry := Some newLookAtGeometry;
                       pf_style := pf_style lf |})) ;;
    line <- deref (@lineFeature num) ;;
    ls <- new_LineString [newCameraGeometry; newLookAtGeometry] ;;
    modify (set_lineFeature
              (Some {| lf_geometry := Some ls; lf_style := lf_style line |})) ;;
    gl <- gets (@gimballLock num) ;;
    (if gl then
       layer_addFeatures [CameraFeature] ;;
       set_camera_rotation (la_heading geLookAt)
     else
       layer_addFeatures [LineFeatureId; LookAtFeature; CameraFeature] ;;
       (* Calculate camera rotation *)
       let cameraLonLat := {| lon := cam_longitude geCamera;
                              lat := cam_latitude geCamera |} in
       let cameraPixel := getViewPortPxFromLonLat m cameraLonLat in
       let lookAtLonLat := {| lon := la_longitude geLookAt;
                              lat := la_latitude geLookAt |} in
       let lookAtPixel := getViewPortPxFromLonLat m lookAtLonLat in
       let rotation :=
         num_add (num_of_Z 90)
           (num_div
              (num_mul (num_of_Z 180)
                 (Math_atan2 (num_sub (px_y lookAtPixel) (px_y cameraPixel))
                             (num_sub (px_x lookAtPixel) (px_x cameraPixel))))
              Math_PI) in
       set_camera_rotation rotation) ;;
    modify (set_featuresAdded true)
  else ret tt.

(** *** setGEPlugin *)

Definition setGEPlugin (ge : option (GEPlugin num)) : M num unit :=
  disconnectGEPlugin ;;
  modify (set_gePlugin ge) ;;
  match ge with
  | Some g =>
      modify (set_altitudeMode (ALTITUDE_RELATIVE_TO_GROUND g)) ;;
      a <- gets (@active num) ;;
      if a then connectGEPlugin ;; update else ret tt
  | None => ret tt
  end.

(** *** draw *)

Definition draw : M num unit :=
  cf <- gets (@cameraFeature num) ;;
  (if truthy cf then ret tt
   else st <- gets (fun s => cameraStyle (config s)) ;;
        modify (set_cameraFeature
                  (Some {| pf_geometry := None; pf_style := st |}))) ;;
  line <- gets (@lineFeature num) ;;
  (if truthy line then ret tt
   else st <- gets (fun s => lineStyle (config s)) ;;
        modify (set_lineFeature
                  (Some {| lf_geometry := None; lf_style := st |}))) ;;
  lf <- gets (@lookAtFeature num) ;;
  (if truthy lf then ret tt
   else st <- gets (fun s => lookAtStyle (config s)) ;;
        modify (set_lookAtFeature
                  (Some {| pf_geometry := None; pf_style := st |}))) ;;
  l <- gets (@layer num) ;;
  (if truthy l then ret tt
   else c <- gets (@config num) ;;
        modify (set_layer
                  (Some {| layer_visibility := visible c;
                           layer_displayInLayerSwitcher :=
                             displayInLayerSwitcher c;
                           features := [] |}))) ;;
  d <- gets (@dragFeatureControl num) ;;
  (if truthy d then ret tt
   else modify (set_dragFeatureControl
                  (Some {| geometryTypes :=
                             ["OpenLayers.Geometry.Point"%string] |}))).

(** *** activate, deactivate *)

Definition activate : M num bool :=
  ok <- Control_activate ;;
  ge <- gets (@gePlugin num) ;;
  if ok && truthy ge then
    _ <- deref (@map num) ;;
    _ <- deref (@layer num) ;;
    call (Map_addLayer num) ;;
    call (Map_addControl num) ;;
    _ <- deref (@dragFeatureControl num) ;;
    call (DragFeature_activate num) ;;
    connectGEPlugin ;;
    update ;;
    ret true
  else ret false.

Definition deactivate : M num bool :=
  ok <- Control_deactivate ;;
  if ok then
    disconnectGEPlugin ;;
    _ <- deref (@dragFeatureControl num) ;;
    call (DragFeature_deactivate num) ;;
    _ <- deref (@map num) ;;
    call (Map_removeControl num) ;;
    call (Map_removeLayer num) ;;
    ret true
  else ret false.

(** *** onDrag *)

Definition feature_eqb (a b : FeatureId) : bool :=
  match a, b with
  | CameraFeature, CameraFeature => true
  | LineFeatureId, LineFeatureId => true
  | LookAtFeature, LookAtFeature => true
  | OtherFeature n, OtherFeature m => Nat.eqb n m
  | _, _ => false
  end.

Definition onDrag (feature : FeatureId) (pixel : Pixel num) : M num unit :=
  m <- deref (@map num) ;;
  let mapProjection := getProjectionObject m in
  _ <- deref (@layer num) ;;
  let lonLat := getLonLatFromViewPortPx m pixel in
  p <- new_Point (lon lonLat) (lat lonLat) ;;
  geo <- gets (fun s => geProjection (config s)) ;;
  let point := Projection_transform p mapProjection geo in
  let lonLat := {| lon := pt_x point; lat := pt_y point |} in
  ge <- deref (@gePlugin num) ;;
  am <- gets (@altitudeMode num) ;;
  let geLookAt := copyAsLookAt ge am in
  gl <- gets (@gimballLock num) ;;
  geLookAt <-
    (if feature_eqb feature CameraFeature && negb gl then
       (* Set the camera heading and range *)
       a <- deref (@initialLookAt num) ;;
       let v := setLongitude (lon a) geLookAt in
       let v := setLatitude (lat a) v in
       let v := setHeading
                  (num_neg (Spherical_computeHeading lonLat a)) v in
       ret (setRange
              (Some (num_div
                       (num_mul (num_of_Z 1000) (Util_distVincenty lonLat a))
                       (Math_sin (num_div (num_mul Math_PI (la_tilt v))
                                          (num_of_Z 180)))))
              v)
     else if feature_eqb feature LookAtFeature
             || (feature_eqb feature CameraFeature && gl) then
       (* Set the look at point *)
       r <- gets (@initialRange num) ;;
       ret (setLatitude (lat lonLat)
              (setLongitude (lon lonLat) (setRange r geLookAt)))
     else ret geLookAt) ;;
  call (GE_setAbstractView (ge_id ge) geLookAt).

(** *** onStart *)

Definition onStart (feature : FeatureId) : M num unit :=
  (* calculate initial range *)
  m <- deref (@map num) ;;
  let mapProjection := getProjectionObject m in
  geo <- gets (fun s => geProjection (config s)) ;;
  g <- point_geometry (@lookAtFeature num) ;;
  c <- clone g ;;
  let lookAt := Projection_transform c mapProjection geo in
  modify (set_initialLookAt
            (Some {| lon := pt_x lookAt; lat := pt_y lookAt |})) ;;
  g <- point_geometry (@cameraFeature num) ;;
  c <- clone g ;;
  let camera := Projection_transform c mapProjection geo in
  let cameraLonLat := {| lon := pt_x camera; lat := pt_y camera |} in
  ge <- deref (@gePlugin num) ;;
  am <- gets (@altitudeMode num) ;;
  let geLookAt := copyAsLookAt ge am in
  a <- deref (@initialLookAt num) ;;
  modify (set_initialRange
            (Some (num_div
                     (num_mul (num_of_Z 1000)
                              (Util_distVincenty cameraLonLat a))
                     (Math_sin (num_div (num_mul Math_PI (la_tilt geLookAt))
                                        (num_of_Z 180)))))) ;;
  (* Set the fly to speed to teleport (instantaneous) when the user first
     starts dragging a feature so that the GE Plugin does not lag *)
  ge <- gets (@gePlugin num) ;;
  fl <- gets (@gePluginFlyToSpeedSet num) ;;
  match ge with
  | Some g =>
      if negb fl then
        call (GE_setFlyToSpeed (ge_id g) (SPEED_TELEPORT g)) ;;
        modify (set_gePluginFlyToSpeedSet true)
      else ret tt
  | None => ret tt
  end.

(** *** initialize *)

(** The options of the constructor that bear on the behaviour modelled. *)
Record Options : Type := {
  opt_gePlugin : option (GEPlugin num);
  opt_gimballLockThreshold : option num;
  opt_cameraStyle : option (Style num)
}.

(** The object as the prototype and the copied options leave it, before
    the body of [initialize] runs. *)
Definition prototype (o : Options) : State num :=
  {| config :=
       {| displayInLayerSwitcher := false;
          visible := true;
          cameraStyle :=
            match opt_cameraStyle o with
            | Some st => st
            | None => {| rotation := Some (num_of_Z 0) |}
            end;
          lineStyle := {| rotation := None |};
          lookAtStyle := {| rotation := None |};
          gimballLockThreshold :=
            match opt_gimballLockThreshold o with
            | Some t => t
            | None => num_of_Z 1
            end;
          geProjection := "EPSG:4326"%string |};
     active := false;
     map := None;
     gePlugin := opt_gePlugin o;
     altitudeMode := num_of_Z 0;
     layer := None;
     featuresAdded := false;
     dragFeatureControl := None;
     cameraFeature := None;
     lineFeature := None;
     lookAtFeature := None;
     gimballLock := false;
     frameendCallback := None;
     gePluginFlyToSpeedSet := false;
     initialLookAt := None;
     initialRange := None;
     calls := [];
     nextOid := 0 |}.

Definition initialize (o : Options) : State num :=
  state_of
    ((ge <- gets (@gePlugin num) ;;
      if truthy ge then setGEPlugin ge else ret tt) (prototype o)).

(** ** The life of a control

    What can happen to a control between its construction and its
    destruction: the application and the map call its methods, the plugin
    fires "frameend", the drag control reports a drag, and the plugin's view
    moves on its own. *)

Inductive Op : Type :=
| Op_setMap (m : Map num)
| Op_draw
| Op_activate
| Op_deactivate
| Op_setGEPlugin (ge : option (GEPlugin num))
| Op_update
| Op_onStart (feature : FeatureId)
| Op_onDrag (feature : FeatureId) (pixel : Pixel num)
| Op_viewChanged (camera : num -> KmlCamera num) (lookAt : num -> KmlLookAt num).

(** The plugin's view changes: the plugin is a shared object, so the control
    sees the new view through the handle it holds. *)
Definition viewChanged (camera : num -> KmlCamera num)
    (lookAt : num -> KmlLookAt num) : M num unit :=
  ge <- gets (@gePlugin num) ;;
  match ge with
  | Some g =>
      modify (set_gePlugin
                (Some {| ge_id := ge_id g;
                         ALTITUDE_RELATIVE_TO_GROUND :=
                           ALTITUDE_RELATIVE_TO_GROUND g;
                         SPEED_TELEPORT := SPEED_TELEPORT g;
                         copyAsCamera := camera;
                         copyAsLookAt := lookAt |}))
  | None => ret tt
  end.

(** The state an operation leaves, whether it returned or threw. *)
Definition exec (op : Op) (s : State num) : State num :=
  match op with
  | Op_setMap m => state_of (Control_setMap m s)
  | Op_draw => state_of (draw s)
  | Op_activate => state_of (activate s)
  | Op_deactivate => state_of (deactivate s)
  | Op_setGEPlugin ge => state_of (setGEPlugin ge s)
  | Op_update => state_of (update s)
  | Op_onStart f => state_of (onStart f s)
  | Op_onDrag f px => state_of (onDrag f px s)
  | Op_viewChanged c l => state_of (viewChanged c l s)
  end.

Definition run (ops : list Op) (s : State num) : State num :=
  fold_left (fun s op => exec op s) ops s.

Inductive reachable (o : Options) : State num -> Prop :=
| reachable_init : reachable o (initialize o)
| reachable_step s op : reachable o s -> reachable o (exec op s).

End Methods.

Arguments Options : clear implicits.
Arguments Op : clear implicits.

(** ** Notions used by the properties *)

Section Notions.
Context {num : Type} {N : JSNumber num} {L : OpenLayersLib num}.

(** What the layer shows for a value of the gimbal-lock flag. *)
Definition shown (gimbal : bool) : list FeatureId :=
  if gimbal then [CameraFeature]
  else [LineFeatureId; LookAtFeature; CameraFeature].

(** The features drawn so far and the layer agree with the two flags. *)
Definition Consistent (s : State num) : Prop :=
  match layer s with
  | None => featuresAdded s = false
  | Some l =>
      exists cf ln lf,
        cameraFeature s = Some cf /\ lineFeature s = Some ln /\
        lookAtFeature s = Some lf /\
        if featuresAdded s
        then pf_geometry cf <> None /\ pf_geometry lf <> None /\
             features l = shown (gimballLock s)
        else features l = []
  end.

(** The part of the state that the map shows: the three features with
    their geometry objects, and the layer. *)
Definition rendering (s : State num) :=
  (cameraFeature s, lineFeature s, lookAtFeature s, layer s).

(** The abstract view handed to the plugin by the most recent call, when
    that call is [setAbstractView]. *)
Definition pushedView (s : State num) : option (KmlLookAt num) :=
  match calls s with
  | GE_setAbstractView _ v :: _ => Some v
  | _ => None
  end.

(** Number of [setFlyToSpeed] calls made since the listener was last
    attached (the log is most recent first). *)
Fixpoint speedCallsSinceConnect (cs : list (Call num)) : nat :=
  match cs with
  | [] => 0
  | GE_addEventListener _ _ :: _ => 0
  | GE_setFlyToSpeed _ _ :: cs' => S (speedCallsSinceConnect cs')
  | _ :: cs' => speedCallsSinceConnect cs'
  end.

(** Number of [setFlyToSpeed] calls in the whole log. *)
Fixpoint speedCalls (cs : list (Call num)) : nat :=
  match cs with
  | [] => 0
  | GE_setFlyToSpeed _ _ :: cs' => S (speedCalls cs')
  | _ :: cs' => speedCalls cs'
  end.

(** The geographic position of a viewport pixel: the layer turns the pixel
    into a map coordinate, the transform takes it to the plugin's
    projection. *)
Definition geographicPoint (s : State num) (m : Map num) (pixel : Pixel num)
  : LonLat num :=
  let ll := getLonLatFromViewPortPx m pixel in
  let xy := Projection_transform_xy (lon ll, lat ll)
              (getProjectionObject m) (geProjection (config s)) in
  {| lon := fst xy; lat := snd xy |}.

(** A geographic position of the plugin in map coordinates. *)
Definition mapPosition (s : State num) (m : Map num) (longitude latitude : num)
  : num * num :=
  Projection_transform_xy (longitude, latitude)
    (geProjection (config s)) (getProjectionObject m).

(** A map position equals the geometry a marker was last given; "equals" is
    JavaScript's: neither coordinate is [!=] to the marker's. *)
Definition samePosition (xy : num * num) (f : option (PointFeature num))
  : bool :=
  match f with
  | Some {| pf_geometry := Some p |} =>
      negb (num_neq (fst xy) (pt_x p)) && negb (num_neq (snd xy) (pt_y p))
  | _ => false
  end.

(** The pose of the plugin is the one the markers were last drawn for: same
    flag, same camera position, same look-at position. *)
Definition poseUnchanged (s : State num) (m : Map num) (ge : GEPlugin num)
  : bool :=
  let geCamera := copyAsCamera ge (altitudeMode s) in
  let geLookAt := copyAsLookAt ge (altitudeMode s) in
  Bool.eqb (num_lt (cam_tilt geCamera) (gimballLockThreshold (config s)))
           (gimballLock s)
  && samePosition
       (mapPosition s m (cam_longitude geCamera) (cam_latitude geCamera))
       (cameraFeature s)
  && samePosition
       (mapPosition s m (la_longitude geLookAt) (la_latitude geLookAt))
       (lookAtFeature s).

(** The rotation of the camera marker. *)
Definition cameraRotation (s : State num) : option num :=
  match cameraFeature s with
  | Some cf => rotation (pf_style cf)
  | None => None
  end.

(** The on-screen bearing from the camera pixel to the look-at pixel, in
    degrees: [90 + 180 * atan2(dy, dx) / PI]. *)
Definition screenBearing (cameraPixel lookAtPixel : Pixel num) : num :=
  num_add (num_of_Z 90)
    (num_div
       (num_mul (num_of_Z 180)
          (Math_atan2 (num_sub (px_y lookAtPixel) (px_y cameraPixel))
                      (num_sub (px_x lookAtPixel) (px_x cameraPixel))))
       Math_PI).

(** Operations that attach the frame-end listener. *)
Definition connects (op : Op num) (s : State num) : Prop :=
  (op = Op_activate /\ active s = false /\ gePlugin s <> None) \/
  (exists ge, op = Op_setGEPlugin (Some ge) /\ active s = true).

(** Calls made on the vector layer. *)
Definition isLayerCall (c : Call num) : bool :=
  match c with
  | Layer_removeAllFeatures _ | Layer_addFeatures _ _ => true
  | _ => false
  end.

(** What [update] leaves alone: every property of the control but the
    three features, the layer, the two flags it maintains and the allocator,
    and every collaborator but the layer. *)
Definition updateFrame (s s' : State num) : Prop :=
  config s' = config s /\ active s' = active s /\ map s' = map s /\
  gePlugin s' = gePlugin s /\ altitudeMode s' = altitudeMode s /\
  dragFeatureControl s' = dragFeatureControl s /\
  frameendCallback s' = frameendCallback s /\
  gePluginFlyToSpeedSet s' = gePluginFlyToSpeedSet s /\
  initialLookAt s' = initialLookAt s /\ initialRange s' = initialRange s /\
  exists pre, calls s' = pre ++ calls s /\ forallb isLayerCall pre = true.

(** At most one [setFlyToSpeed] since the listener was attached, and none
    while the flag is down. *)
Definition SpeedSetOnce (s : State num) : Prop :=
  speedCallsSinceConnect (calls s)
  <= (if gePluginFlyToSpeedSet s then 1 else 0).

(** The teleport flag is up. *)
Definition flagUp (s : State num) : Prop := gePluginFlyToSpeedSet s = true.

End Notions.

(** ** Instances of the number interface *)

(** Real numbers: the arithmetic the source is written for, without the
    rounding of IEEE doubles. *)
Definition R_lt (a b : R) : bool := if Rlt_dec a b then true else false.
Definition R_neq (a b : R) : bool := if Req_dec_T a b then false else true.
Definition R_atan2 (y x : R) : R :=
  if Rlt_dec 0 x then atan (y / x)
  else if Rlt_dec x 0 then
         if Rle_dec 0 y then (atan (y / x) + PI)%R else (atan (y / x) - PI)%R
       else if Rlt_dec 0 y then (PI / 2)%R
            else if Rlt_dec y 0 then (- (PI / 2))%R else 0%R.

#[export] Instance RNumber : JSNumber R := {|
  num_of_Z := IZR;
  num_neg := Ropp;
  num_add := Rplus;
  num_sub := Rminus;
  num_mul := Rmult;
  num_div := Rdiv;
  num_lt := R_lt;
  num_neq := R_neq;
  Math_PI := PI;
  Math_sin := sin;
  Math_atan2 := R_atan2
|}.

(** Rationals, to run examples: arithmetic and comparisons are exact; the
    three members of [Math] are first-order rational approximations, which
    no theorem relies on. *)
Definition Q_lt (a b : Q) : bool := negb (Qle_bool b a).
Definition Q_neq (a b : Q) : bool := negb (Qeq_bool a b).

#[export] Instance QNumber : JSNumber Q := {|
  num_of_Z := inject_Z;
  num_neg := Qopp;
  num_add := Qplus;
  num_sub := Qminus;
  num_mul := Qmult;
  num_div := Qdiv;
  num_lt := Q_lt;
  num_neq := Q_neq;
  Math_PI := (355 # 113)%Q;
  Math_sin := fun a => a;
  Math_atan2 := fun b a => Qdiv b a
|}.

(** ** A small world for examples

    A map in the plugin's own projection whose viewport pixels coincide
    with its coordinates, and a planar stand-in for the geodesy: the
    projection transform is the identity, the separation of two positions
    is the sum of the squares of their coordinate differences. *)

Section Examples.
Context {num : Type} {N : JSNumber num}.

Definition planar : OpenLayersLib num := {|
  Projection_transform_xy := fun xy _ _ => xy;
  Util_distVincenty := fun a b =>
    num_add (num_mul (num_sub (lon b) (lon a)) (num_sub (lon b) (lon a)))
            (num_mul (num_sub (lat b) (lat a)) (num_sub (lat b) (lat a)));
  Spherical_computeHeading := fun a b =>
    Math_atan2 (num_sub (lon b) (lon a)) (num_sub (lat b) (lat a))
|}.

Definition flatMap : Map num := {|
  getProjectionObject := "EPSG:4326"%string;
  getLonLatFromViewPortPx := fun px => {| lon := px_x px; lat := px_y px |};
  getViewPortPxFromLonLat := fun ll => {| px_x := lon ll; px_y := lat ll |}
|}.

(** A plugin whose camera is at [(clon, clat)] and looks at [(llon, llat)]. *)
Definition plugin (id : nat) (clon clat llon llat tilt heading : num)
  : GEPlugin num := {|
  ge_id := id;
  ALTITUDE_RELATIVE_TO_GROUND := num_of_Z 1;
  SPEED_TELEPORT := num_of_Z 5;
  copyAsCamera := fun _ =>
    {| cam_longitude := clon; cam_latitude := clat;
       cam_altitude := num_of_Z 1000; cam_heading := heading;
       cam_tilt := tilt |};
  copyAsLookAt := fun _ =>
    {| la_longitude := llon; la_latitude := llat;
       la_altitude := num_of_Z 0; la_heading := heading;
       la_tilt := tilt; la_range := Some (num_of_Z 1000) |}
|}.

Definition defaults : Options num := {|
  opt_gePlugin := None;
  opt_gimballLockThreshold := None;
  opt_cameraStyle := None
|}.

(** The usual start of a session: the control is added to the map, drawn,
    given the plugin and activated. *)
Definition setup (ge : GEPlugin num) : list (Op num) :=
  [Op_setMap flatMap; Op_draw; Op_setGEPlugin (Some ge); Op_activate].

Definition started (ge : GEPlugin num) : State num :=
  run (L := planar) (setup ge) (initialize (L := planar) defaults).

(** A control in the middle of a drag that started with the look-at point
    at [anchor]. *)
Definition dragging (ge : GEPlugin num) (anchor : LonLat num) (range : num)
  : State num :=
  set_initialRange (Some range)
    (set_initialLookAt (Some anchor)
       (set_gePlugin (Some ge)
          (set_map (Some flatMap)
             (state_of (draw (prototype (N := N) defaults)))))).

End Examples.

(** Sessions on the rationals. *)

(** A plugin looking straight down with a given heading, and one tilted by 45
    degrees looking from (7, 47) at (8, 47). *)
Definition overhead (heading : Q) : GEPlugin Q :=
  plugin 7 0%Q 0%Q 0%Q 0%Q 0%Q heading.
Definition tilted : GEPlugin Q :=
  plugin 7 7%Q 47%Q 8%Q 47%Q 45%Q 90%Q.

Definition tiltedSession : State Q := started tilted.

(** A control on the map, drawn and handed the overhead plugin, not yet
    activated. *)
Definition idle : State Q :=
  run (L := planar)
    [Op_setMap flatMap; Op_draw; Op_setGEPlugin (Some (overhead 10%Q))]
    (initialize (L := planar) defaults).

(** A fresh control. *)
Definition fresh : State Q := initialize (L := planar) defaults.

(** A fresh control on the map, drawn, without plugin. *)
Definition unplugged : State Q :=
  run (L := planar) [Op_setMap flatMap; Op_draw] fresh.

(** The camera has been grabbed: [onStart] has run on the tilted session. *)
Definition grabbed : State Q :=
  exec (L := planar) (Op_onStart CameraFeature) tiltedSession.

(** The overhead session after the plugin turned from heading 10 to heading
    20 without moving. *)
Definition turned : State Q :=
  exec (L := planar)
    (Op_viewChanged (copyAsCamera (overhead 20%Q))
                    (copyAsLookAt (overhead 20%Q)))
    (started (overhead 10%Q)).

(** A real-valued control in the middle of a drag: anchor at the origin,
    tilt 45 degrees. *)
Definition draggingR : State R :=
  dragging (plugin 7 1%R 0%R 0%R 0%R 45%R 0%R) {| lon := 0%R; lat := 0%R |}
    1000%R.


(** ** Further notions: the frame-end listener and the shared geometries *)

Section MoreNotions.
Context {num : Type}.

(** The target of the listener that the log leaves attached, if any. *)
Fixpoint attachedTo (cs : list (Call num)) : option (option nat) :=
  match cs with
  | [] => None
  | GE_addEventListener _ t :: _ => Some t
  | GE_removeEventListener _ _ :: _ => None
  | _ :: cs' => attachedTo cs'
  end.

Definition target_eqb (a b : option nat) : bool :=
  match a, b with
  | Some x, Some y => Nat.eqb x y
  | None, None => true
  | _, _ => false
  end.

(** Listeners are attached and removed in turn: one is attached only when
    none is, and what is removed is what was attached. *)
Fixpoint wellBracketed (cs : list (Call num)) : bool :=
  match cs with
  | [] => true
  | GE_addEventListener _ _ :: cs' =>
      match attachedTo cs' with
      | None => wellBracketed cs'
      | Some _ => false
      end
  | GE_removeEventListener _ t :: cs' =>
      match attachedTo cs' with
      | Some t' => target_eqb t t' && wellBracketed cs'
      | None => false
      end
  | _ :: cs' => wellBracketed cs'
  end.

(** The control's record of its listener agrees with the plugin's: the log
    is well bracketed, a listener is attached exactly when
    [frameendCallback] is set, it then sits on the plugin the control
    holds, and the control is active. *)
Definition ListenerTracked (s : State num) : Prop :=
  wellBracketed (calls s) = true /\
  attachedTo (calls s) =
    match frameendCallback s with
    | Some _ => Some (option_map (@ge_id num) (gePlugin s))
    | None => None
    end /\
  (frameendCallback s <> None -> active s = true /\ gePlugin s <> None).

(** The line joins the two markers: its components are the very point
    objects held by the camera marker and by the look-at marker. *)
Definition LineJoinsMarkers (s : State num) : Prop :=
  featuresAdded s = true ->
  exists cf ln lf cg lg ls,
    cameraFeature s = Some cf /\ lineFeature s = Some ln /\
    lookAtFeature s = Some lf /\
    pf_geometry cf = Some cg /\ pf_geometry lf = Some lg /\
    lf_geometry ln = Some ls /\ components ls = [cg; lg].

(** The state in which [activate] runs [update]. *)
Definition activating (s : State num) : State num :=
  set_gePluginFlyToSpeedSet false
    (set_calls (GE_addEventListener num
                  (option_map (@ge_id num) (gePlugin s))
                :: DragFeature_activate num :: Map_addControl num
                :: Map_addLayer num :: calls s)
       (set_frameendCallback (Some BoundUpdate) (set_active true s))).

End MoreNotions.

(** ** IEEE doubles

    JavaScript numbers as they are: binary64 floats, with IEEE 754
    arithmetic and comparisons ([!=] is true of NaN and itself, false of
    the two zeros).  This is the arithmetic the source runs on.  ECMAScript leaves [Math.sin] and [Math.atan2]
    implementation-approximated, so they are parameters of the instance;
    [Math.PI] is the double nearest to pi. *)

Module Double.
Import Floats.

Definition of_Z (z : Z) : float :=
  match z with
  | Z0 => 0%float
  | Zpos _ => PrimFloat.of_uint63 (Uint63.of_Z z)
  | Zneg p => PrimFloat.opp (PrimFloat.of_uint63 (Uint63.of_Z (Zpos p)))
  end.

Definition Number (fsin : float -> float) (fatan2 : float -> float -> float)
  : JSNumber float := {|
  num_of_Z := of_Z;
  num_neg := PrimFloat.opp;
  num_add := PrimFloat.add;
  num_sub := PrimFloat.sub;
  num_mul := PrimFloat.mul;
  num_div := PrimFloat.div;
  num_lt := PrimFloat.ltb;
  num_neq := fun a b => negb (PrimFloat.eqb a b);
  Math_PI := 0x1.921fb54442d18p+1%float;
  Math_sin := fsin;
  Math_atan2 := fatan2
|}.

(** Two neighbouring doubles, about 135.08721. *)
Definition below : float := 0x1.0e2ca6ca03c6ap+7%float.
Definition above : float := 0x1.0e2ca6ca03c6bp+7%float.

(** The smallest positive double, about 4.9e-324. *)
Definition tiny : float := 0x1p-1074%float.

(** Stand-ins for [Math.sin] and [Math.atan2] to run examples: the cubic
    Taylor polynomial of the sine, and the quotient of the arguments. *)
Definition sin3 (x : float) : float := (x - x * x * x / 6)%float.
Definition ratio (y x : float) : float := (y / x)%float.

End Double.

(** ** Rounding to binary64

    The operations of doubles are specified by [SpecFloat]: a product or a
    quotient is computed exactly as a mantissa, an exponent and the position
    of the remainder, and [binary_round_aux] rounds it to nearest, ties to
    even.  To reason about the rounding, the mantissa is packed with its
    round and sticky bits into one integer, its code. *)

Module Rounding.
Import SpecFloat.
Local Open Scope Z_scope.

(** The round and sticky bits of a shifted mantissa, packed behind it. *)
Definition code (mrs : shr_record) : Z :=
  4 * shr_m mrs + 2 * Z.b2z (shr_r mrs) + Z.b2z (shr_s mrs).

Definition code_of (m : Z) (l : location) : Z :=
  code (shr_record_of_loc m l).

(** One step of [shr_1] on codes, and [n] steps at once. *)
Definition halve (c : Z) : Z :=
  2 * (c / 4) + (if c mod 4 =? 0 then 0 else 1).

Definition shrc (n c : Z) : Z :=
  if n <=? 0 then c
  else 2 * (c / 2 ^ (n + 1)) + (if c mod 2 ^ (n + 1) =? 0 then 0 else 1).

(** Rounding to nearest, ties to even, on codes. *)
Definition rnd (c : Z) : Z :=
  let m := c / 4 in
  let t := c mod 4 in
  if t <=? 1 then m
  else if t =? 2 then (if Z.even m then m else m + 1)
  else m + 1.


(** Binary64. *)
Definition fexp64 (x : Z) : Z := fexp FloatOps.prec FloatOps.emax x.

(** The last step of [binary_round_aux]: a mantissa and an exponent become
    a zero, a finite number or an infinity. *)
Definition pack (s : bool) (m e : Z) : spec_float :=
  match m with
  | Z0 => S754_zero s
  | Zpos p =>
      if e <=? FloatOps.emax - FloatOps.prec then S754_finite s p e
      else S754_infinity s
  | Zneg _ => S754_nan
  end.

(** The second half of [binary_round_aux]: the rounded mantissa is shifted
    once more when rounding made it one bit too long. *)
Definition fin (s : bool) (m e : Z) : spec_float :=
  let '(mrs, e') := shr_fexp FloatOps.prec FloatOps.emax m e loc_Exact in
  pack s (shr_m mrs) e'.

(** [binary_round_aux] on a code. *)
Definition round_code (s : bool) (c e : Z) : spec_float :=
  let n := fexp64 (Zdigits2 (c / 4) + e) - e in
  fin s (rnd (shrc n c)) (e + Z.max n 0).


(** Zeros, positive numbers and plus infinity. *)
Definition nonneg (x : spec_float) : bool :=
  match x with
  | S754_zero _ | S754_infinity false | S754_finite false _ _ => true
  | _ => false
  end.

Definition bounded64 (m : positive) (e : Z) : bool :=
  bounded FloatOps.prec FloatOps.emax m e.

(** The code of the quotient [N / D]. *)
Definition dcode (N D : Z) : Z :=
  2 * (2 * N / D) + (if (2 * N) mod D =? 0 then 0 else 1).

End Rounding.

Section MoreExamples.
Context {num : Type} {N : JSNumber num}.

(** A one-dimensional stand-in for the geodesy: positions are compared
    along the equator, the distance of two of them being the difference of
    their longitudes; the projection transform is the identity. *)
Definition equator : OpenLayersLib num := {|
  Projection_transform_xy := fun xy _ _ => xy;
  Util_distVincenty := fun a b => num_sub (lon a) (lon b);
  Spherical_computeHeading := fun _ _ => num_of_Z 90
|}.

(** The options of a control that never treats the view as degenerate. *)
Definition noThreshold : Options num := {|
  opt_gePlugin := None;
  opt_gimballLockThreshold := Some (num_of_Z 0);
  opt_cameraStyle := None
|}.

(** A session in which the user has just grabbed the camera marker: the
    camera is at longitude 1 on the equator and looks at the origin with
    the given tilt. *)
Definition cameraGrabbed (o : Options num) (tilt : num) : State num :=
  run (L := equator)
    (setup
       (plugin 7 (num_of_Z 1) (num_of_Z 0) (num_of_Z 0) (num_of_Z 0) tilt
          (num_of_Z 0))
     ++ [Op_onStart CameraFeature])
    (initialize (L := equator) o).

End MoreExamples.

(** A control on the map, drawn and handed the tilted plugin, not yet
    activated. *)
Definition idleTilted : State Q :=
  run (L := planar)
    [Op_setMap flatMap; Op_draw; Op_setGEPlugin (Some tilted)] fresh.
(** ** A weakest-precondition calculus for the methods *)

Section WP.
Context {num : Type}.

(** [wp c Q E s]: run from [s], [c] either returns [a] in a state satisfying
    [Q a] or throws in a state satisfying [E]. *)
Definition wp {A} (c : M num A) (Q : A -> State num -> Prop)
    (E : State num -> Prop) (s : State num) : Prop :=
  match c s with
  | Val a s' => Q a s'
  | Throw _ s' => E s'
  end.

End WP.
Section WPRules.
Context {num : Type} {N : JSNumber num} {L : OpenLayersLib num}.
Implicit Types (s : State num) (E : State num -> Prop).

Lemma wp_ret {A} (a : A) (Q : A -> State num -> Prop) E s :
  Q a s -> wp (ret a) Q E s.
Proof. exact (fun H => H). Qed.

Lemma wp_bind {A B} (c : M num A) (k : A -> M num B) Q E s :
  wp c (fun a s' => wp (k a) Q E s') E s -> wp (bind c k) Q E s.
Proof. unfold wp, bind. destruct (c s); exact (fun H => H). Qed.

Lemma wp_gets {A} (f : State num -> A) (Q : A -> State num -> Prop) E s :
  Q (f s) s -> wp (gets f) Q E s.
Proof. exact (fun H => H). Qed.

Lemma wp_modify (f : State num -> State num) (Q : unit -> State num -> Prop) E s :
  Q tt (f s) -> wp (modify f) Q E s.
Proof. exact (fun H => H). Qed.

Lemma wp_call (c : Call num) (Q : unit -> State num -> Prop) E s :
  Q tt (set_calls (c :: calls s) s) -> wp (call c) Q E s.
Proof. exact (fun H => H). Qed.

Lemma wp_deref {A} (f : State num -> option A) (Q : A -> State num -> Prop) E s :
  match f s with Some a => Q a s | None => E s end -> wp (deref f) Q E s.
Proof. unfold wp, deref. destruct (f s); exact (fun H => H). Qed.

Lemma wp_deref_opt {A} (o : option A) (Q : A -> State num -> Prop) E s :
  match o with Some a => Q a s | None => E s end -> wp (deref_opt o) Q E s.
Proof. unfold wp, deref_opt. destruct o; exact (fun H => H). Qed.

Lemma wp_new_Point (x y : num) (Q : Point num -> State num -> Prop) E s :
  Q {| pt_oid := nextOid s; pt_x := x; pt_y := y |}
    (set_nextOid (S (nextOid s)) s) ->
  wp (new_Point x y) Q E s.
Proof. exact (fun H => H). Qed.

Lemma wp_new_LineString ps (Q : LineString num -> State num -> Prop) E s :
  Q {| ls_oid := nextOid s; components := ps |}
    (set_nextOid (S (nextOid s)) s) ->
  wp (new_LineString ps) Q E s.
Proof. exact (fun H => H). Qed.

Lemma wp_value {A} (c : M num A) (P : A -> State num -> Prop) s :
  wp c P (fun _ => False) s -> exists a s', c s = Val a s' /\ P a s'.
Proof.
  unfold wp. destruct (c s) as [a s'|e s']; [|intros []].
  intros H. exists a, s'. split; [reflexivity|exact H].
Qed.

Lemma wp_state_of {A} (c : M num A) (I : State num -> Prop) s :
  wp c (fun _ => I) I s -> I (state_of (c s)).
Proof. unfold wp. destruct (c s); exact (fun H => H). Qed.

Lemma wp_weaken {A} (c : M num A) (Q Q' : A -> State num -> Prop) E E' s :
  wp c Q E s -> (forall a s', Q a s' -> Q' a s') -> (forall s', E s' -> E' s') ->
  wp c Q' E' s.
Proof. unfold wp. destruct (c s); auto. Qed.

End WPRules.

Ltac simp_state :=
  cbn [config active map gePlugin altitudeMode layer featuresAdded
       dragFeatureControl cameraFeature lineFeature lookAtFeature gimballLock
       frameendCallback gePluginFlyToSpeedSet initialLookAt initialRange
       calls nextOid
       set_active set_map set_gePlugin set_altitudeMode set_layer
       set_featuresAdded set_dragFeatureControl set_cameraFeature
       set_lineFeature set_lookAtFeature set_gimballLock
       set_frameendCallback set_gePluginFlyToSpeedSet set_initialLookAt
       set_initialRange set_calls set_nextOid
       pf_geometry pf_style lf_geometry lf_style features rotation
       layer_visibility layer_displayInLayerSwitcher
       pt_oid pt_x pt_y Projection_transform
       negb andb orb xorb truthy feature_eqb state_of] in *.

Ltac wp_unfold :=
  unfold orM, clone, point_geometry, set_camera_rotation, layer_addFeatures,
    layer_removeAllFeatures, connectGEPlugin, disconnectGEPlugin,
    Control_setMap, Control_activate, Control_deactivate.

Ltac wp_rule :=
  lazymatch goal with
  | |- wp (bind _ _) _ _ _ => apply wp_bind
  | |- wp (ret _) _ _ _ => apply wp_ret
  | |- wp (gets _) _ _ _ => apply wp_gets
  | |- wp (modify _) _ _ _ => apply wp_modify
  | |- wp (call _) _ _ _ => apply wp_call
  | |- wp (deref _) _ _ _ => apply wp_deref
  | |- wp (deref_opt _) _ _ _ => apply wp_deref_opt
  | |- wp (new_Point _ _) _ _ _ => apply wp_new_Point
  | |- wp (new_LineString _) _ _ _ => apply wp_new_LineString
  end.

Ltac wp_rewrite :=
  match goal with
  | H : ?lhs = _ |- context [?lhs] => rewrite H
  end.

Ltac wp_case :=
  lazymatch goal with
  | |- wp (if ?c then _ else _) _ _ _ => destruct c eqn:?
  | |- wp (match ?c with _ => _ end) _ _ _ => destruct c eqn:?
  | |- match ?c with _ => _ end => destruct c eqn:?
  end.

Ltac wp_go :=
  repeat (wp_unfold; cbv beta; simp_state;
          first [wp_rule | wp_rewrite | wp_case]).
Section Invariants.
Context {num : Type} {N : JSNumber num} {L : OpenLayersLib num}.

Lemma xorb_false_eq (a b : bool) : xorb a b = false -> a = b.
Proof. destruct a, b; simpl; congruence. Qed.

Lemma update_Consistent (s : State num) :
  Consistent s -> Consistent (state_of (update s)).
Proof.
  intros H. apply wp_state_of. unfold update.
  pose proof H as H0. unfold Consistent in H.
  destruct (layer s) as [l|] eqn:El.
  - destruct H as (cf & ln & lf & Hc & Hln & Hlf & H).
    destruct (featuresAdded s) eqn:Efa.
    + destruct H as (Hg1 & Hg2 & Hfeat).
      destruct (pf_geometry cf) as [cg|] eqn:Ecg; [|congruence].
      destruct (pf_geometry lf) as [lg|] eqn:Elg; [|congruence].
      wp_go; try exact H0.
      all: unfold Consistent; simp_state; rewrite ?El, ?Hc, ?Hln, ?Hlf, ?Efa.
      all: do 3 eexists; repeat split; try reflexivity;
        try (simp_state; congruence).
      rewrite Hfeat; f_equal; symmetry; apply xorb_false_eq; assumption.
    + wp_go; try exact H0.
      all: unfold Consistent; simp_state; rewrite ?El, ?Hc, ?Hln, ?Hlf, ?Efa.
      all: do 3 eexists; repeat split; try reflexivity;
        try (simp_state; congruence).
  - wp_go; try exact H0.
    all: unfold Consistent; simp_state; rewrite ?El; assumption.
Qed.

Lemma updateFrame_refl (s : State num) : updateFrame s s.
Proof.
  unfold updateFrame. repeat split. exists []. split; reflexivity.
Qed.

Ltac frame_close :=
  unfold updateFrame; simp_state; repeat split;
  first [ exists []; split; reflexivity
        | eexists [_]; split; reflexivity
        | eexists [_; _]; split; reflexivity ].

Lemma update_frame (s : State num) : updateFrame s (state_of (update s)).
Proof.
  apply (wp_state_of update (updateFrame s)). unfold update.
  wp_go; frame_close.
Qed.


Lemma wp_of_state_of {A} (c : M num A) (I : State num -> Prop)
    (Q : A -> State num -> Prop) (E : State num -> Prop) s :
  I (state_of (c s)) ->
  (forall a s', I s' -> Q a s') -> (forall s', I s' -> E s') ->
  wp c Q E s.
Proof. unfold wp. destruct (c s); simpl; auto. Qed.

(** Walking through a method that calls [update], given what [update]
    keeps. *)
Ltac inv_walk I update_keeps close :=
  repeat (wp_go;
          try match goal with
              | |- wp update _ _ _ =>
                  eapply (wp_of_state_of update I);
                  [ apply update_keeps | intros ? ? ? | intros ? ? ]
              end);
  try close.

Ltac close_Consistent :=
  solve [ assumption
        | unfold Consistent in *; simp_state; assumption ].

Lemma draw_Consistent (s : State num) :
  Consistent s -> Consistent (state_of (draw s)).
Proof.
  intros H. apply wp_state_of. unfold draw. unfold Consistent in H.
  destruct (layer s) as [l|] eqn:El.
  - destruct H as (cf & ln & lf & Hc & Hln & Hlf & H).
    wp_go; unfold Consistent; simp_state; rewrite ?El, ?Hc, ?Hln, ?Hlf;
      do 3 eexists; repeat split; try reflexivity; exact H.
  - destruct (cameraFeature s) eqn:Ec; destruct (lineFeature s) eqn:Eln;
      destruct (lookAtFeature s) eqn:Elf;
      wp_go; unfold Consistent; simp_state;
      rewrite ?El, ?Ec, ?Eln, ?Elf, ?H;
      do 3 eexists; repeat split; reflexivity.
Qed.

Lemma exec_Consistent (op : Op num) (s : State num) :
  Consistent s -> Consistent (exec op s).
Proof.
  intros H. destruct op; unfold exec.
  - unfold Control_setMap, modify. simpl. close_Consistent.
  - apply draw_Consistent, H.
  - apply wp_state_of. unfold activate.
    inv_walk (@Consistent num) update_Consistent close_Consistent.
  - apply wp_state_of. unfold deactivate.
    inv_walk (@Consistent num) update_Consistent close_Consistent.
  - apply wp_state_of. unfold setGEPlugin.
    inv_walk (@Consistent num) update_Consistent close_Consistent.
  - apply update_Consistent, H.
  - apply wp_state_of. unfold onStart.
    inv_walk (@Consistent num) update_Consistent close_Consistent.
  - apply wp_state_of. unfold onDrag.
    inv_walk (@Consistent num) update_Consistent close_Consistent.
  - apply wp_state_of. unfold viewChanged.
    inv_walk (@Consistent num) update_Consistent close_Consistent.
Qed.

Lemma initialize_Consistent (o : Options num) : Consistent (initialize o).
Proof.
  unfold initialize. apply wp_state_of. unfold setGEPlugin.
  assert (H : Consistent (prototype o)) by reflexivity.
  assert (Ha : active (prototype o) = false) by reflexivity.
  inv_walk (@Consistent num) update_Consistent close_Consistent.
Qed.

Lemma reachable_Consistent (o : Options num) (s : State num) :
  reachable o s -> Consistent s.
Proof.
  induction 1; [apply initialize_Consistent | apply exec_Consistent; assumption].
Qed.


Lemma exec_config (op : Op num) (s : State num) : config (exec op s) = config s.
Proof.
  pose proof (update_frame) as Hu.
  assert (Hk : forall s0 : State num,
             config s0 = config s -> config (state_of (update s0)) = config s).
  { intros s0 H0. destruct (Hu s0) as (Hc & _). congruence. }
  destruct op; unfold exec;
    try (apply (wp_state_of _ (fun s' => config s' = config s)));
    unfold Control_setMap, draw, activate, deactivate, setGEPlugin, onStart,
      onDrag, viewChanged.
  all: try (inv_walk (fun s' : State num => config s' = config s) Hk
              ltac:(solve [reflexivity | assumption | simp_state; assumption])).
Qed.

Lemma reachable_config (o : Options num) (s : State num) :
  reachable o s -> config s = config (prototype o).
Proof.
  induction 1.
  - unfold initialize.
    apply (wp_state_of _ (fun s' => config s' = config (prototype o))).
    assert (Ha : active (prototype o) = false) by reflexivity.
    unfold setGEPlugin. wp_go; reflexivity.
  - rewrite exec_config. assumption.
Qed.

(** C1. After a frame-end update of a control that was drawn, has a map and
    has a plugin, the gimbal-lock flag is [tilt < threshold] for the camera
    tilt of the plugin (threshold 1 unless the option overrides it), and the
    layer holds exactly the camera marker when the flag is up, exactly the
    line, the look-at marker and the camera marker when it is down. *)
Theorem update_flag_and_layer (o : Options num) (s : State num) m ge l :
  reachable o s ->
  map s = Some m -> gePlugin s = Some ge -> layer s = Some l ->
  exists s' l',
    update s = Val tt s' /\
    gimballLock s' =
      num_lt (cam_tilt (copyAsCamera ge (altitudeMode s)))
             (gimballLockThreshold (config s)) /\
    (opt_gimballLockThreshold o = None ->
     gimballLockThreshold (config s) = num_of_Z 1) /\
    layer s' = Some l' /\
    features l' = (if gimballLock s'
                   then [CameraFeature]
                   else [LineFeatureId; LookAtFeature; CameraFeature]).
Proof.
  intros Hr Hm Hg El.
  pose proof (reachable_config Hr) as Hcfg.
  apply reachable_Consistent in Hr. unfold Consistent in Hr. rewrite El in Hr.
  destruct Hr as (cf & ln & lf & Hc & Hln & Hlf & H).
  cut (exists (u : unit) s', update s = Val u s' /\
         (fun _ s' => exists l',
            gimballLock s' =
              num_lt (cam_tilt (copyAsCamera ge (altitudeMode s)))
                     (gimballLockThreshold (config s)) /\
            layer s' = Some l' /\ features l' = shown (gimballLock s')) u s').
  { intros ([] & s' & Hu & l' & H1 & H2 & H3). exists s', l'.
    repeat split; try assumption.
    intros Ho. rewrite Hcfg. simpl. rewrite Ho. reflexivity. }
  apply wp_value. unfold update.
  destruct (featuresAdded s) eqn:Efa.
  - destruct H as (Hg1 & Hg2 & Hfeat).
    destruct (pf_geometry cf) as [cg|] eqn:Ecg; [|congruence].
    destruct (pf_geometry lf) as [lg|] eqn:Elg; [|congruence].
    wp_go; simp_state; rewrite ?El; eexists; repeat split; try reflexivity.
    rewrite Hfeat; f_equal; symmetry; apply xorb_false_eq; assumption.
  - wp_go; simp_state; eexists; repeat split; try reflexivity.
    all: rewrite H; reflexivity.
Qed.


Lemma samePosition_inv (xy : num * num) (f : option (PointFeature num)) :
  samePosition xy f = true ->
  exists pf p, f = Some pf /\ pf_geometry pf = Some p /\
    num_neq (fst xy) (pt_x p) = false /\ num_neq (snd xy) (pt_y p) = false.
Proof.
  unfold samePosition. destruct f as [[[p|] st]|]; try discriminate.
  intros H. apply andb_prop in H. destruct H as [H1 H2].
  apply negb_true_iff in H1, H2. exists {| pf_geometry := Some p; pf_style := st |}, p.
  repeat split; assumption.
Qed.

(** C2. With the features already drawn, a frame-end update for a pose that
    is unchanged (same flag, and camera and look-at map positions equal, by
    JavaScript's comparison, to those of the markers) returns leaving the
    three features with their geometry objects, the layer and the log of
    calls as they were; conversely an update that changes any of these was
    for a changed pose. *)
Theorem update_unchanged_pose (s : State num) m ge :
  map s = Some m -> gePlugin s = Some ge -> featuresAdded s = true ->
  (poseUnchanged s m ge = true ->
   exists s',
     update s = Val tt s' /\
     rendering s' = rendering s /\ calls s' = calls s /\
     gimballLock s' = gimballLock s /\ featuresAdded s' = true) /\
  (rendering (state_of (update s)) <> rendering s \/
   calls (state_of (update s)) <> calls s ->
   poseUnchanged s m ge = false).
Proof.
  intros Hm Hg Efa.
  assert (Hsame : poseUnchanged s m ge = true ->
     exists s',
       update s = Val tt s' /\
       rendering s' = rendering s /\ calls s' = calls s /\
       gimballLock s' = gimballLock s /\ featuresAdded s' = true).
  { intros Hp. unfold poseUnchanged in Hp.
    apply andb_prop in Hp. destruct Hp as [Hp Hl].
    apply andb_prop in Hp. destruct Hp as [Hf Hc].
    apply eqb_prop in Hf.
    apply samePosition_inv in Hc. destruct Hc as (cf & cg & Ec & Ecg & Hcx & Hcy).
    apply samePosition_inv in Hl. destruct Hl as (lf & lg & El & Elg & Hlx & Hly).
    unfold mapPosition in *.
    assert (Hx : xorb (num_lt (cam_tilt (copyAsCamera ge (altitudeMode s)))
                              (gimballLockThreshold (config s)))
                      (gimballLock s) = false).
    { rewrite Hf. apply xorb_nilpotent. }
    cut (exists (u : unit) s', update s = Val u s' /\
           (fun _ s' => rendering s' = rendering s /\ calls s' = calls s /\
              gimballLock s' = gimballLock s /\ featuresAdded s' = true) u s').
    { intros ([] & s' & Hu & H). exists s'. split; assumption. }
    apply wp_value. unfold update.
    wp_go. unfold rendering. simp_state. repeat split; assumption. }
  split; [exact Hsame|].
  intros Hch. destruct (poseUnchanged s m ge) eqn:Hp; [|reflexivity].
  exfalso. destruct (Hsame eq_refl) as (s' & Hu & Hr & Hc & _).
  rewrite Hu in Hch. simpl in Hch. destruct Hch as [H|H]; contradiction.
Qed.

(** What a redrawing update leaves behind: the two markers sit at the map
    positions of the plugin's camera and look-at point, and the rotation of
    the camera marker is the heading when the flag is up, and otherwise the
    bearing between the pixels the map gives for the plugin's own
    coordinates. *)
Lemma update_redraw_run (o : Options num) (s : State num) m ge l :
  reachable o s ->
  map s = Some m -> gePlugin s = Some ge -> layer s = Some l ->
  featuresAdded s = false \/ poseUnchanged s m ge = false ->
  let geCamera := copyAsCamera ge (altitudeMode s) in
  let geLookAt := copyAsLookAt ge (altitudeMode s) in
  exists s' cf lf cg lg,
    update s = Val tt s' /\
    cameraFeature s' = Some cf /\ pf_geometry cf = Some cg /\
    lookAtFeature s' = Some lf /\ pf_geometry lf = Some lg /\
    (pt_x cg, pt_y cg)
    = mapPosition s m (cam_longitude geCamera) (cam_latitude geCamera) /\
    (pt_x lg, pt_y lg)
    = mapPosition s m (la_longitude geLookAt) (la_latitude geLookAt) /\
    rotation (pf_style cf) =
      Some (if gimballLock s'
            then la_heading geLookAt
            else screenBearing
                   (getViewPortPxFromLonLat m
                      {| lon := cam_longitude geCamera;
                         lat := cam_latitude geCamera |})
                   (getViewPortPxFromLonLat m
                      {| lon := la_longitude geLookAt;
                         lat := la_latitude geLookAt |})).
Proof.
  intros Hr Hm Hg El Hch geCamera geLookAt. subst geCamera geLookAt.
  apply reachable_Consistent in Hr. unfold Consistent in Hr. rewrite El in Hr.
  destruct Hr as (cf & ln & lf & Hc & Hln & Hlf & H).
  cut (exists (u : unit) s', update s = Val u s' /\
         (fun _ s' =>
            exists cf lf cg lg,
              cameraFeature s' = Some cf /\ pf_geometry cf = Some cg /\
              lookAtFeature s' = Some lf /\ pf_geometry lf = Some lg /\
              (pt_x cg, pt_y cg)
              = mapPosition s m
                  (cam_longitude (copyAsCamera ge (altitudeMode s)))
                  (cam_latitude (copyAsCamera ge (altitudeMode s))) /\
              (pt_x lg, pt_y lg)
              = mapPosition s m
                  (la_longitude (copyAsLookAt ge (altitudeMode s)))
                  (la_latitude (copyAsLookAt ge (altitudeMode s))) /\
              rotation (pf_style cf) =
                Some (if gimballLock s'
                      then la_heading (copyAsLookAt ge (altitudeMode s))
                      else screenBearing
                             (getViewPortPxFromLonLat m
                                {| lon := cam_longitude (copyAsCamera ge (altitudeMode s));
                                   lat := cam_latitude (copyAsCamera ge (altitudeMode s)) |})
                             (getViewPortPxFromLonLat m
                                {| lon := la_longitude (copyAsLookAt ge (altitudeMode s));
                                   lat := la_latitude (copyAsLookAt ge (altitudeMode s)) |}))) u s').
  { intros ([] & s' & Hu & cf' & lf' & cg & lg & H').
    exists s', cf', lf', cg, lg. split; assumption. }
  apply wp_value. unfold update.
  destruct (featuresAdded s) eqn:Efa.
  - destruct Hch as [Hch|Hch]; [discriminate|].
    destruct H as (Hg1 & Hg2 & Hfeat).
    destruct (pf_geometry cf) as [cg|] eqn:Ecg; [|congruence].
    destruct (pf_geometry lf) as [lg|] eqn:Elg; [|congruence].
    unfold poseUnchanged, samePosition, mapPosition in Hch.
    rewrite Hc, Hlf in Hch. destruct cf as [cfg cfs], lf as [lfg lfs].
    simpl in Ecg, Elg. subst cfg lfg.
    wp_go; unfold mapPosition; simp_state;
      try (do 4 eexists; repeat split; try reflexivity;
           symmetry; apply surjective_pairing).
    exfalso.
    match goal with
    | H : xorb _ _ = false |- _ =>
        rewrite (xorb_false_eq _ _ H), eqb_reflx in Hch
    end.
    repeat match goal with
           | H : num_neq _ _ = false |- _ => rewrite H in Hch; clear H
           end.
    discriminate.
  - wp_go; unfold mapPosition; simp_state;
      do 4 eexists; repeat split; try reflexivity;
      symmetry; apply surjective_pairing.
Qed.

(** C6, amended. A frame-end update that redraws (the features were not
    drawn yet, or the pose changed) sets the rotation of the camera marker:
    to the look-at heading of the plugin when the gimbal-lock flag is up;
    and, when the flag is down and the map shows the plugin's coordinates as
    they are, to the on-screen bearing from the pixel of the camera marker
    to the pixel of the look-at marker,
    [90 + 180 * atan2(dy, dx) / PI]. *)
Theorem update_redraw_sets_rotation (o : Options num) (s : State num) m ge l :
  reachable o s ->
  map s = Some m -> gePlugin s = Some ge -> layer s = Some l ->
  featuresAdded s = false \/ poseUnchanged s m ge = false ->
  let geCamera := copyAsCamera ge (altitudeMode s) in
  let geLookAt := copyAsLookAt ge (altitudeMode s) in
  exists s' cf lf cg lg,
    update s = Val tt s' /\
    cameraFeature s' = Some cf /\ pf_geometry cf = Some cg /\
    lookAtFeature s' = Some lf /\ pf_geometry lf = Some lg /\
    (gimballLock s' = true ->
     rotation (pf_style cf) = Some (la_heading geLookAt)) /\
    (gimballLock s' = false ->
     mapPosition s m (cam_longitude geCamera) (cam_latitude geCamera)
     = (cam_longitude geCamera, cam_latitude geCamera) ->
     mapPosition s m (la_longitude geLookAt) (la_latitude geLookAt)
     = (la_longitude geLookAt, la_latitude geLookAt) ->
     rotation (pf_style cf) =
       Some (screenBearing
               (getViewPortPxFromLonLat m {| lon := pt_x cg; lat := pt_y cg |})
               (getViewPortPxFromLonLat m {| lon := pt_x lg; lat := pt_y lg |}))).
Proof.
  intros Hr Hm Hg El Hch geCamera geLookAt.
  destruct (update_redraw_run Hr Hm Hg El Hch)
    as (s' & cf & lf & cg & lg & Hu & Hc & Hcg & Hlf & Hlg & Pc & Pl & Hrot).
  exists s', cf, lf, cg, lg.
  repeat (split; [assumption|]).
  fold geCamera geLookAt in Pc, Pl, Hrot.
  split.
  - intros Hgl. rewrite Hgl in Hrot. exact Hrot.
  - intros Hgl Ic Il. rewrite Hgl in Hrot.
    rewrite Ic in Pc. rewrite Il in Pl.
    injection Pc as -> ->. injection Pl as -> ->. exact Hrot.
Qed.


(** *** The teleport flag *)

Lemma speedCallsSinceConnect_layer (pre cs : list (Call num)) :
  forallb isLayerCall pre = true ->
  speedCallsSinceConnect (pre ++ cs) = speedCallsSinceConnect cs.
Proof.
  induction pre as [|c pre IH]; simpl; [reflexivity|].
  intros H. apply andb_prop in H. destruct H as [Hc Hp].
  destruct c; try discriminate; apply IH, Hp.
Qed.

Lemma update_SpeedSetOnce (s : State num) :
  SpeedSetOnce s -> SpeedSetOnce (state_of (update s)).
Proof.
  unfold SpeedSetOnce. intros H.
  destruct (update_frame s)
    as (_ & _ & _ & _ & _ & _ & _ & Hf & _ & _ & pre & Hc & Hp).
  rewrite Hf, Hc, speedCallsSinceConnect_layer by exact Hp. exact H.
Qed.

Ltac close_SpeedSetOnce :=
  solve [ assumption
        | unfold SpeedSetOnce in *; simp_state; cbn [speedCallsSinceConnect];
          repeat match goal with
                 | H : gePluginFlyToSpeedSet _ = _ |- _ => rewrite H in *
                 end;
          first [assumption | lia] ].

Lemma exec_SpeedSetOnce (op : Op num) (s : State num) :
  SpeedSetOnce s -> SpeedSetOnce (exec op s).
Proof.
  intros H. destruct (gePluginFlyToSpeedSet s) eqn:Efl;
    destruct op; unfold exec;
    try (apply update_SpeedSetOnce, H);
    apply wp_state_of;
    unfold Control_setMap, draw, activate, deactivate, setGEPlugin, onStart,
      onDrag, viewChanged;
    inv_walk (@SpeedSetOnce num) update_SpeedSetOnce close_SpeedSetOnce.
Qed.

Lemma reachable_SpeedSetOnce (o : Options num) (s : State num) :
  reachable o s -> SpeedSetOnce s.
Proof.
  induction 1; [|apply exec_SpeedSetOnce; assumption].
  unfold initialize. apply wp_state_of.
  assert (H : SpeedSetOnce (prototype o)) by (unfold SpeedSetOnce; simpl; lia).
  assert (Ha : active (prototype o) = false) by reflexivity.
  assert (Hf : gePluginFlyToSpeedSet (prototype o) = false) by reflexivity.
  unfold setGEPlugin.
  inv_walk (@SpeedSetOnce num) update_SpeedSetOnce close_SpeedSetOnce.
Qed.

Lemma update_flagUp (s : State num) : flagUp s -> flagUp (state_of (update s)).
Proof.
  unfold flagUp. intros H.
  destruct (update_frame s) as (_ & _ & _ & _ & _ & _ & _ & Hf & _).
  congruence.
Qed.

Ltac close_flagUp :=
  solve [ assumption | unfold flagUp in *; simp_state; assumption
        | unfold flagUp in *; simp_state; reflexivity ].

Lemma exec_flagUp (op : Op num) (s : State num) :
  flagUp s -> ~ connects op s -> flagUp (exec op s).
Proof.
  intros H Hn. destruct op; unfold exec;
    try (apply update_flagUp, H).
  - exact H.
  - apply wp_state_of. unfold draw. inv_walk (@flagUp num) update_flagUp close_flagUp.
  - apply wp_state_of. unfold activate.
    destruct (active s) eqn:Ea; [inv_walk (@flagUp num) update_flagUp close_flagUp|].
    destruct (gePlugin s) eqn:Eg; [|inv_walk (@flagUp num) update_flagUp close_flagUp].
    exfalso. apply Hn. left. repeat split; congruence.
  - apply wp_state_of. unfold deactivate.
    inv_walk (@flagUp num) update_flagUp close_flagUp.
  - apply wp_state_of. unfold setGEPlugin.
    destruct ge as [g|]; [|inv_walk (@flagUp num) update_flagUp close_flagUp].
    destruct (active s) eqn:Ea; [|inv_walk (@flagUp num) update_flagUp close_flagUp].
    exfalso. apply Hn. right. exists g. split; [reflexivity|assumption].
  - apply wp_state_of. unfold onStart.
    inv_walk (@flagUp num) update_flagUp close_flagUp.
  - apply wp_state_of. unfold onDrag.
    inv_walk (@flagUp num) update_flagUp close_flagUp.
  - apply wp_state_of. unfold viewChanged.
    inv_walk (@flagUp num) update_flagUp close_flagUp.
Qed.


Lemma connects_dec (op : Op num) (s : State num) :
  connects op s \/ ~ connects op s.
Proof.
  unfold connects.
  destruct op; try (right; intros [[H _]|[g [H _]]]; discriminate).
  - destruct (active s) eqn:Ea.
    + right. intros [(_ & H & _)|[g [H _]]]; discriminate.
    + destruct (gePlugin s) eqn:Eg.
      * left. left. repeat split. congruence.
      * right. intros [(_ & _ & H)|[g [H _]]]; [congruence|discriminate].
  - destruct ge as [g|].
    + destruct (active s) eqn:Ea.
      * left. right. exists g. split; reflexivity.
      * right. intros [[H _]|[g' [_ H]]]; discriminate.
    + right. intros [[H _]|[g' [H _]]]; discriminate.
Qed.

(** C7, amended. In every state a control can reach, the plugin's speed
    setter has been called at most once since the frame-end listener was
    last attached; and an operation that brings the flag back down is one
    that attaches the listener: [activate] on an inactive control holding a
    plugin, or [setGEPlugin] with a plugin on an active control. *)
Theorem flag_reset_only_on_connect (o : Options num) (s : State num)
    (op : Op num) :
  reachable o s ->
  speedCallsSinceConnect (calls s) <= 1 /\
  (gePluginFlyToSpeedSet s = true ->
   gePluginFlyToSpeedSet (exec op s) = false ->
   connects op s).
Proof.
  intros Hr. split.
  - apply reachable_SpeedSetOnce in Hr. unfold SpeedSetOnce in Hr.
    destruct (gePluginFlyToSpeedSet s); lia.
  - intros Hup Hdown. destruct (connects_dec op s) as [Hc|Hc]; [exact Hc|].
    pose proof (@exec_flagUp op s Hup Hc) as H. unfold flagUp in H. congruence.
Qed.

(** *** Activation *)

Lemma activate_without_engine_run (s : State num) :
  gePlugin s = None -> activate s = Val false (set_active true s).
Proof.
  intros Hg. unfold activate, Control_activate, bind, gets, modify, ret.
  destruct (active s) eqn:Ea; simp_state; rewrite ?Hg; simp_state.
  - f_equal. destruct s; simpl in *. subst. reflexivity.
  - reflexivity.
Qed.

Lemma activate_active_run (s : State num) :
  active s = true -> activate s = Val false s.
Proof.
  intros Ha. unfold activate, Control_activate, bind, gets, modify, ret.
  rewrite Ha. reflexivity.
Qed.

(** C8. With no plugin set, [activate] returns [false] and changes nothing
    but the [active] property: the layer and the three features, the
    listener and the log of calls on the map, the drag control and the
    plugin are as before. *)
Theorem activate_without_engine (s : State num) :
  gePlugin s = None ->
  exists s',
    activate s = Val false s' /\
    s' = set_active true s /\
    rendering s' = rendering s /\
    frameendCallback s' = frameendCallback s /\
    calls s' = calls s.
Proof.
  intros Hg. exists (set_active true s).
  split; [apply activate_without_engine_run, Hg|repeat split].
Qed.

(** C9. [activate] on an active control and [deactivate] on an inactive one
    return [false] without throwing and leave the state as it is. *)
Theorem repeated_activation_is_guarded (s : State num) :
  (active s = true -> activate s = Val false s) /\
  (active s = false -> deactivate s = Val false s).
Proof.
  split; [apply activate_active_run|].
  intros Ha. unfold deactivate, Control_deactivate, bind, gets, modify, ret.
  rewrite Ha. reflexivity.
Qed.

(** The state in which [setGEPlugin] runs [update] on an active control
    with no listener attached. *)
Lemma setGEPlugin_active_run (s : State num) (ge : GEPlugin num) :
  active s = true -> frameendCallback s = None ->
  setGEPlugin (Some ge) s =
  update (set_gePluginFlyToSpeedSet false
            (set_calls (GE_addEventListener num (Some (ge_id ge)) :: calls s)
               (set_frameendCallback (Some BoundUpdate)
                  (set_altitudeMode (ALTITUDE_RELATIVE_TO_GROUND ge)
                     (set_gePlugin (Some ge) s))))).
Proof.
  intros Ha Hcb.
  unfold setGEPlugin, disconnectGEPlugin, connectGEPlugin, call, bind, gets,
    modify, ret.
  rewrite Hcb. simp_state. rewrite Ha. reflexivity.
Qed.

(** C10. When [activate] fails for want of a plugin on an inactive control,
    [active] is nevertheless set.  A later [setGEPlugin] with a plugin then
    attaches the frame-end listener and runs [update] at once, and a later
    [activate] still returns [false], leaving the state as it is. *)
Theorem failed_activate_leaves_control_active (s : State num)
    (ge : GEPlugin num) :
  gePlugin s = None -> active s = false -> frameendCallback s = None ->
  let s1 := set_active true s in
  let s2 := set_gePluginFlyToSpeedSet false
              (set_calls (GE_addEventListener num (Some (ge_id ge)) :: calls s)
                 (set_frameendCallback (Some BoundUpdate)
                    (set_altitudeMode (ALTITUDE_RELATIVE_TO_GROUND ge)
                       (set_gePlugin (Some ge) s1)))) in
  let s3 := state_of (setGEPlugin (Some ge) s1) in
  activate s = Val false s1 /\
  active s1 = true /\ rendering s1 = rendering s /\ calls s1 = calls s /\
  setGEPlugin (Some ge) s1 = update s2 /\
  frameendCallback s3 = Some BoundUpdate /\
  In (GE_addEventListener num (Some (ge_id ge))) (calls s3) /\
  gePlugin s3 = Some ge /\
  activate s3 = Val false s3.
Proof.
  intros Hg Ha Hcb s1 s2 s3.
  assert (Hrun : setGEPlugin (Some ge) s1 = update s2)
    by (apply setGEPlugin_active_run; [reflexivity|exact Hcb]).
  destruct (update_frame s2)
    as (_ & Hact & _ & Hge & _ & _ & Hfe & _ & _ & _ & pre & Hc & _).
  subst s3. rewrite Hrun.
  repeat split.
  - apply activate_without_engine_run, Hg.
  - rewrite Hfe. reflexivity.
  - rewrite Hc. apply in_or_app. right. left. reflexivity.
  - rewrite Hge. reflexivity.
  - apply activate_active_run. rewrite Hact. reflexivity.
Qed.

(** *** Dragging *)

Lemma onDrag_camera_run (s : State num) (pixel : Pixel num) m l ge anchor :
  map s = Some m -> layer s = Some l -> gePlugin s = Some ge ->
  initialLookAt s = Some anchor -> gimballLock s = false ->
  let newPoint := geographicPoint s m pixel in
  let current := copyAsLookAt ge (altitudeMode s) in
  onDrag CameraFeature pixel s =
  Val tt
    (set_calls
       (GE_setAbstractView (ge_id ge)
          (setRange
             (Some (num_div
                      (num_mul (num_of_Z 1000)
                               (Util_distVincenty newPoint anchor))
                      (Math_sin (num_div (num_mul Math_PI (la_tilt current))
                                         (num_of_Z 180)))))
             (setHeading (num_neg (Spherical_computeHeading newPoint anchor))
                (setLatitude (lat anchor)
                   (setLongitude (lon anchor) current))))
        :: calls s)
       (set_nextOid (S (nextOid s)) s)).
Proof.
  intros Hm Hl Hg Ha Hgl newPoint current.
  unfold onDrag, new_Point, call, deref, bind, gets, modify, ret.
  rewrite Hm, Hl. simp_state. rewrite Hg. simp_state. rewrite Hgl.
  simp_state. rewrite Ha. reflexivity.
Qed.

(** C3. Dragging the camera marker while the gimbal-lock flag is down
    hands the plugin an abstract view that looks at the anchor captured at
    drag start, whose heading is minus the bearing from the new camera
    position to the anchor, whose range is
    [1000 * distVincenty(new, anchor) / sin(PI * tilt / 180)] and whose tilt
    is the plugin's current tilt. *)
Theorem onDrag_camera_pushes_heading_and_range
    (s : State num) (pixel : Pixel num) m l ge anchor :
  map s = Some m -> layer s = Some l -> gePlugin s = Some ge ->
  initialLookAt s = Some anchor -> gimballLock s = false ->
  let newPoint := geographicPoint s m pixel in
  let current := copyAsLookAt ge (altitudeMode s) in
  exists s' view,
    onDrag CameraFeature pixel s = Val tt s' /\
    calls s' = GE_setAbstractView (ge_id ge) view :: calls s /\
    la_longitude view = lon anchor /\
    la_latitude view = lat anchor /\
    la_heading view = num_neg (Spherical_computeHeading newPoint anchor) /\
    la_range view =
      Some (num_div
              (num_mul (num_of_Z 1000) (Util_distVincenty newPoint anchor))
              (Math_sin (num_div (num_mul Math_PI (la_tilt current))
                                 (num_of_Z 180)))) /\
    la_tilt view = la_tilt current.
Proof.
  intros Hm Hl Hg Ha Hgl newPoint current.
  eexists; eexists. split; [apply (@onDrag_camera_run s pixel m l ge anchor Hm Hl Hg Ha Hgl)|].
  repeat split.
Qed.

(** C4. Dragging the look-at marker, or the camera marker while the
    gimbal-lock flag is up, hands the plugin an abstract view that looks at
    the geographic position of the pixel and whose range is the one
    captured at drag start. *)
Theorem onDrag_lookAt_keeps_range
    (s : State num) (feature : FeatureId) (pixel : Pixel num) m l ge :
  map s = Some m -> layer s = Some l -> gePlugin s = Some ge ->
  feature = LookAtFeature \/
  (feature = CameraFeature /\ gimballLock s = true) ->
  let newPoint := geographicPoint s m pixel in
  let current := copyAsLookAt ge (altitudeMode s) in
  exists s' view,
    onDrag feature pixel s = Val tt s' /\
    calls s' = GE_setAbstractView (ge_id ge) view :: calls s /\
    la_longitude view = lon newPoint /\
    la_latitude view = lat newPoint /\
    la_range view = initialRange s /\
    la_heading view = la_heading current /\
    la_tilt view = la_tilt current.
Proof.
  intros Hm Hl Hg Hf newPoint current.
  unfold onDrag, new_Point, call, deref, bind, gets, modify, ret.
  rewrite Hm, Hl. simp_state. rewrite Hg. simp_state.
  destruct Hf as [-> | [-> Hgl]].
  - simp_state. eexists; eexists. split; [reflexivity|]. repeat split.
  - rewrite Hgl. simp_state. eexists; eexists. split; [reflexivity|].
    repeat split.
Qed.

End Invariants.

(** ** Range of a camera drag, over the reals *)

Lemma sin_tilt_pos (tilt : R) :
  (0 < tilt <= 90)%R -> (0 < sin (PI * tilt / 180))%R.
Proof.
  intros [H1 H2]. pose proof PI_RGT_0 as Hpi.
  apply sin_gt_0.
  - apply Rdiv_lt_0_compat; [apply Rmult_lt_0_compat; assumption|lra].
  - apply Rmult_lt_reg_r with (r := 180%R); [lra|].
    unfold Rdiv. rewrite Rmult_assoc, Rinv_l by lra. nra.
Qed.

(** The range in exact arithmetic: over the reals, for a fixed anchor and a
    fixed tilt with [0 < tilt <= 90], the range handed to the plugin by a
    camera drag grows strictly with the distance between the dragged
    position and the anchor. *)
Theorem onDrag_range_monotone (L : OpenLayersLib R) (s : State R)
    (pixel1 pixel2 : Pixel R) m l ge anchor :
  map s = Some m -> layer s = Some l -> gePlugin s = Some ge ->
  initialLookAt s = Some anchor -> gimballLock s = false ->
  (0 < la_tilt (copyAsLookAt ge (altitudeMode s)) <= 90)%R ->
  (Util_distVincenty (geographicPoint s m pixel1) anchor
   < Util_distVincenty (geographicPoint s m pixel2) anchor)%R ->
  exists s1 s2 view1 view2 range1 range2,
    onDrag CameraFeature pixel1 s = Val tt s1 /\
    onDrag CameraFeature pixel2 s = Val tt s2 /\
    pushedView s1 = Some view1 /\ pushedView s2 = Some view2 /\
    la_range view1 = Some range1 /\ la_range view2 = Some range2 /\
    (range1 < range2)%R.
Proof.
  intros Hm Hl Hg Ha Hgl Ht Hd.
  pose proof (@onDrag_camera_run R RNumber L s pixel1 m l ge anchor
                Hm Hl Hg Ha Hgl) as H1.
  pose proof (@onDrag_camera_run R RNumber L s pixel2 m l ge anchor
                Hm Hl Hg Ha Hgl) as H2.
  cbv zeta in H1, H2.
  do 6 eexists.
  split; [exact H1|]. split; [exact H2|].
  split; [reflexivity|]. split; [reflexivity|].
  split; [reflexivity|]. split; [reflexivity|].
  cbn [num_div num_mul num_of_Z Math_sin Math_PI RNumber la_tilt setHeading
       setLatitude setLongitude].
  apply sin_tilt_pos in Ht.
  unfold Rdiv at 1 3.
  apply Rmult_lt_compat_r; [apply Rinv_0_lt_compat; exact Ht|].
  apply Rmult_lt_compat_l; [lra|exact Hd].
Qed.

(** ** Worked examples *)

Lemma reachable_run {num : Type} {N : JSNumber num} {L : OpenLayersLib num}
    (o : Options num) (ops : list (Op num)) (s : State num) :
  reachable o s -> reachable o (run ops s).
Proof.
  revert s. induction ops as [|op ops IH]; intros s H; simpl; [exact H|].
  apply IH. apply reachable_step. exact H.
Qed.

Lemma reachable_started {num : Type} {N : JSNumber num} (ge : GEPlugin num) :
  reachable (L := planar) defaults (started ge).
Proof. apply reachable_run. apply reachable_init. Qed.

Lemma reachable_grabbed : reachable (L := planar) defaults grabbed.
Proof. apply reachable_step. apply reachable_started. Qed.

Lemma reachable_turned : reachable (L := planar) defaults turned.
Proof. apply reachable_step. apply reachable_started. Qed.

Lemma update_flag_and_layer_witness :
  exists s' l',
    update (L := planar) tiltedSession = Val tt s' /\
    gimballLock s' = false /\
    layer s' = Some l' /\
    features l' = [LineFeatureId; LookAtFeature; CameraFeature].
Proof.
  destruct (@update_flag_and_layer Q QNumber planar defaults tiltedSession
              flatMap tilted
              {| layer_visibility := true;
                 layer_displayInLayerSwitcher := false;
                 features := [LineFeatureId; LookAtFeature; CameraFeature] |}
              (reachable_started tilted : reachable (L := planar) defaults tiltedSession) ltac:(vm_compute; reflexivity) ltac:(vm_compute; reflexivity) ltac:(vm_compute; reflexivity))
    as (s' & l' & Hu & Hg & _ & Hl & Hf).
  exists s', l'. rewrite Hg in Hf. repeat split; assumption.
Defined.

Lemma update_unchanged_pose_witness :
  exists s',
    update (L := planar) tiltedSession = Val tt s' /\
    rendering s' = rendering tiltedSession /\
    calls s' = calls tiltedSession.
Proof.
  destruct (@update_unchanged_pose Q QNumber planar tiltedSession
              flatMap tilted ltac:(vm_compute; reflexivity) ltac:(vm_compute; reflexivity) ltac:(vm_compute; reflexivity)) as [H _].
  destruct (H ltac:(vm_compute; reflexivity)) as (s' & Hu & Hr & Hc & _).
  exists s'. repeat split; assumption.
Defined.

Lemma onDrag_camera_pushes_heading_and_range_witness :
  exists s' view,
    onDrag (L := planar) CameraFeature {| px_x := 7%Q; px_y := 46%Q |} grabbed
    = Val tt s' /\
    calls s' = GE_setAbstractView 7 view :: calls grabbed /\
    la_longitude view = 8%Q /\ la_latitude view = 47%Q /\
    la_tilt view = 45%Q.
Proof.
  destruct (@onDrag_camera_pushes_heading_and_range Q QNumber planar grabbed
              {| px_x := 7%Q; px_y := 46%Q |} flatMap
              {| layer_visibility := true;
                 layer_displayInLayerSwitcher := false;
                 features := [LineFeatureId; LookAtFeature; CameraFeature] |}
              tilted {| lon := 8%Q; lat := 47%Q |}
              ltac:(vm_compute; reflexivity) ltac:(vm_compute; reflexivity) ltac:(vm_compute; reflexivity) ltac:(vm_compute; reflexivity) ltac:(vm_compute; reflexivity))
    as (s' & view & Hd & Hc & Hlon & Hlat & _ & _ & Ht).
  exists s', view. repeat split; assumption.
Defined.

Lemma onDrag_lookAt_keeps_range_witness :
  exists s' view,
    onDrag (L := planar) LookAtFeature {| px_x := 9%Q; px_y := 48%Q |} grabbed
    = Val tt s' /\
    la_longitude view = 9%Q /\ la_latitude view = 48%Q /\
    la_range view = initialRange grabbed.
Proof.
  destruct (@onDrag_lookAt_keeps_range Q QNumber planar grabbed LookAtFeature
              {| px_x := 9%Q; px_y := 48%Q |} flatMap
              {| layer_visibility := true;
                 layer_displayInLayerSwitcher := false;
                 features := [LineFeatureId; LookAtFeature; CameraFeature] |}
              tilted ltac:(vm_compute; reflexivity) ltac:(vm_compute; reflexivity) ltac:(vm_compute; reflexivity) ltac:(left; vm_compute; reflexivity))
    as (s' & view & Hd & _ & Hlon & Hlat & Hr & _).
  exists s', view. repeat split; assumption.
Defined.

Lemma onDrag_range_monotone_witness :
  exists s1 s2 view1 view2 range1 range2,
    onDrag (L := planar) CameraFeature {| px_x := 1%R; px_y := 0%R |} draggingR
    = Val tt s1 /\
    onDrag (L := planar) CameraFeature {| px_x := 2%R; px_y := 0%R |} draggingR
    = Val tt s2 /\
    pushedView s1 = Some view1 /\ pushedView s2 = Some view2 /\
    la_range view1 = Some range1 /\ la_range view2 = Some range2 /\
    (range1 < range2)%R.
Proof.
  apply (@onDrag_range_monotone planar draggingR
           {| px_x := 1%R; px_y := 0%R |} {| px_x := 2%R; px_y := 0%R |}
           flatMap
           {| layer_visibility := true;
              layer_displayInLayerSwitcher := false; features := [] |}
           (plugin 7 1%R 0%R 0%R 0%R 45%R 0%R) {| lon := 0%R; lat := 0%R |}
           ltac:(vm_compute; reflexivity) ltac:(vm_compute; reflexivity) ltac:(vm_compute; reflexivity) ltac:(vm_compute; reflexivity) ltac:(vm_compute; reflexivity)).
  - simpl. lra.
  - simpl. lra.
Defined.

(** ** Rounding is monotone

    Multiplying by, and dividing by, a positive finite double are monotone
    for the order of doubles: [binary_round_aux] is put in a normal form on
    codes, two arguments are brought to a common exponent, and the rounded
    results are compared by exponent and then mantissa. *)

Module RoundingFacts.
Import SpecFloat Rounding.
Local Open Scope Z_scope.
Local Unset Implicit Arguments.

Ltac case_eqb :=
  repeat match goal with
         | |- context [?b =? ?c] => destruct (Z.eqb_spec b c)
         | |- context [?b <=? ?c] => destruct (Z.leb_spec b c)
         | |- context [?b <? ?c] => destruct (Z.ltb_spec b c)
         end.

Lemma code_shr_1 (mrs : shr_record) :
  0 <= shr_m mrs ->
  code (shr_1 mrs) = halve (code mrs) /\ 0 <= shr_m (shr_1 mrs).
Proof.
  destruct mrs as [m r s]. unfold code, halve. cbn [shr_m shr_r shr_s].
  intros Hm.
  destruct m as [|p|p]; [| |lia].
  - destruct r, s; cbn; split; reflexivity || lia.
  - destruct p as [p|p|]; cbn [shr_1 shr_m shr_r shr_s orb].
    + split; [|lia].
      destruct r, s; cbn [orb Z.b2z]; case_eqb;
        Z.div_mod_to_equations; lia.
    + split; [|lia].
      destruct r, s; cbn [orb Z.b2z]; case_eqb;
        Z.div_mod_to_equations; lia.
    + split; [|lia]. destruct r, s; reflexivity.
Qed.

Lemma code_inj (a b : shr_record) :
  0 <= shr_m a -> 0 <= shr_m b -> code a = code b -> a = b.
Proof.
  destruct a as [m r s], b as [m' r' s']. unfold code.
  cbn [shr_m shr_r shr_s]. intros Ha Hb H.
  assert (m = m') by (destruct r, s, r', s'; cbn [Z.b2z] in H; lia).
  subst m'. destruct r, s, r', s'; cbn [Z.b2z] in H; try lia; reflexivity.
Qed.

Lemma iter_pos_nat {A} (f : A -> A) (p : positive) (x : A) :
  iter_pos f p x = Nat.iter (Pos.to_nat p) f x.
Proof.
  revert x. induction p as [p IH|p IH|]; intros x; cbn [iter_pos].
  - rewrite !IH. rewrite Pos2Nat.inj_xI, Nat.iter_succ_r.
    replace (2 * Pos.to_nat p)%nat with (Pos.to_nat p + Pos.to_nat p)%nat by lia.
    rewrite Nat.iter_add. reflexivity.
  - rewrite !IH. rewrite Pos2Nat.inj_xO.
    replace (2 * Pos.to_nat p)%nat with (Pos.to_nat p + Pos.to_nat p)%nat by lia.
    rewrite Nat.iter_add. reflexivity.
  - reflexivity.
Qed.

Lemma halve_shrc (n c : Z) :
  0 <= n -> 0 <= c -> halve (shrc n c) = shrc (n + 1) c.
Proof.
  intros Hn Hc. unfold shrc.
  destruct (Z.leb_spec (n + 1) 0) as [H|_]; [lia|].
  destruct (Z.leb_spec n 0) as [H|H].
  - assert (n = 0) by lia. subst n. reflexivity.
  - unfold halve.
    replace (n + 1 + 1) with (Z.succ (n + 1)) by lia.
    rewrite Z.pow_succ_r by lia.
    assert (HP : 0 < 2 ^ (n + 1)) by (apply Z.pow_pos_nonneg; lia).
    set (P := 2 ^ (n + 1)) in *.
    destruct (Z.eqb_spec (c mod P) 0) as [E1|E1];
      destruct (Z.eqb_spec (c mod (2 * P)) 0) as [E2|E2];
      match goal with
      | |- context [if ?b =? 0 then _ else _] =>
          destruct (Z.eqb_spec b 0) as [E3|E3]
      end;
      Z.div_mod_to_equations; nia.
Qed.

Lemma shrc_nonneg (n c : Z) : 0 <= c -> 0 <= shrc n c.
Proof.
  intros Hc. unfold shrc. destruct (Z.leb_spec n 0); [exact Hc|].
  assert (0 < 2 ^ (n + 1)) by (apply Z.pow_pos_nonneg; lia).
  assert (0 <= c / 2 ^ (n + 1)) by (apply Z.div_pos; lia).
  case_eqb; lia.
Qed.

Lemma iter_halve (k : nat) (c : Z) :
  0 <= c -> Nat.iter k halve c = shrc (Z.of_nat k) c.
Proof.
  intros Hc. induction k as [|k IH]; [reflexivity|].
  rewrite Nat.iter_succ, IH, halve_shrc by lia.
  f_equal. lia.
Qed.

Lemma code_iter_shr_1 (k : nat) (mrs : shr_record) :
  0 <= shr_m mrs ->
  code (Nat.iter k shr_1 mrs) = Nat.iter k halve (code mrs) /\
  0 <= shr_m (Nat.iter k shr_1 mrs).
Proof.
  intros Hm. induction k as [|k [IH1 IH2]]; [split; [reflexivity|exact Hm]|].
  rewrite !Nat.iter_succ. destruct (code_shr_1 _ IH2) as [H1 H2].
  rewrite H1, IH1. split; [reflexivity|exact H2].
Qed.

Lemma code_nonneg (mrs : shr_record) : 0 <= shr_m mrs -> 0 <= code mrs.
Proof.
  destruct mrs as [m r s]. unfold code. cbn [shr_m shr_r shr_s].
  destruct r, s; cbn [Z.b2z]; lia.
Qed.

(** [shr] on codes. *)
Lemma code_shr (mrs : shr_record) (e n : Z) :
  0 <= shr_m mrs ->
  code (fst (shr mrs e n)) = shrc n (code mrs) /\
  0 <= shr_m (fst (shr mrs e n)) /\
  snd (shr mrs e n) = e + Z.max n 0.
Proof.
  intros Hm. pose proof (code_nonneg _ Hm) as Hc.
  destruct n as [|p|p]; cbn [shr fst snd].
  - split; [reflexivity|split; [exact Hm|lia]].
  - rewrite iter_pos_nat.
    destruct (code_iter_shr_1 (Pos.to_nat p) _ Hm) as [H1 H2].
    rewrite H1, iter_halve, positive_nat_Z by exact Hc.
    split; [reflexivity|split; [exact H2|lia]].
  - split; [reflexivity|split; [exact Hm|lia]].
Qed.

Lemma shrc_mono (n c1 c2 : Z) :
  0 <= c1 <= c2 -> shrc n c1 <= shrc n c2.
Proof.
  intros H. unfold shrc. destruct (Z.leb_spec n 0); [lia|].
  assert (HP : 0 < 2 ^ (n + 1)) by (apply Z.pow_pos_nonneg; lia).
  set (P := 2 ^ (n + 1)) in *.
  case_eqb; Z.div_mod_to_equations; nia.
Qed.

Lemma shrc_add (a b c : Z) :
  0 <= a -> 0 <= b -> 0 <= c -> shrc a (shrc b c) = shrc (a + b) c.
Proof.
  intros Ha Hb Hc. revert a Ha.
  apply natlike_ind.
  - reflexivity.
  - intros a Ha IH. unfold Z.succ.
    rewrite <- halve_shrc by (try lia; apply shrc_nonneg; lia).
    rewrite IH, halve_shrc by lia. f_equal. lia.
Qed.

Lemma shrc_div4 (n c : Z) :
  0 <= n -> 0 <= c -> shrc n c / 4 = c / 4 / 2 ^ n.
Proof.
  intros Hn Hc. unfold shrc. destruct (Z.leb_spec n 0).
  - assert (n = 0) by lia. subst n. rewrite Z.pow_0_r, Z.div_1_r. reflexivity.
  - rewrite Z.div_div by (try lia; apply Z.pow_pos_nonneg; lia).
    replace (4 * 2 ^ n) with (2 * 2 ^ (n + 1))
      by (rewrite Z.pow_add_r by lia; lia).
    assert (HP : 0 < 2 ^ (n + 1)) by (apply Z.pow_pos_nonneg; lia).
    set (P := 2 ^ (n + 1)) in *.
    case_eqb; Z.div_mod_to_equations; nia.
Qed.

Lemma shrc_shl (k c : Z) : 0 <= k -> 0 <= c -> shrc k (c * 2 ^ k) = c.
Proof.
  intros Hk Hc. unfold shrc. destruct (Z.leb_spec k 0).
  - assert (k = 0) by lia. subst k. rewrite Z.pow_0_r. lia.
  - rewrite Z.pow_add_r by lia. change (2 ^ 1) with 2.
    assert (HP : 0 < 2 ^ k) by (apply Z.pow_pos_nonneg; lia).
    set (P := 2 ^ k) in *.
    case_eqb; Z.div_mod_to_equations; nia.
Qed.

Lemma rnd_correct (mrs : shr_record) :
  0 <= shr_m mrs ->
  round_nearest_even (shr_m mrs) (loc_of_shr_record mrs) = rnd (code mrs).
Proof.
  destruct mrs as [m r s]. unfold code, rnd. cbn [shr_m shr_r shr_s].
  intros Hm.
  destruct r, s; cbn [Z.b2z loc_of_shr_record round_nearest_even].
  - replace ((4 * m + 2 * 1 + 1) mod 4) with 3
      by (Z.div_mod_to_equations; lia).
    replace ((4 * m + 2 * 1 + 1) / 4) with m
      by (Z.div_mod_to_equations; lia). reflexivity.
  - replace ((4 * m + 2 * 1 + 0) mod 4) with 2
      by (Z.div_mod_to_equations; lia).
    replace ((4 * m + 2 * 1 + 0) / 4) with m
      by (Z.div_mod_to_equations; lia). reflexivity.
  - replace ((4 * m + 2 * 0 + 1) mod 4) with 1
      by (Z.div_mod_to_equations; lia).
    replace ((4 * m + 2 * 0 + 1) / 4) with m
      by (Z.div_mod_to_equations; lia). reflexivity.
  - replace ((4 * m + 2 * 0 + 0) mod 4) with 0
      by (Z.div_mod_to_equations; lia).
    replace ((4 * m + 2 * 0 + 0) / 4) with m
      by (Z.div_mod_to_equations; lia). reflexivity.
Qed.

Lemma rnd_bounds (c : Z) : 0 <= c -> c / 4 <= rnd c <= c / 4 + 1.
Proof.
  intros Hc. unfold rnd. cbv zeta.
  destruct (Z.even (c / 4)); case_eqb; lia.
Qed.

Lemma rnd_exact (m : Z) : rnd (4 * m) = m.
Proof.
  unfold rnd. cbv zeta.
  replace (4 * m mod 4) with 0 by (Z.div_mod_to_equations; lia).
  replace (4 * m / 4) with m by (Z.div_mod_to_equations; lia).
  reflexivity.
Qed.

Lemma rnd_mono (c1 c2 : Z) : 0 <= c1 <= c2 -> rnd c1 <= rnd c2.
Proof.
  intros H.
  destruct (Z.eq_dec (c1 / 4) (c2 / 4)) as [E|E].
  - unfold rnd. cbv zeta. rewrite E.
    destruct (Z.even (c2 / 4)); case_eqb; Z.div_mod_to_equations; lia.
  - pose proof (rnd_bounds c1 ltac:(lia)). pose proof (rnd_bounds c2 ltac:(lia)).
    Z.div_mod_to_equations. lia.
Qed.


(** *** Digits *)

Lemma digits2_pos_bounds (p : positive) :
  2 ^ (Z.pos (digits2_pos p) - 1) <= Z.pos p < 2 ^ Z.pos (digits2_pos p).
Proof.
  induction p as [p IH|p IH|]; cbn [digits2_pos].
  - rewrite Pos2Z.inj_succ.
    replace (Z.succ (Z.pos (digits2_pos p)) - 1)
      with (Z.succ (Z.pos (digits2_pos p) - 1)) by lia.
    rewrite !Z.pow_succ_r by lia. lia.
  - rewrite Pos2Z.inj_succ.
    replace (Z.succ (Z.pos (digits2_pos p)) - 1)
      with (Z.succ (Z.pos (digits2_pos p) - 1)) by lia.
    rewrite !Z.pow_succ_r by lia. lia.
  - cbn. lia.
Qed.

Lemma Zdigits2_nonneg (m : Z) : 0 <= m -> 0 <= Zdigits2 m.
Proof. destruct m; cbn; lia. Qed.

Lemma Zdigits2_pos (m : Z) : 0 < m -> 0 < Zdigits2 m.
Proof. destruct m; cbn; lia. Qed.

Lemma Zdigits2_upper (m : Z) : 0 <= m -> m < 2 ^ Zdigits2 m.
Proof.
  destruct m as [|p|p]; cbn [Zdigits2]; intros H; [cbn; lia| |lia].
  apply digits2_pos_bounds.
Qed.

Lemma Zdigits2_lower (m : Z) : 0 < m -> 2 ^ (Zdigits2 m - 1) <= m.
Proof.
  destruct m as [|p|p]; cbn [Zdigits2]; intros H; [lia| |lia].
  apply digits2_pos_bounds.
Qed.

Lemma Zdigits2_unique (m d : Z) :
  0 < m -> 2 ^ (d - 1) <= m < 2 ^ d -> Zdigits2 m = d.
Proof.
  intros Hm [H1 H2].
  pose proof (Zdigits2_upper m ltac:(lia)) as U.
  pose proof (Zdigits2_lower m Hm) as Lo.
  pose proof (Zdigits2_pos m Hm) as P.
  assert (0 < d).
  { destruct (Z.ltb_spec 0 d); [assumption|].
    rewrite Z.pow_neg_r in H1 by lia.
    assert (2 ^ d <= 1); [|lia].
    destruct (Z.eq_dec d 0) as [->|]; [cbn; lia|].
    rewrite Z.pow_neg_r by lia. lia. }
  assert (d - 1 < Zdigits2 m)
    by (apply (Z.pow_lt_mono_r_iff 2); lia).
  assert (Zdigits2 m - 1 < d)
    by (apply (Z.pow_lt_mono_r_iff 2); lia).
  lia.
Qed.

Lemma Zdigits2_mono (m1 m2 : Z) :
  0 <= m1 <= m2 -> Zdigits2 m1 <= Zdigits2 m2.
Proof.
  intros H. destruct (Z.eq_dec m1 0) as [->|N].
  - apply Zdigits2_nonneg. lia.
  - pose proof (Zdigits2_lower m1 ltac:(lia)).
    pose proof (Zdigits2_upper m2 ltac:(lia)).
    pose proof (Zdigits2_nonneg m2 ltac:(lia)).
    assert (Zdigits2 m1 - 1 < Zdigits2 m2)
      by (apply (Z.pow_lt_mono_r_iff 2); lia).
    lia.
Qed.

Lemma Zdigits2_shl (m k : Z) :
  0 < m -> 0 <= k -> Zdigits2 (m * 2 ^ k) = Zdigits2 m + k.
Proof.
  intros Hm Hk.
  pose proof (Zdigits2_lower m Hm). pose proof (Zdigits2_upper m ltac:(lia)).
  pose proof (Zdigits2_pos m Hm).
  assert (0 < 2 ^ k) by (apply Z.pow_pos_nonneg; lia).
  apply Zdigits2_unique; [nia|].
  replace (Zdigits2 m + k - 1) with (Zdigits2 m - 1 + k) by lia.
  rewrite !Z.pow_add_r by lia. nia.
Qed.

(** *** The exponent function *)

Lemma fexp64_eq (x : Z) : fexp64 x = Z.max (x - 53) (-1074).
Proof. reflexivity. Qed.

Lemma fexp64_mono (x y : Z) : x <= y -> fexp64 x <= fexp64 y.
Proof. rewrite !fexp64_eq. lia. Qed.


(** *** [binary_round_aux] in normal form *)

Lemma code_of_div (m : Z) (l : location) : code_of m l / 4 = m.
Proof.
  unfold code_of, code.
  destruct l as [|[]]; cbn [shr_record_of_loc shr_m shr_r shr_s Z.b2z];
    Z.div_mod_to_equations; lia.
Qed.

Lemma binary_round_aux_code (s : bool) (m e : Z) (l : location) :
  0 <= m ->
  binary_round_aux FloatOps.prec FloatOps.emax s m e l
  = round_code s (code_of m l) e.
Proof.
  intros Hm. unfold binary_round_aux, round_code, fin, shr_fexp at 1.
  cbv zeta. rewrite code_of_div.
  change (fexp FloatOps.prec FloatOps.emax) with fexp64.
  set (n := fexp64 (Zdigits2 m + e) - e).
  assert (Hm' : 0 <= shr_m (shr_record_of_loc m l))
    by (destruct l as [|[]]; exact Hm).
  destruct (code_shr (shr_record_of_loc m l) e n Hm') as (H1 & H2 & H3).
  destruct (shr (shr_record_of_loc m l) e n) as [mrs' e'].
  cbn [fst snd] in H1, H2, H3. subst e'.
  rewrite rnd_correct, H1 by exact H2.
  unfold code_of.
  destruct (shr_fexp _ _ _ _ _) as [mrs'' e''].
  unfold pack. destruct (shr_m mrs''); reflexivity.
Qed.

Lemma fin_short (s : bool) (m e : Z) :
  0 <= m < 2 ^ 53 -> -1074 <= e -> fin s m e = pack s m e.
Proof.
  intros Hm He. unfold fin, shr_fexp.
  change (fexp FloatOps.prec FloatOps.emax) with fexp64.
  assert (Hd : Zdigits2 m <= 53).
  { destruct (Z.eq_dec m 0) as [->|]; [cbn; lia|].
    pose proof (Zdigits2_lower m ltac:(lia)).
    assert (Zdigits2 m - 1 < 53) by (apply (Z.pow_lt_mono_r_iff 2); lia).
    lia. }
  rewrite fexp64_eq.
  destruct (Z.max (Zdigits2 m + e - 53) (-1074) - e) as [|p|p] eqn:E;
    try reflexivity.
  lia.
Qed.

Lemma fin_long (s : bool) (e : Z) :
  -1074 <= e -> fin s (2 ^ 53) e = pack s (2 ^ 52) (e + 1).
Proof.
  intros He. unfold fin, shr_fexp.
  change (fexp FloatOps.prec FloatOps.emax) with fexp64.
  rewrite fexp64_eq.
  change (Zdigits2 (2 ^ 53)) with 54.
  replace (Z.max (54 + e - 53) (-1074) - e) with 1 by lia.
  reflexivity.
Qed.

(** The results of rounding, ordered by exponent and then mantissa. *)
Lemma pack_le (m1 e1 m2 e2 : Z) :
  0 <= m1 -> 0 <= m2 ->
  m1 = 0 \/ (0 < m2 /\ (e1 < e2 \/ (e1 = e2 /\ m1 <= m2))) ->
  SFleb (pack false m1 e1) (pack false m2 e2) = true.
Proof.
  intros H1 H2 H. unfold pack.
  destruct m1 as [|p1|p1]; [| |lia]; destruct m2 as [|p2|p2]; try lia.
  - reflexivity.
  - destruct (e2 <=? _); reflexivity.
  - destruct H as [H|[H3 H]]; [lia|].
    destruct (Z.leb_spec e1 (FloatOps.emax - FloatOps.prec)) as [L1|L1];
      destruct (Z.leb_spec e2 (FloatOps.emax - FloatOps.prec)) as [L2|L2];
      try reflexivity.
    + unfold SFleb, SFcompare.
      destruct H as [H|[-> H]].
      * apply Z.compare_lt_iff in H. rewrite H. reflexivity.
      * rewrite Z.compare_refl.
        change (Pos.compare_cont Eq p1 p2) with (Pos.compare p1 p2).
        destruct (Pos.compare_spec p1 p2); try reflexivity. lia.
    + lia.
Qed.


(** Rounding does not depend on the exponent at which its argument is
    written. *)
Lemma round_code_align (s : bool) (cf e k : Z) :
  0 <= k -> 0 <= cf ->
  fexp64 (Zdigits2 (cf / 4) + (e - k))
  = fexp64 (Zdigits2 (shrc k cf / 4) + e) ->
  e <= fexp64 (Zdigits2 (shrc k cf / 4) + e) ->
  round_code s cf (e - k) = round_code s (shrc k cf) e.
Proof.
  intros Hk Hc HT He. unfold round_code. cbv zeta. rewrite HT.
  set (T := fexp64 (Zdigits2 (shrc k cf / 4) + e)) in *.
  rewrite shrc_add by lia.
  replace (T - e + k) with (T - (e - k)) by lia.
  f_equal. lia.
Qed.

(** The rounded mantissa fits in 54 bits, and in 53 unless it is [2^53]. *)
Lemma rnd_shrc_bound (c e : Z) :
  0 <= c ->
  let T := fexp64 (Zdigits2 (c / 4) + e) in
  e <= T ->
  0 <= rnd (shrc (T - e) c) <= 2 ^ 53.
Proof.
  intros Hc T He.
  assert (Hm : 0 <= c / 4) by (apply Z.div_pos; lia).
  pose proof (Zdigits2_upper (c / 4) Hm) as U.
  pose proof (Zdigits2_nonneg (c / 4) Hm) as Dn.
  pose proof (shrc_nonneg (T - e) c Hc) as Sn.
  pose proof (rnd_bounds _ Sn) as B.
  rewrite shrc_div4 in B by lia.
  assert (0 <= c / 4 / 2 ^ (T - e))
    by (apply Z.div_pos; [lia|apply Z.pow_pos_nonneg; lia]).
  assert (c / 4 / 2 ^ (T - e) < 2 ^ 53); [|lia].
  apply Z.div_lt_upper_bound; [apply Z.pow_pos_nonneg; lia|].
  rewrite <- Z.pow_add_r by lia.
  eapply Z.lt_le_trans; [exact U|].
  apply Z.pow_le_mono_r; [lia|].
  subst T. rewrite fexp64_eq in *. lia.
Qed.

Lemma round_code_pack (s : bool) (c e : Z) :
  0 <= c ->
  let T := fexp64 (Zdigits2 (c / 4) + e) in
  let m := rnd (shrc (T - e) c) in
  e <= T ->
  round_code s c e
  = if m <? 2 ^ 53 then pack s m T else pack s (2 ^ 52) (T + 1).
Proof.
  intros Hc T m He.
  pose proof (rnd_shrc_bound c e Hc He) as B. fold T in B. fold m in B.
  unfold round_code. cbv zeta. fold T. fold m.
  replace (e + Z.max (T - e) 0) with T by lia.
  assert (-1074 <= T) by (subst T; rewrite fexp64_eq; lia).
  destruct (Z.ltb_spec m (2 ^ 53)).
  - apply fin_short; lia.
  - replace m with (2 ^ 53) by lia. apply fin_long. lia.
Qed.

(** Rounding is monotone: two codes at the same exponent. *)
Lemma round_code_mono (c1 c2 e : Z) :
  0 <= c1 <= c2 ->
  e <= fexp64 (Zdigits2 (c1 / 4) + e) ->
  SFleb (round_code false c1 e) (round_code false c2 e) = true.
Proof.
  intros Hc He1.
  assert (Hm1 : 0 <= c1 / 4) by (apply Z.div_pos; lia).
  assert (Hm12 : c1 / 4 <= c2 / 4) by (apply Z.div_le_mono; lia).
  pose proof (Zdigits2_mono (c1 / 4) (c2 / 4) ltac:(lia)) as Dm.
  pose proof (fexp64_mono (Zdigits2 (c1 / 4) + e) (Zdigits2 (c2 / 4) + e)
                ltac:(lia)) as Tm.
  assert (He2 : e <= fexp64 (Zdigits2 (c2 / 4) + e)) by lia.
  rewrite !round_code_pack by lia.
  pose proof (rnd_shrc_bound c1 e ltac:(lia) He1) as B1.
  pose proof (rnd_shrc_bound c2 e ltac:(lia) He2) as B2.
  cbv zeta in B1, B2.
  set (T1 := fexp64 (Zdigits2 (c1 / 4) + e)) in *.
  set (T2 := fexp64 (Zdigits2 (c2 / 4) + e)) in *.
  set (m1 := rnd (shrc (T1 - e) c1)) in *.
  set (m2 := rnd (shrc (T2 - e) c2)) in *.
  assert (P52 : 0 < 2 ^ 52 < 2 ^ 53) by (cbn; lia).
  destruct (Z.eq_dec T1 T2) as [ET|NT].
  - assert (m1 <= m2).
    { subst m1 m2. rewrite <- ET. apply rnd_mono.
      split; [apply shrc_nonneg; lia|apply shrc_mono; lia]. }
    rewrite <- ET.
    destruct (Z.ltb_spec m1 (2 ^ 53)); destruct (Z.ltb_spec m2 (2 ^ 53));
      apply pack_le; lia.
  - assert (LT : T1 < T2) by lia.
    assert (Hm2 : 2 ^ 52 <= m2).
    { assert (F1 : T1 = Z.max (Zdigits2 (c1 / 4) + e - 53) (-1074))
        by reflexivity.
      assert (F2 : T2 = Z.max (Zdigits2 (c2 / 4) + e - 53) (-1074))
        by reflexivity.
      set (d2 := Zdigits2 (c2 / 4)) in *.
      assert (Hd2 : 0 < d2).
      { pose proof (Zdigits2_nonneg (c1 / 4) Hm1). lia. }
      assert (Hp2 : 0 < c2 / 4).
      { destruct (Z.eq_dec (c2 / 4) 0) as [E|]; [|lia].
        subst d2. rewrite E in Hd2. cbn in Hd2. lia. }
      pose proof (Zdigits2_lower (c2 / 4) Hp2) as Lo. fold d2 in Lo.
      assert (ET : T2 - e = d2 - 53) by lia.
      pose proof (shrc_nonneg (d2 - 53) c2 ltac:(lia)) as Sn.
      pose proof (rnd_bounds _ Sn) as B.
      rewrite shrc_div4 in B by lia.
      subst m2. rewrite ET.
      assert (2 ^ 52 <= c2 / 4 / 2 ^ (d2 - 53)); [|lia].
      apply Z.div_le_lower_bound; [apply Z.pow_pos_nonneg; lia|].
      rewrite <- Z.pow_add_r by lia.
      replace (d2 - 53 + 52) with (d2 - 1) by lia. exact Lo. }
    destruct (Z.ltb_spec m1 (2 ^ 53)); destruct (Z.ltb_spec m2 (2 ^ 53));
      apply pack_le; lia.
Qed.


(** *** Signs *)

Lemma SFcompare_opp (a b : spec_float) :
  SFcompare (SFopp a) (SFopp b) = SFcompare b a.
Proof.
  destruct a as [sa|sa| |sa ma ea], b as [sb|sb| |sb mb eb];
    cbn [SFopp SFcompare]; try reflexivity;
    try (destruct sa; reflexivity); try (destruct sb; reflexivity);
    try (destruct sa, sb; reflexivity).
  destruct sa, sb; cbn [negb]; try reflexivity.
  - rewrite (Z.compare_antisym eb ea).
    destruct (eb ?= ea); cbn [CompOpp]; try reflexivity.
    f_equal. symmetry. exact (Pos.compare_cont_antisym mb ma Eq).
  - rewrite (Z.compare_antisym eb ea).
    destruct (eb ?= ea); cbn [CompOpp]; try reflexivity.
    f_equal. exact (Pos.compare_cont_antisym ma mb Eq).
Qed.

Lemma SFleb_opp (a b : spec_float) : SFleb (SFopp a) (SFopp b) = SFleb b a.
Proof. unfold SFleb. rewrite SFcompare_opp. reflexivity. Qed.

Lemma pack_opp (s : bool) (m e : Z) :
  pack (negb s) m e = SFopp (pack s m e).
Proof.
  unfold pack. destruct m; try reflexivity.
  destruct (e <=? _); reflexivity.
Qed.

Lemma round_code_opp (s : bool) (c e : Z) :
  round_code (negb s) c e = SFopp (round_code s c e).
Proof.
  unfold round_code, fin. cbv zeta.
  destruct (shr_fexp _ _ _ _ _) as [mrs e']. apply pack_opp.
Qed.


Lemma nonneg_pack (m e : Z) : 0 <= m -> nonneg (pack false m e) = true.
Proof.
  intros H. unfold pack. destruct m; [reflexivity| |lia].
  destruct (e <=? _); reflexivity.
Qed.

Lemma nonneg_round_code (c e : Z) :
  0 <= c -> e <= fexp64 (Zdigits2 (c / 4) + e) ->
  nonneg (round_code false c e) = true.
Proof.
  intros Hc He. rewrite round_code_pack by assumption.
  pose proof (rnd_shrc_bound c e Hc He) as B. cbv zeta in B.
  destruct (_ <? _); apply nonneg_pack; [lia|cbn; lia].
Qed.

(** A function that commutes with the sign, keeps zeros and infinities, and
    is monotone on the positive numbers is monotone. *)
Lemma monotone_by_sign (F : spec_float -> spec_float) :
  (forall s, F (S754_zero s) = S754_zero s) ->
  (forall s, F (S754_infinity s) = S754_infinity s) ->
  (forall m e, F (S754_finite true m e) = SFopp (F (S754_finite false m e))) ->
  (forall m e, bounded64 m e = true ->
               nonneg (F (S754_finite false m e)) = true) ->
  (forall m1 e1 m2 e2,
     bounded64 m1 e1 = true -> bounded64 m2 e2 = true ->
     SFleb (S754_finite false m1 e1) (S754_finite false m2 e2) = true ->
     SFleb (F (S754_finite false m1 e1)) (F (S754_finite false m2 e2))
     = true) ->
  forall x1 x2,
    valid_binary FloatOps.prec FloatOps.emax x1 = true ->
    valid_binary FloatOps.prec FloatOps.emax x2 = true ->
    SFleb x1 x2 = true -> SFleb (F x1) (F x2) = true.
Proof.
  intros H0 Hi Ho Hn Hc x1 x2 V1 V2 L.
  assert (Sh : forall m e, bounded64 m e = true ->
                 exists y, F (S754_finite false m e) = y /\ nonneg y = true)
    by (intros m e B; eexists; split; [reflexivity|apply Hn, B]).
  destruct x1 as [s1|s1| |s1 m1 e1], x2 as [s2|s2| |s2 m2 e2];
    try discriminate L; cbn [valid_binary] in V1, V2;
    rewrite ?H0, ?Hi.
  - reflexivity.
  - destruct s2; [discriminate L|reflexivity].
  - destruct s2; [discriminate L|].
    destruct (Sh _ _ V2) as (y & -> & N).
    destruct y as [s|[]| |[] m e]; try discriminate N; reflexivity.
  - destruct s1; [reflexivity|discriminate L].
  - exact L.
  - destruct s1; [|discriminate L].
    destruct s2; rewrite ?Ho; destruct (Sh _ _ V2) as (y & -> & N);
      destruct y as [s|[]| |[] m e]; try discriminate N; reflexivity.
  - destruct s1; [|discriminate L].
    rewrite Ho. destruct (Sh _ _ V1) as (y & -> & N).
    destruct y as [s|[]| |[] m e]; try discriminate N; reflexivity.
  - destruct s2; [discriminate L|].
    destruct s1; rewrite ?Ho; destruct (Sh _ _ V1) as (y & -> & N);
      destruct y as [s|[]| |[] m e]; try discriminate N; reflexivity.
  - destruct s1, s2.
    + rewrite !Ho, SFleb_opp. apply Hc; try assumption.
      change (S754_finite true m1 e1)
        with (SFopp (S754_finite false m1 e1)) in L.
      change (S754_finite true m2 e2)
        with (SFopp (S754_finite false m2 e2)) in L.
      rewrite SFleb_opp in L. exact L.
    + rewrite Ho. destruct (Sh _ _ V1) as (y1 & -> & N1).
      destruct (Sh _ _ V2) as (y2 & -> & N2).
      destruct y1 as [s|[]| |[] m e]; try discriminate N1;
        destruct y2 as [s'|[]| |[] m' e']; try discriminate N2; reflexivity.
    + discriminate L.
    + apply Hc; assumption.
Qed.

(** *** Valid numbers *)

Lemma bounded64_facts (m : positive) (e : Z) :
  bounded64 m e = true ->
  -1074 <= e <= 971 /\ Zdigits2 (Z.pos m) <= 53 /\
  (Zdigits2 (Z.pos m) = 53 \/ e = -1074).
Proof.
  unfold bounded64, bounded, canonical_mantissa. intros H.
  apply andb_prop in H. destruct H as [H1 H2].
  apply Z.eqb_eq in H1. apply Z.leb_le in H2.
  change (fexp FloatOps.prec FloatOps.emax) with fexp64 in H1.
  rewrite fexp64_eq in H1.
  change (FloatOps.emax - FloatOps.prec) with 971 in H2.
  cbn [Zdigits2]. lia.
Qed.

Lemma finite_le_scaled (m1 m2 : positive) (e1 e2 : Z) :
  bounded64 m1 e1 = true -> bounded64 m2 e2 = true ->
  SFleb (S754_finite false m1 e1) (S754_finite false m2 e2) = true ->
  e1 <= e2 /\ Z.pos m1 <= Z.pos m2 * 2 ^ (e2 - e1) /\
  Zdigits2 (Z.pos m1) + e1 <= Zdigits2 (Z.pos m2) + e2.
Proof.
  intros B1 B2 L.
  apply bounded64_facts in B1. apply bounded64_facts in B2.
  unfold SFleb, SFcompare in L.
  destruct (Z.compare_spec e1 e2) as [E|E|E]; [| |discriminate L].
  - subst e2. rewrite Z.sub_diag, Z.pow_0_r, Z.mul_1_r.
    change (Pos.compare_cont Eq m1 m2) with (Pos.compare m1 m2) in L.
    assert (Z.pos m1 <= Z.pos m2).
    { destruct (Pos.compare_spec m1 m2); try discriminate L; lia. }
    pose proof (Zdigits2_mono (Z.pos m1) (Z.pos m2) ltac:(lia)). lia.
  - assert (D2 : Zdigits2 (Z.pos m2) = 53) by lia.
    pose proof (Zdigits2_lower (Z.pos m2) ltac:(lia)) as Lo.
    pose proof (Zdigits2_upper (Z.pos m1) ltac:(lia)) as Up.
    rewrite D2 in Lo.
    assert (2 ^ Zdigits2 (Z.pos m1) <= 2 ^ 53)
      by (apply Z.pow_le_mono_r; lia).
    assert (2 ^ 1 <= 2 ^ (e2 - e1)) by (apply Z.pow_le_mono_r; lia).
    change (2 ^ 1) with 2 in *. change (2 ^ (53 - 1)) with (2 ^ 52) in Lo.
    assert (2 ^ 53 = 2 * 2 ^ 52) by reflexivity.
    split; [lia|]. split; [nia|lia].
Qed.


(** *** Multiplication by a positive number *)

Lemma SFmul_finite (s : bool) (mc m : positive) (ec e : Z) :
  SFmul FloatOps.prec FloatOps.emax
    (S754_finite false mc ec) (S754_finite s m e)
  = round_code s (4 * (Z.pos mc * Z.pos m)) (ec + e).
Proof.
  cbn [SFmul xorb]. rewrite binary_round_aux_code by lia.
  reflexivity.
Qed.

Lemma mul_shift_nonneg (mc m : positive) (ec e : Z) :
  bounded64 mc ec = true -> bounded64 m e = true ->
  ec + e <= fexp64 (Zdigits2 (Z.pos mc * Z.pos m) + (ec + e)).
Proof.
  intros Bc B. apply bounded64_facts in Bc. apply bounded64_facts in B.
  rewrite fexp64_eq.
  pose proof (Zdigits2_lower (Z.pos mc) ltac:(lia)) as Lc.
  pose proof (Zdigits2_lower (Z.pos m) ltac:(lia)) as Lm.
  pose proof (Zdigits2_pos (Z.pos mc) ltac:(lia)) as Pc.
  pose proof (Zdigits2_pos (Z.pos m) ltac:(lia)) as Pm.
  pose proof (Zdigits2_upper (Z.pos mc * Z.pos m) ltac:(lia)) as Up.
  assert (2 ^ (Zdigits2 (Z.pos mc) - 1 + (Zdigits2 (Z.pos m) - 1))
          <= Z.pos mc * Z.pos m).
  { rewrite Z.pow_add_r by lia.
    assert (0 < 2 ^ (Zdigits2 (Z.pos mc) - 1))
      by (apply Z.pow_pos_nonneg; lia).
    assert (0 < 2 ^ (Zdigits2 (Z.pos m) - 1))
      by (apply Z.pow_pos_nonneg; lia).
    nia. }
  assert (Zdigits2 (Z.pos mc) - 1 + (Zdigits2 (Z.pos m) - 1)
          < Zdigits2 (Z.pos mc * Z.pos m)).
  { apply (Z.pow_lt_mono_r_iff 2); [lia| |lia].
    apply Zdigits2_nonneg. lia. }
  lia.
Qed.

Lemma SFmul_core (mc m1 m2 : positive) (ec e1 e2 : Z) :
  bounded64 mc ec = true ->
  bounded64 m1 e1 = true -> bounded64 m2 e2 = true ->
  SFleb (S754_finite false m1 e1) (S754_finite false m2 e2) = true ->
  SFleb
    (SFmul FloatOps.prec FloatOps.emax
       (S754_finite false mc ec) (S754_finite false m1 e1))
    (SFmul FloatOps.prec FloatOps.emax
       (S754_finite false mc ec) (S754_finite false m2 e2))
  = true.
Proof.
  intros Bc B1 B2 L. rewrite !SFmul_finite.
  destruct (finite_le_scaled _ _ _ _ B1 B2 L) as (He & Hm & _).
  set (k := e2 - e1) in *.
  assert (P : 0 < 2 ^ k) by (apply Z.pow_pos_nonneg; lia).
  pose proof (mul_shift_nonneg _ _ _ _ Bc B1) as S1.
  pose proof (mul_shift_nonneg _ _ _ _ Bc B2) as S2.
  assert (D1 : 4 * (Z.pos mc * Z.pos m1) / 4 = Z.pos mc * Z.pos m1)
    by (Z.div_mod_to_equations; lia).
  assert (D2 : 4 * (Z.pos mc * Z.pos m2) / 4 = Z.pos mc * Z.pos m2)
    by (Z.div_mod_to_equations; lia).
  assert (A : round_code false (4 * (Z.pos mc * Z.pos m2) * 2 ^ k)
                (ec + e2 - k)
              = round_code false (4 * (Z.pos mc * Z.pos m2)) (ec + e2)).
  { rewrite <- (shrc_shl k (4 * (Z.pos mc * Z.pos m2))) at 2 by lia.
    apply round_code_align; [lia|lia| |].
    - rewrite shrc_shl, D2 by lia.
      replace (4 * (Z.pos mc * Z.pos m2) * 2 ^ k / 4)
        with (Z.pos mc * Z.pos m2 * 2 ^ k)
        by (Z.div_mod_to_equations; lia).
      rewrite Zdigits2_shl by lia. f_equal. lia.
    - rewrite shrc_shl, D2 by lia. exact S2. }
  rewrite <- A. replace (ec + e2 - k) with (ec + e1) by lia.
  apply round_code_mono; [nia|].
  rewrite D1. exact S1.
Qed.

Lemma SFmul_mono (mc : positive) (ec : Z) (x1 x2 : spec_float) :
  bounded64 mc ec = true ->
  valid_binary FloatOps.prec FloatOps.emax x1 = true ->
  valid_binary FloatOps.prec FloatOps.emax x2 = true ->
  SFleb x1 x2 = true ->
  SFleb (SFmul FloatOps.prec FloatOps.emax (S754_finite false mc ec) x1)
        (SFmul FloatOps.prec FloatOps.emax (S754_finite false mc ec) x2)
  = true.
Proof.
  intros Bc.
  apply (monotone_by_sign
           (SFmul FloatOps.prec FloatOps.emax (S754_finite false mc ec))).
  - reflexivity.
  - reflexivity.
  - intros m e. rewrite !SFmul_finite. apply (round_code_opp false).
  - intros m e B. rewrite SFmul_finite.
    apply nonneg_round_code; [lia|].
    replace (4 * (Z.pos mc * Z.pos m) / 4) with (Z.pos mc * Z.pos m)
      by (Z.div_mod_to_equations; lia).
    apply mul_shift_nonneg; assumption.
  - intros m1 e1 m2 e2. apply SFmul_core. exact Bc.
Qed.


(** *** Division by a positive number *)

Lemma dcode_nonneg (N D : Z) : 0 <= N -> 0 < D -> 0 <= dcode N D.
Proof.
  intros HN HD. unfold dcode.
  assert (0 <= 2 * N / D) by (apply Z.div_pos; lia).
  case_eqb; lia.
Qed.

Lemma dcode_div4 (N D : Z) : 0 <= N -> 0 < D -> dcode N D / 4 = N / D.
Proof.
  intros HN HD. unfold dcode.
  case_eqb; Z.div_mod_to_equations; nia.
Qed.

Lemma dcode_mono (N1 N2 D : Z) :
  0 <= N1 <= N2 -> 0 < D -> dcode N1 D <= dcode N2 D.
Proof.
  intros HN HD. unfold dcode.
  case_eqb; Z.div_mod_to_equations; nia.
Qed.

Lemma halve_dcode (N D : Z) :
  0 <= N -> 0 < D -> halve (dcode (2 * N) D) = dcode N D.
Proof.
  intros HN HD. unfold halve, dcode.
  case_eqb; Z.div_mod_to_equations; nia.
Qed.

Lemma dcode_shl (k N D : Z) :
  0 <= k -> 0 <= N -> 0 < D -> shrc k (dcode (N * 2 ^ k) D) = dcode N D.
Proof.
  intros Hk HN HD. revert k Hk N HN.
  apply (natlike_ind (fun k => forall N, 0 <= N ->
           shrc k (dcode (N * 2 ^ k) D) = dcode N D)).
  - intros N HN. rewrite Z.pow_0_r, Z.mul_1_r. reflexivity.
  - intros k Hk IH N HN. unfold Z.succ.
    assert (0 < 2 ^ k) by (apply Z.pow_pos_nonneg; lia).
    rewrite <- halve_shrc by (try lia; apply dcode_nonneg; nia).
    rewrite Z.pow_add_r by lia. change (2 ^ 1) with 2.
    replace (N * (2 ^ k * 2)) with (2 * N * 2 ^ k) by lia.
    rewrite IH by lia. apply halve_dcode; lia.
Qed.

Lemma new_location_code (q r D : Z) :
  0 < D -> 0 <= r < D -> 0 <= q ->
  code_of q (new_location D r) = dcode (D * q + r) D.
Proof.
  intros HD Hr Hq.
  assert (E : dcode (D * q + r) D
              = 4 * q + (if r =? 0 then 0
                         else match 2 * r ?= D with
                              | Lt => 1 | Eq => 2 | Gt => 3
                              end)).
  { unfold dcode.
    destruct (Z.eqb_spec r 0) as [->|Nr].
    - replace (2 * (D * q + 0)) with (2 * q * D) by lia.
      rewrite Z.div_mul, Z.mod_mul by lia.
      change (0 =? 0) with true. cbv iota. lia.
    - destruct (Z.compare_spec (2 * r) D); case_eqb;
        Z.div_mod_to_equations; nia. }
  rewrite E. unfold code_of, code, new_location.
  destruct (Z.even D) eqn:Ev.
  - unfold new_location_even.
    destruct (Z.eqb_spec r 0) as [->|Nr];
      [cbn [shr_record_of_loc shr_m shr_r shr_s Z.b2z]; lia|].
    destruct (2 * r ?= D);
      cbn [shr_record_of_loc shr_m shr_r shr_s Z.b2z]; lia.
  - unfold new_location_odd.
    destruct (Z.eqb_spec r 0) as [->|Nr];
      [cbn [shr_record_of_loc shr_m shr_r shr_s Z.b2z]; lia|].
    assert (Od : Z.odd D = true) by (rewrite <- Z.negb_even, Ev; reflexivity).
    apply Z.odd_spec in Od. destruct Od as [h Od].
    destruct (Z.compare_spec (2 * r + 1) D);
      destruct (Z.compare_spec (2 * r) D);
      cbn [shr_record_of_loc shr_m shr_r shr_s Z.b2z]; lia.
Qed.

Lemma SFdiv_finite (s : bool) (mx my : positive) (ex ey : Z) :
  let e' := Z.min (fexp64 (Zdigits2 (Z.pos mx) + ex
                           - (Zdigits2 (Z.pos my) + ey))) (ex - ey) in
  SFdiv FloatOps.prec FloatOps.emax
    (S754_finite s mx ex) (S754_finite false my ey)
  = round_code s (dcode (Z.pos mx * 2 ^ (ex - ey - e')) (Z.pos my)) e'.
Proof.
  intros e'. cbn [SFdiv]. unfold SFdiv_core_binary.
  change (fexp FloatOps.prec FloatOps.emax) with fexp64.
  fold e'. cbv zeta.
  assert (Hs : 0 <= ex - ey - e') by (subst e'; lia).
  set (m' := match ex - ey - e' with
             | 0 => Z.pos mx
             | Z.pos _ => Z.shiftl (Z.pos mx) (ex - ey - e')
             | Z.neg _ => 0
             end).
  assert (Em : m' = Z.pos mx * 2 ^ (ex - ey - e')).
  { subst m'. destruct (ex - ey - e') as [|p|p] eqn:E.
    - rewrite Z.pow_0_r. lia.
    - apply Z.shiftl_mul_pow2. lia.
    - lia. }
  assert (P : 0 < 2 ^ (ex - ey - e')) by (apply Z.pow_pos_nonneg; lia).
  pose proof (Z_div_mod m' (Z.pos my) ltac:(lia)) as DM.
  destruct (Z.div_eucl m' (Z.pos my)) as [q r].
  destruct DM as [DM Hr].
  assert (Hq : 0 <= q) by nia.
  rewrite binary_round_aux_code by exact Hq.
  rewrite new_location_code by lia.
  rewrite <- DM, Em. destruct s; reflexivity.
Qed.

Lemma div_shift_nonneg (mx my : positive) (ex ey : Z) :
  let e' := Z.min (fexp64 (Zdigits2 (Z.pos mx) + ex
                           - (Zdigits2 (Z.pos my) + ey))) (ex - ey) in
  e' <= fexp64 (Zdigits2 (Z.pos mx * 2 ^ (ex - ey - e') / Z.pos my) + e').
Proof.
  intros e'.
  set (dx := Zdigits2 (Z.pos mx)) in *. set (dy := Zdigits2 (Z.pos my)) in *.
  set (s := ex - ey - e').
  assert (Hs : 0 <= s) by (subst s e'; lia).
  assert (P : 0 < 2 ^ s) by (apply Z.pow_pos_nonneg; lia).
  pose proof (Zdigits2_lower (Z.pos mx) ltac:(lia)) as Lx. fold dx in Lx.
  pose proof (Zdigits2_upper (Z.pos my) ltac:(lia)) as Uy. fold dy in Uy.
  pose proof (Zdigits2_pos (Z.pos mx) ltac:(lia)) as Px. fold dx in Px.
  pose proof (Zdigits2_pos (Z.pos my) ltac:(lia)) as Py. fold dy in Py.
  set (q := Z.pos mx * 2 ^ s / Z.pos my).
  assert (Hq : 0 <= q) by (apply Z.div_pos; nia).
  assert (F : e' <= fexp64 (dx + ex - (dy + ey))) by (subst e'; lia).
  assert (Lxs : 2 ^ (dx - 1 + s) <= Z.pos mx * 2 ^ s).
  { rewrite Z.pow_add_r by lia. nia. }
  destruct (Z.eq_dec q 0) as [E|N].
  - rewrite E. cbn [Zdigits2].
    assert (Z.pos mx * 2 ^ s < Z.pos my).
    { subst q. Z.div_mod_to_equations. nia. }
    assert (dx - 1 + s < dy) by (apply (Z.pow_lt_mono_r_iff 2); lia).
    rewrite fexp64_eq in F. rewrite !fexp64_eq. lia.
  - assert (Dq : dx + s - dy <= Zdigits2 q).
    { pose proof (Zdigits2_pos q ltac:(lia)).
      destruct (Z.le_gt_cases (dx + s - dy) 1) as [|G]; [lia|].
      assert (2 ^ (dx - 1 + s - dy) <= q).
      { subst q. apply Z.div_le_lower_bound; [lia|].
        assert (Z.pos my * 2 ^ (dx - 1 + s - dy)
                <= 2 ^ dy * 2 ^ (dx - 1 + s - dy)).
        { apply Z.mul_le_mono_nonneg_r; [|lia].
          apply Z.pow_nonneg. lia. }
        rewrite <- Z.pow_add_r in * by lia.
        replace (dy + (dx - 1 + s - dy)) with (dx - 1 + s) in * by lia.
        lia. }
      pose proof (Zdigits2_upper q Hq).
      assert (dx - 1 + s - dy < Zdigits2 q)
        by (apply (Z.pow_lt_mono_r_iff 2); lia).
      lia. }
    eapply Z.le_trans; [exact F|]. apply fexp64_mono. subst s. lia.
Qed.

Lemma div_align_fexp (N D k e : Z) :
  0 <= N -> 0 < D -> 0 <= k ->
  e <= fexp64 (Zdigits2 (N / D) + e) ->
  fexp64 (Zdigits2 (N * 2 ^ k / D) + (e - k)) = fexp64 (Zdigits2 (N / D) + e).
Proof.
  intros HN HD Hk He.
  assert (P : 0 < 2 ^ k) by (apply Z.pow_pos_nonneg; lia).
  assert (Hq : 0 <= N / D) by (apply Z.div_pos; lia).
  assert (Hqf : 0 <= N * 2 ^ k / D) by (apply Z.div_pos; nia).
  assert (Lo : N / D * 2 ^ k <= N * 2 ^ k / D).
  { apply Z.div_le_lower_bound; [lia|].
    assert (D * (N / D) <= N) by (apply Z.mul_div_le; lia). nia. }
  assert (Up : N * 2 ^ k / D < (N / D + 1) * 2 ^ k).
  { apply Z.div_lt_upper_bound; [lia|].
    assert (N < D * (N / D + 1)).
    { pose proof (Z.mod_pos_bound N D HD).
      pose proof (Z.div_mod N D ltac:(lia)). lia. }
    nia. }
  destruct (Z.eq_dec (N / D) 0) as [E|Nz].
  - rewrite E in *. cbn [Zdigits2] in *.
    assert (Zdigits2 (N * 2 ^ k / D) <= k).
    { destruct (Z.eq_dec (N * 2 ^ k / D) 0) as [->|]; [cbn; lia|].
      pose proof (Zdigits2_lower (N * 2 ^ k / D) ltac:(lia)).
      assert (Zdigits2 (N * 2 ^ k / D) - 1 < k)
        by (apply (Z.pow_lt_mono_r_iff 2); lia).
      lia. }
    pose proof (Zdigits2_nonneg _ Hqf).
    rewrite fexp64_eq in He. rewrite !fexp64_eq. lia.
  - f_equal.
    pose proof (Zdigits2_lower (N / D) ltac:(lia)) as L1.
    pose proof (Zdigits2_upper (N / D) Hq) as U1.
    pose proof (Zdigits2_pos (N / D) ltac:(lia)) as P1.
    assert (Zdigits2 (N * 2 ^ k / D) = Zdigits2 (N / D) + k); [|lia].
    apply Zdigits2_unique; [nia|].
    replace (Zdigits2 (N / D) + k - 1) with (Zdigits2 (N / D) - 1 + k) by lia.
    rewrite !Z.pow_add_r by lia. nia.
Qed.

Lemma SFdiv_core (my m1 m2 : positive) (ey e1 e2 : Z) :
  bounded64 m1 e1 = true -> bounded64 m2 e2 = true ->
  SFleb (S754_finite false m1 e1) (S754_finite false m2 e2) = true ->
  SFleb
    (SFdiv FloatOps.prec FloatOps.emax
       (S754_finite false m1 e1) (S754_finite false my ey))
    (SFdiv FloatOps.prec FloatOps.emax
       (S754_finite false m2 e2) (S754_finite false my ey))
  = true.
Proof.
  intros B1 B2 L. rewrite !SFdiv_finite.
  destruct (finite_le_scaled _ _ _ _ B1 B2 L) as (He & Hm & Hd).
  pose proof (div_shift_nonneg m1 my e1 ey) as S1.
  pose proof (div_shift_nonneg m2 my e2 ey) as S2.
  cbv zeta in *.
  set (dy := Zdigits2 (Z.pos my)) in *.
  set (t1 := Z.min (fexp64 (Zdigits2 (Z.pos m1) + e1 - (dy + ey))) (e1 - ey))
    in *.
  set (t2 := Z.min (fexp64 (Zdigits2 (Z.pos m2) + e2 - (dy + ey))) (e2 - ey))
    in *.
  assert (Ht : t1 <= t2).
  { pose proof (fexp64_mono (Zdigits2 (Z.pos m1) + e1 - (dy + ey))
                  (Zdigits2 (Z.pos m2) + e2 - (dy + ey)) ltac:(lia)).
    subst t1 t2. lia. }
  set (k := t2 - t1).
  assert (Hs1 : 0 <= e1 - ey - t1) by (subst t1; lia).
  assert (Hs2 : 0 <= e2 - ey - t2) by (subst t2; lia).
  set (N1 := Z.pos m1 * 2 ^ (e1 - ey - t1)) in *.
  set (N2 := Z.pos m2 * 2 ^ (e2 - ey - t2)) in *.
  assert (P1 : 0 < 2 ^ (e1 - ey - t1)) by (apply Z.pow_pos_nonneg; lia).
  assert (P2 : 0 < 2 ^ (e2 - ey - t2)) by (apply Z.pow_pos_nonneg; lia).
  assert (Pk : 0 < 2 ^ k) by (apply Z.pow_pos_nonneg; lia).
  assert (HN1 : 0 <= N1) by (subst N1; nia).
  assert (HN2 : 0 <= N2) by (subst N2; nia).
  assert (A : round_code false (dcode (N2 * 2 ^ k) (Z.pos my)) (t2 - k)
              = round_code false (dcode N2 (Z.pos my)) t2).
  { rewrite <- (dcode_shl k N2 (Z.pos my)) by lia.
    apply round_code_align; [lia|apply dcode_nonneg; nia| |].
    - rewrite dcode_shl by lia. rewrite !dcode_div4 by nia.
      apply div_align_fexp; lia.
    - rewrite dcode_shl by lia. rewrite dcode_div4 by lia. exact S2. }
  rewrite <- A. replace (t2 - k) with t1 by lia.
  apply round_code_mono.
  - split; [apply dcode_nonneg; lia|].
    apply dcode_mono; [|lia]. split; [exact HN1|].
    subst N1 N2.
    rewrite <- Z.mul_assoc, <- Z.pow_add_r by lia.
    replace (e2 - ey - t2 + k) with (e2 - e1 + (e1 - ey - t1)) by lia.
    rewrite Z.pow_add_r by lia. nia.
  - rewrite dcode_div4 by lia. exact S1.
Qed.

Lemma SFdiv_mono (my : positive) (ey : Z) (x1 x2 : spec_float) :
  valid_binary FloatOps.prec FloatOps.emax x1 = true ->
  valid_binary FloatOps.prec FloatOps.emax x2 = true ->
  SFleb x1 x2 = true ->
  SFleb (SFdiv FloatOps.prec FloatOps.emax x1 (S754_finite false my ey))
        (SFdiv FloatOps.prec FloatOps.emax x2 (S754_finite false my ey))
  = true.
Proof.
  apply (monotone_by_sign
           (fun x => SFdiv FloatOps.prec FloatOps.emax x
                       (S754_finite false my ey))).
  - intros []; reflexivity.
  - intros []; reflexivity.
  - intros m e. rewrite !SFdiv_finite. apply (round_code_opp false).
  - intros m e B. rewrite SFdiv_finite.
    assert (0 < 2 ^ (e - ey - Z.min (fexp64 (Zdigits2 (Z.pos m) + e
                       - (Zdigits2 (Z.pos my) + ey))) (e - ey)))
      by (apply Z.pow_pos_nonneg; lia).
    apply nonneg_round_code; [apply dcode_nonneg; nia|].
    rewrite dcode_div4 by nia. apply div_shift_nonneg.
  - intros m1 e1 m2 e2. apply SFdiv_core.
Qed.

(** *** Doubles *)

Lemma SFltb_SFleb (a b : spec_float) : SFltb a b = true -> SFleb a b = true.
Proof.
  unfold SFltb, SFleb. destruct (SFcompare a b) as [[]|]; congruence.
Qed.

Lemma float_ltb_leb (a b : PrimFloat.float) :
  PrimFloat.ltb a b = true -> PrimFloat.leb a b = true.
Proof.
  rewrite FloatAxioms.ltb_spec, FloatAxioms.leb_spec. apply SFltb_SFleb.
Qed.

(** A double strictly between zero and infinity is a positive finite
    number. *)
Lemma positive_finite (c : PrimFloat.float) :
  PrimFloat.ltb PrimFloat.zero c = true ->
  PrimFloat.ltb c PrimFloat.infinity = true ->
  exists m e, FloatOps.Prim2SF c = S754_finite false m e.
Proof.
  rewrite !FloatAxioms.ltb_spec.
  change (FloatOps.Prim2SF PrimFloat.zero) with (S754_zero false).
  change (FloatOps.Prim2SF PrimFloat.infinity) with (S754_infinity false).
  destruct (FloatOps.Prim2SF c) as [s|s| |s m e]; cbn; try discriminate.
  - destruct s; discriminate.
  - destruct s; [discriminate|]. intros _ _. exists m, e. reflexivity.
Qed.

Theorem float_mul_mono (c x1 x2 : PrimFloat.float) :
  PrimFloat.ltb PrimFloat.zero c = true ->
  PrimFloat.ltb c PrimFloat.infinity = true ->
  PrimFloat.leb x1 x2 = true ->
  PrimFloat.leb (PrimFloat.mul c x1) (PrimFloat.mul c x2) = true.
Proof.
  intros H0 Hi. destruct (positive_finite c H0 Hi) as (m & e & Hc).
  rewrite !FloatAxioms.leb_spec, !FloatAxioms.mul_spec.
  unfold FloatAxioms.SF64mul. rewrite Hc.
  pose proof (FloatAxioms.Prim2SF_valid c) as V. rewrite Hc in V.
  apply SFmul_mono; [exact V| |]; apply FloatAxioms.Prim2SF_valid.
Qed.

Theorem float_div_mono (c x1 x2 : PrimFloat.float) :
  PrimFloat.ltb PrimFloat.zero c = true ->
  PrimFloat.ltb c PrimFloat.infinity = true ->
  PrimFloat.leb x1 x2 = true ->
  PrimFloat.leb (PrimFloat.div x1 c) (PrimFloat.div x2 c) = true.
Proof.
  intros H0 Hi. destruct (positive_finite c H0 Hi) as (m & e & Hc).
  rewrite !FloatAxioms.leb_spec, !FloatAxioms.div_spec.
  unfold FloatAxioms.SF64div. rewrite Hc.
  apply SFdiv_mono; apply FloatAxioms.Prim2SF_valid.
Qed.

(** The comparison of doubles is irreflexive, NaN included. *)
Lemma SFltb_irrefl (f : spec_float) : SFltb f f = false.
Proof.
  destruct f as [s|s| |s m e]; try reflexivity.
  - destruct s; reflexivity.
  - unfold SFltb, SFcompare.
    rewrite Z.compare_refl, Pos.compare_cont_refl.
    destruct s; reflexivity.
Qed.

Lemma float_ltb_irrefl (x : PrimFloat.float) : PrimFloat.ltb x x = false.
Proof. rewrite FloatAxioms.ltb_spec. apply SFltb_irrefl. Qed.

End RoundingFacts.

(** C5, amended. On doubles, for a fixed anchor and a fixed tilt whose sine
    [Math.sin(PI * tilt / 180)] is a positive finite number, the range handed
    to the plugin by a camera drag does not decrease when the distance
    between the dragged position and the anchor grows. *)
Theorem onDrag_range_monotone_on_doubles
    (fsin : PrimFloat.float -> PrimFloat.float)
    (fatan2 : PrimFloat.float -> PrimFloat.float -> PrimFloat.float)
    (L : OpenLayersLib PrimFloat.float) (s : State PrimFloat.float)
    (pixel1 pixel2 : Pixel PrimFloat.float) m l ge anchor :
  let N := Double.Number fsin fatan2 in
  map s = Some m -> layer s = Some l -> gePlugin s = Some ge ->
  initialLookAt s = Some anchor -> gimballLock s = false ->
  let sine :=
    Math_sin (num_div (num_mul Math_PI
                         (la_tilt (copyAsLookAt ge (altitudeMode s))))
                      (num_of_Z 180)) in
  PrimFloat.ltb PrimFloat.zero sine = true ->
  PrimFloat.ltb sine PrimFloat.infinity = true ->
  PrimFloat.ltb (Util_distVincenty (geographicPoint s m pixel1) anchor)
                (Util_distVincenty (geographicPoint s m pixel2) anchor)
  = true ->
  exists s1 s2 view1 view2 range1 range2,
    onDrag CameraFeature pixel1 s = Val tt s1 /\
    onDrag CameraFeature pixel2 s = Val tt s2 /\
    pushedView s1 = Some view1 /\ pushedView s2 = Some view2 /\
    la_range view1 = Some range1 /\ la_range view2 = Some range2 /\
    PrimFloat.leb range1 range2 = true.
Proof.
  intros N Hm Hl Hg Ha Hgl sine Hs0 Hsi Hd.
  pose proof (@onDrag_camera_run _ N L s pixel1 m l ge anchor
                Hm Hl Hg Ha Hgl) as H1.
  pose proof (@onDrag_camera_run _ N L s pixel2 m l ge anchor
                Hm Hl Hg Ha Hgl) as H2.
  cbv zeta in H1, H2.
  do 6 eexists.
  split; [exact H1|]. split; [exact H2|].
  split; [reflexivity|]. split; [reflexivity|].
  split; [reflexivity|]. split; [reflexivity|].
  apply RoundingFacts.float_div_mono; [exact Hs0|exact Hsi|].
  apply RoundingFacts.float_mul_mono;
    [reflexivity|reflexivity|apply RoundingFacts.float_ltb_leb, Hd].
Qed.

Lemma onDrag_range_monotone_on_doubles_witness :
  let N := Double.Number Double.sin3 Double.ratio in
  let L := equator (N := N) in
  let s := cameraGrabbed (N := N) defaults (Double.of_Z 45) in
  exists s1 s2 view1 view2 range1 range2,
    onDrag (L := L) CameraFeature
      {| px_x := Double.of_Z 1; px_y := PrimFloat.zero |} s = Val tt s1 /\
    onDrag (L := L) CameraFeature
      {| px_x := Double.of_Z 2; px_y := PrimFloat.zero |} s = Val tt s2 /\
    pushedView s1 = Some view1 /\ pushedView s2 = Some view2 /\
    la_range view1 = Some range1 /\ la_range view2 = Some range2 /\
    PrimFloat.leb range1 range2 = true.
Proof.
  intros N L s.
  eapply (@onDrag_range_monotone_on_doubles Double.sin3 Double.ratio L s
            {| px_x := Double.of_Z 1; px_y := PrimFloat.zero |}
            {| px_x := Double.of_Z 2; px_y := PrimFloat.zero |});
    vm_compute; reflexivity.
Defined.

(** C5. Counterexample, on the doubles the code computes with.  In a
    session with the default options and a tilt of 45 degrees, two
    neighbouring distances give the same range, whatever the implementation
    of [Math.sin]: [1000 * d] rounds to the same double for both.  And in a
    session whose threshold is 0 and whose tilt is the smallest positive
    double, [PI * tilt / 180] rounds to zero, so that with
    [Math.sin(0) = 0], as ECMAScript requires, the range is [Infinity] for
    every distance.  In both, the distance grows strictly and the range
    does not. *)
Lemma onDrag_range_not_strict_on_doubles :
  (PrimFloat.ltb Double.below Double.above = true /\
   PrimFloat.ltb PrimFloat.zero (Double.of_Z 45) = true /\
   PrimFloat.leb (Double.of_Z 45) (Double.of_Z 90) = true /\
   forall fsin fatan2,
     let N := Double.Number fsin fatan2 in
     let L := equator (N := N) in
     let s := cameraGrabbed (N := N) defaults (Double.of_Z 45) in
     let anchor := {| lon := PrimFloat.zero; lat := PrimFloat.zero |} in
     let pixel1 := {| px_x := Double.below; px_y := PrimFloat.zero |} in
     let pixel2 := {| px_x := Double.above; px_y := PrimFloat.zero |} in
     reachable (L := L) defaults s /\
     (exists ge, gePlugin s = Some ge /\
        la_tilt (copyAsLookAt ge (altitudeMode s)) = Double.of_Z 45) /\
     initialLookAt s = Some anchor /\ gimballLock s = false /\
     Util_distVincenty (OpenLayersLib := L)
       (geographicPoint (L := L) s flatMap pixel1) anchor = Double.below /\
     Util_distVincenty (OpenLayersLib := L)
       (geographicPoint (L := L) s flatMap pixel2) anchor = Double.above /\
     exists s1 s2 view1 view2 range1 range2,
       onDrag (L := L) CameraFeature pixel1 s = Val tt s1 /\
       onDrag (L := L) CameraFeature pixel2 s = Val tt s2 /\
       pushedView s1 = Some view1 /\ pushedView s2 = Some view2 /\
       la_range view1 = Some range1 /\ la_range view2 = Some range2 /\
       range1 = range2 /\ PrimFloat.ltb range1 range2 = false) /\
  (PrimFloat.ltb PrimFloat.zero Double.tiny = true /\
   PrimFloat.leb Double.tiny (Double.of_Z 90) = true /\
   PrimFloat.ltb (Double.of_Z 1) (Double.of_Z 2) = true /\
   forall fsin fatan2,
     fsin PrimFloat.zero = PrimFloat.zero ->
     let N := Double.Number fsin fatan2 in
     let L := equator (N := N) in
     let s := cameraGrabbed (N := N) noThreshold Double.tiny in
     let anchor := {| lon := PrimFloat.zero; lat := PrimFloat.zero |} in
     let pixel1 := {| px_x := Double.of_Z 1; px_y := PrimFloat.zero |} in
     let pixel2 := {| px_x := Double.of_Z 2; px_y := PrimFloat.zero |} in
     reachable (L := L) noThreshold s /\
     (exists ge, gePlugin s = Some ge /\
        la_tilt (copyAsLookAt ge (altitudeMode s)) = Double.tiny) /\
     initialLookAt s = Some anchor /\ gimballLock s = false /\
     Util_distVincenty (OpenLayersLib := L)
       (geographicPoint (L := L) s flatMap pixel1) anchor = Double.of_Z 1 /\
     Util_distVincenty (OpenLayersLib := L)
       (geographicPoint (L := L) s flatMap pixel2) anchor = Double.of_Z 2 /\
     exists s1 s2 view1 view2 range1 range2,
       onDrag (L := L) CameraFeature pixel1 s = Val tt s1 /\
       onDrag (L := L) CameraFeature pixel2 s = Val tt s2 /\
       pushedView s1 = Some view1 /\ pushedView s2 = Some view2 /\
       la_range view1 = Some range1 /\ la_range view2 = Some range2 /\
       range1 = PrimFloat.infinity /\ range2 = PrimFloat.infinity /\
       PrimFloat.ltb range1 range2 = false).
Proof.
  split.
  - split; [vm_compute; reflexivity|]. split; [vm_compute; reflexivity|].
    split; [vm_compute; reflexivity|].
    intros fsin fatan2 N L s anchor pixel1 pixel2.
    split; [apply reachable_run, reachable_init|].
    assert (Hm : map s = Some flatMap) by (vm_compute; reflexivity).
    assert (Ha : initialLookAt s = Some anchor) by (vm_compute; reflexivity).
    assert (Hgl : gimballLock s = false) by (vm_compute; reflexivity).
    destruct (layer s) as [l|] eqn:Hl; [|vm_compute in Hl; discriminate].
    destruct (gePlugin s) as [ge|] eqn:Hg; [|vm_compute in Hg; discriminate].
    split.
    { exists ge. split; [reflexivity|].
      vm_compute in Hg. injection Hg as <-. reflexivity. }
    split; [exact Ha|]. split; [exact Hgl|].
    split; [vm_compute; reflexivity|]. split; [vm_compute; reflexivity|].
    pose proof (@onDrag_camera_run _ N L s pixel1 flatMap l ge anchor
                  Hm Hl Hg Ha Hgl) as H1.
    pose proof (@onDrag_camera_run _ N L s pixel2 flatMap l ge anchor
                  Hm Hl Hg Ha Hgl) as H2.
    cbv zeta in H1, H2.
    do 6 eexists.
    split; [exact H1|]. split; [exact H2|].
    split; [reflexivity|]. split; [reflexivity|].
    split; [reflexivity|]. split; [reflexivity|].
    assert (E : forall a b : PrimFloat.float,
                a = b -> a = b /\ PrimFloat.ltb a b = false).
    { intros a b <-. split; [reflexivity|apply RoundingFacts.float_ltb_irrefl]. }
    apply E. vm_compute. reflexivity.
  - split; [vm_compute; reflexivity|]. split; [vm_compute; reflexivity|].
    split; [vm_compute; reflexivity|].
    intros fsin fatan2 Hsin N L s anchor pixel1 pixel2.
    split; [apply reachable_run, reachable_init|].
    assert (Hm : map s = Some flatMap) by (vm_compute; reflexivity).
    assert (Ha : initialLookAt s = Some anchor) by (vm_compute; reflexivity).
    assert (Hgl : gimballLock s = false) by (vm_compute; reflexivity).
    destruct (layer s) as [l|] eqn:Hl; [|vm_compute in Hl; discriminate].
    destruct (gePlugin s) as [ge|] eqn:Hg; [|vm_compute in Hg; discriminate].
    assert (Ht : la_tilt (copyAsLookAt ge (altitudeMode s)) = Double.tiny).
    { vm_compute in Hg. injection Hg as <-. reflexivity. }
    split; [exists ge; split; [reflexivity|exact Ht]|].
    split; [exact Ha|]. split; [exact Hgl|].
    split; [vm_compute; reflexivity|]. split; [vm_compute; reflexivity|].
    pose proof (@onDrag_camera_run _ N L s pixel1 flatMap l ge anchor
                  Hm Hl Hg Ha Hgl) as H1.
    pose proof (@onDrag_camera_run _ N L s pixel2 flatMap l ge anchor
                  Hm Hl Hg Ha Hgl) as H2.
    cbv zeta in H1, H2.
    do 6 eexists.
    split; [exact H1|]. split; [exact H2|].
    split; [reflexivity|]. split; [reflexivity|].
    split; [reflexivity|]. split; [reflexivity|].
    vm_compute in Hsin.
    cbn [la_range setRange setHeading setLatitude setLongitude la_tilt].
    rewrite Ht.
    assert (E : forall a b : PrimFloat.float,
                a = PrimFloat.infinity -> b = PrimFloat.infinity ->
                a = PrimFloat.infinity /\ b = PrimFloat.infinity /\
                PrimFloat.ltb a b = false).
    { intros a b -> ->. repeat split. }
    apply E; vm_compute; rewrite Hsin; vm_compute; reflexivity.
Qed.

(** C6. Counterexample: the plugin looks straight down and turns from
    heading 10 to heading 20 without moving; the frame-end update finds the
    flag up and the positions unchanged, and leaves the rotation at 10. *)
Lemma update_keeps_stale_rotation :
  reachable (L := planar) defaults turned /\
  gePlugin turned = Some (overhead 20%Q) /\
  exists s',
    update (L := planar) turned = Val tt s' /\
    gimballLock s' = true /\
    la_heading (copyAsLookAt (overhead 20%Q) (altitudeMode turned)) = 20%Q /\
    cameraRotation s' = Some 10%Q /\
    cameraRotation s'
    <> Some (la_heading (copyAsLookAt (overhead 20%Q) (altitudeMode turned))).
Proof.
  split; [apply reachable_turned|]. split; [reflexivity|].
  eexists. split; [vm_compute; reflexivity|].
  repeat split. vm_compute. discriminate.
Qed.

Lemma update_redraw_sets_rotation_witness :
  let geCamera := copyAsCamera tilted (altitudeMode idleTilted) in
  let geLookAt := copyAsLookAt tilted (altitudeMode idleTilted) in
  exists s' cf lf cg lg,
    update (L := planar) idleTilted = Val tt s' /\
    cameraFeature s' = Some cf /\ pf_geometry cf = Some cg /\
    lookAtFeature s' = Some lf /\ pf_geometry lf = Some lg /\
    (gimballLock s' = true ->
     rotation (pf_style cf) = Some (la_heading geLookAt)) /\
    (gimballLock s' = false ->
     mapPosition (L := planar) idleTilted flatMap
       (cam_longitude geCamera) (cam_latitude geCamera)
     = (cam_longitude geCamera, cam_latitude geCamera) ->
     mapPosition (L := planar) idleTilted flatMap
       (la_longitude geLookAt) (la_latitude geLookAt)
     = (la_longitude geLookAt, la_latitude geLookAt) ->
     rotation (pf_style cf) =
       Some (screenBearing
               (getViewPortPxFromLonLat flatMap
                  {| lon := pt_x cg; lat := pt_y cg |})
               (getViewPortPxFromLonLat flatMap
                  {| lon := pt_x lg; lat := pt_y lg |}))).
Proof.
  exact (@update_redraw_sets_rotation Q QNumber planar defaults
           idleTilted flatMap tilted
           {| layer_visibility := true;
              layer_displayInLayerSwitcher := false; features := [] |}
           (reachable_run _ (reachable_init _)
            : reachable (L := planar) defaults idleTilted)
           ltac:(vm_compute; reflexivity) ltac:(vm_compute; reflexivity)
           ltac:(vm_compute; reflexivity)
           ltac:(left; vm_compute; reflexivity)).
Defined.

(** C7. Counterexample: after a drag has set the flag, deactivating and
    activating again brings it back down, and the next drag calls the speed
    setter of the same plugin a second time. *)
Lemma flag_reset_by_reactivation :
  reachable (L := planar) defaults grabbed /\
  gePluginFlyToSpeedSet grabbed = true /\
  gePluginFlyToSpeedSet
    (run (L := planar) [Op_deactivate; Op_activate] grabbed) = false /\
  speedCalls
    (calls (run (L := planar)
              [Op_deactivate; Op_activate; Op_onStart CameraFeature] grabbed))
  = 2.
Proof.
  split; [apply reachable_grabbed|]. repeat split; vm_compute; reflexivity.
Qed.

Lemma flag_reset_only_on_connect_witness :
  speedCallsSinceConnect (calls grabbed) <= 1 /\
  connects (Op_activate (num := Q))
    (exec (L := planar) Op_deactivate grabbed).
Proof.
  split.
  - apply (@flag_reset_only_on_connect Q QNumber planar defaults grabbed
             Op_draw reachable_grabbed).
  - apply (@flag_reset_only_on_connect Q QNumber planar defaults
             (exec (L := planar) Op_deactivate grabbed) Op_activate
             (reachable_step _ reachable_grabbed));
      reflexivity.
Defined.

Lemma activate_without_engine_witness :
  exists s',
    activate (L := planar) fresh = Val false s' /\
    calls s' = [] /\ layer s' = None.
Proof.
  destruct (@activate_without_engine Q QNumber planar fresh ltac:(vm_compute; reflexivity))
    as (s' & Ha & Hs & _ & _ & Hc).
  exists s'. split; [exact Ha|]. split; [exact Hc|]. rewrite Hs. reflexivity.
Defined.

Lemma repeated_activation_is_guarded_witness :
  activate (L := planar) tiltedSession = Val false tiltedSession /\
  deactivate fresh = Val false fresh.
Proof.
  split.
  - apply (proj1 (@repeated_activation_is_guarded Q QNumber planar
                    tiltedSession)). reflexivity.
  - apply (proj2 (@repeated_activation_is_guarded Q QNumber planar fresh)).
    reflexivity.
Defined.

Lemma failed_activate_leaves_control_active_witness :
  activate (L := planar) unplugged = Val false (set_active true unplugged) /\
  gePlugin (state_of (setGEPlugin (L := planar) (Some tilted)
                        (set_active true unplugged))) = Some tilted.
Proof.
  destruct (@failed_activate_leaves_control_active Q QNumber planar unplugged
              tilted
              ltac:(vm_compute; reflexivity) ltac:(vm_compute; reflexivity) ltac:(vm_compute; reflexivity))
    as (Ha & _ & _ & _ & _ & _ & _ & Hg & _).
  split; assumption.
Defined.

(** * Further properties of the control *)

(** Walking through a method that calls [update], given what [update]
    keeps of an invariant [I]. *)
Ltac walk I update_keeps close :=
  repeat (wp_go;
          try match goal with
              | |- wp update _ _ _ =>
                  eapply (wp_of_state_of update I);
                  [ apply update_keeps | intros ? ? ? | intros ? ? ]
              end);
  try close.

Section Listener.
Context {num : Type} {N : JSNumber num} {L : OpenLayersLib num}.

Lemma attachedTo_layer (pre cs : list (Call num)) :
  forallb isLayerCall pre = true -> attachedTo (pre ++ cs) = attachedTo cs.
Proof.
  induction pre as [|c pre IH]; simpl; [reflexivity|].
  intros H. apply andb_prop in H. destruct H as [Hc Hp].
  destruct c; try discriminate; apply IH, Hp.
Qed.

Lemma wellBracketed_layer (pre cs : list (Call num)) :
  forallb isLayerCall pre = true ->
  wellBracketed (pre ++ cs) = wellBracketed cs.
Proof.
  induction pre as [|c pre IH]; simpl; [reflexivity|].
  intros H. apply andb_prop in H. destruct H as [Hc Hp].
  destruct c; try discriminate; apply IH, Hp.
Qed.

Lemma update_ListenerTracked (s : State num) :
  ListenerTracked s -> ListenerTracked (state_of (update s)).
Proof.
  unfold ListenerTracked.
  destruct (update_frame s)
    as (_ & Ha & _ & Hg & _ & _ & Hf & _ & _ & _ & pre & Hc & Hp).
  rewrite Ha, Hg, Hf, Hc, attachedTo_layer, wellBracketed_layer by exact Hp.
  exact (fun H => H).
Qed.

Lemma target_eqb_refl (t : option nat) : target_eqb t t = true.
Proof. destruct t; simpl; [apply Nat.eqb_refl|reflexivity]. Qed.

Ltac close_LT :=
  solve [ assumption
        | unfold ListenerTracked in *; simp_state;
          cbn [attachedTo wellBracketed option_map ge_id] in *;
          repeat match goal with
                 | H : _ /\ _ |- _ => destruct H
                 | H : frameendCallback _ = _ |- _ => rewrite H in *
                 | H : active _ = _ |- _ => rewrite H in *
                 | H : gePlugin _ = _ |- _ => rewrite H in *
                 | H : attachedTo _ = _ |- _ => rewrite H in *
                 | H : wellBracketed _ = _ |- _ => rewrite H in *
                 end;
          cbn [option_map ge_id andb] in *;
          rewrite ?target_eqb_refl;
          repeat split; try reflexivity; try assumption;
          try (intros; discriminate); try congruence;
          try (intros ?; split; congruence) ].

Lemma exec_ListenerTracked (op : Op num) (s : State num) :
  ListenerTracked s -> ListenerTracked (exec op s).
Proof.
  intros H.
  assert (Hinact : active s = false -> frameendCallback s = None).
  { intros Ha. destruct H as (_ & _ & Hi).
    destruct (frameendCallback s); [|reflexivity].
    destruct Hi as [Hi _]; congruence. }
  destruct (frameendCallback s) eqn:Ecb;
    destruct (active s) eqn:Ea; try (specialize (Hinact eq_refl); discriminate);
    destruct (gePlugin s) eqn:Eg;
    destruct op; unfold exec;
    try (apply update_ListenerTracked, H);
    apply wp_state_of;
    unfold Control_setMap, draw, activate, deactivate, setGEPlugin, onStart,
      onDrag, viewChanged;
    walk (@ListenerTracked num) update_ListenerTracked close_LT.
Qed.

Lemma reachable_ListenerTracked (o : Options num) (s : State num) :
  reachable o s -> ListenerTracked s.
Proof.
  induction 1; [|apply exec_ListenerTracked; assumption].
  unfold initialize. apply wp_state_of.
  assert (H : ListenerTracked (prototype o)).
  { unfold ListenerTracked. simpl. repeat split; congruence. }
  assert (Ha : active (prototype o) = false) by reflexivity.
  assert (Hf : frameendCallback (prototype o) = None) by reflexivity.
  unfold setGEPlugin.
  walk (@ListenerTracked num) update_ListenerTracked close_LT.
Qed.

(** X1. In every state a control can reach, the frame-end listeners were
    attached and removed in turn (never two at once, and each removal from
    the plugin the listener was attached to); a listener is attached
    exactly when [frameendCallback] is set, and then it sits on the plugin
    the control holds and the control is active.  In particular an inactive
    control has no listener on any plugin. *)
Theorem listener_never_leaks (o : Options num) (s : State num) :
  reachable o s ->
  wellBracketed (calls s) = true /\
  attachedTo (calls s) =
    match frameendCallback s with
    | Some _ => Some (option_map (@ge_id num) (gePlugin s))
    | None => None
    end /\
  (frameendCallback s <> None -> active s = true /\ gePlugin s <> None) /\
  (active s = false -> attachedTo (calls s) = None).
Proof.
  intros Hr. apply reachable_ListenerTracked in Hr.
  destruct Hr as (Hw & Ha & Hi). repeat split; try assumption.
  - apply Hi; assumption.
  - apply Hi; assumption.
  - intros Hina. rewrite Ha. destruct (frameendCallback s); [|reflexivity].
    destruct Hi as [Hi _]; congruence.
Qed.

End Listener.

Section Lifecycle.
Context {num : Type} {N : JSNumber num} {L : OpenLayersLib num}.

(** *** deactivate *)

Lemma deactivate_run (s : State num) d m :
  active s = true -> dragFeatureControl s = Some d -> map s = Some m ->
  deactivate s =
  Val true
    (set_calls
       (Map_removeLayer num :: Map_removeControl num
        :: DragFeature_deactivate num
        :: match frameendCallback s with
           | Some _ =>
               [GE_removeEventListener num
                  (option_map (@ge_id num) (gePlugin s))]
           | None => []
           end ++ calls s)
       (set_frameendCallback None (set_active false s))).
Proof.
  intros Ha Hd Hm.
  unfold deactivate, Control_deactivate, disconnectGEPlugin, call, deref, bind,
    gets, modify, ret.
  rewrite Ha. simp_state.
  destruct (frameendCallback s) eqn:Ecb; simp_state; rewrite Hd;
    simp_state; rewrite Hm; simp_state; [reflexivity|].
  f_equal. destruct s; simpl in *. subst. reflexivity.
Qed.

(** X2. Deactivating an active control that was drawn on a map returns
    [true]; it removes the frame-end listener from the plugin if one was
    attached, then deactivates the drag control and removes it and the layer
    from the map, in that order.  The features stay in the layer, with their
    geometries, and [featuresAdded] keeps its value. *)
Theorem deactivate_tears_down (o : Options num) (s : State num) d m :
  reachable o s ->
  active s = true -> dragFeatureControl s = Some d -> map s = Some m ->
  exists s',
    deactivate s = Val true s' /\
    active s' = false /\ frameendCallback s' = None /\
    attachedTo (calls s') = None /\
    calls s' =
      Map_removeLayer num :: Map_removeControl num
      :: DragFeature_deactivate num
      :: match frameendCallback s with
         | Some _ =>
             [GE_removeEventListener num
                (option_map (@ge_id num) (gePlugin s))]
         | None => []
         end ++ calls s /\
    rendering s' = rendering s /\ featuresAdded s' = featuresAdded s.
Proof.
  intros Hr Ha Hd Hm. eexists. split; [eapply deactivate_run; eassumption|].
  apply reachable_ListenerTracked in Hr. destruct Hr as (_ & Hat & _).
  simp_state. repeat split.
  cbn [attachedTo]. destruct (frameendCallback s); [reflexivity|exact Hat].
Qed.

(** X3. Whatever happens next in [deactivate] (it throws when the control
    was never drawn or has no map), an active control comes out of it
    inactive and without listener: the listener is removed before anything
    that can fail. *)
Theorem deactivate_always_detaches (o : Options num) (s : State num) :
  reachable o s -> active s = true ->
  active (state_of (deactivate s)) = false /\
  frameendCallback (state_of (deactivate s)) = None /\
  attachedTo (calls (state_of (deactivate s))) = None.
Proof.
  intros Hr Ha.
  assert (Hr' : reachable o (exec Op_deactivate s))
    by (apply reachable_step; exact Hr).
  apply reachable_ListenerTracked in Hr'. destruct Hr' as (_ & Hat & _).
  unfold exec in Hat.
  assert (H : active (state_of (deactivate s)) = false /\
              frameendCallback (state_of (deactivate s)) = None).
  { apply (wp_state_of deactivate
             (fun s' => active s' = false /\ frameendCallback s' = None)).
    unfold deactivate. wp_go; simp_state; split; reflexivity. }
  destruct H as [H1 H2]. repeat split; try assumption.
  rewrite Hat, H2. reflexivity.
Qed.

(** *** The layer and the line *)

(** X4. In every state a control can reach, the layer holds nothing until
    the features are first drawn, and from then on exactly the camera
    marker when the gimbal-lock flag is up, exactly the line, the look-at
    marker and the camera marker when it is down: no sequence of
    operations leaves a feature twice in the layer. *)
Theorem layer_shows_what_the_flags_say (o : Options num) (s : State num) l :
  reachable o s -> layer s = Some l ->
  features l = (if featuresAdded s
                then (if gimballLock s
                      then [CameraFeature]
                      else [LineFeatureId; LookAtFeature; CameraFeature])
                else []) /\
  NoDup (features l).
Proof.
  intros Hr El. apply reachable_Consistent in Hr. unfold Consistent in Hr.
  rewrite El in Hr. destruct Hr as (cf & ln & lf & _ & _ & _ & H).
  assert (Hf : features l = if featuresAdded s then shown (gimballLock s) else []).
  { destruct (featuresAdded s); [apply H|exact H]. }
  split; [exact Hf|]. rewrite Hf.
  destruct (featuresAdded s); [|constructor].
  destruct (gimballLock s); simpl;
    repeat (constructor; [simpl; intuition discriminate|]); constructor.
Qed.

Lemma update_LineJoinsMarkers (s : State num) :
  LineJoinsMarkers s -> LineJoinsMarkers (state_of (update s)).
Proof.
  intros H. apply wp_state_of. unfold update.
  pose proof H as H0. unfold LineJoinsMarkers in H.
  destruct (featuresAdded s) eqn:Efa.
  - destruct (H eq_refl)
      as (cf & ln & lf & cg & lg & ls & Hc & Hln & Hlf & Hcg & Hlg & Hls & Hco).
    wp_go; try exact H0.
    all: unfold LineJoinsMarkers; simp_state; intros _;
      rewrite ?Hc, ?Hln, ?Hlf; do 6 eexists; repeat split;
      first [eassumption | reflexivity].
  - wp_go; try exact H0.
    all: unfold LineJoinsMarkers; simp_state; try (intros; discriminate);
      try (rewrite Efa; intros; discriminate).
    all: intros _; do 6 eexists; repeat split; reflexivity.
Qed.

Ltac close_LJM :=
  solve [ assumption
        | unfold LineJoinsMarkers in *; simp_state; assumption ].

Lemma draw_LineJoinsMarkers (s : State num) :
  LineJoinsMarkers s -> LineJoinsMarkers (state_of (draw s)).
Proof.
  intros H. apply wp_state_of. unfold draw. unfold LineJoinsMarkers in H.
  destruct (featuresAdded s) eqn:Efa.
  - destruct (H eq_refl)
      as (cf & ln & lf & cg & lg & ls & Hc & Hln & Hlf & Hcg & Hlg & Hls & Hco).
    wp_go; unfold LineJoinsMarkers; simp_state; intros _;
      rewrite ?Hc, ?Hln, ?Hlf; do 6 eexists; repeat split;
      first [eassumption | reflexivity].
  - wp_go; unfold LineJoinsMarkers; simp_state; rewrite Efa; intros;
      discriminate.
Qed.

Lemma exec_LineJoinsMarkers (op : Op num) (s : State num) :
  LineJoinsMarkers s -> LineJoinsMarkers (exec op s).
Proof.
  intros H. destruct op; unfold exec;
    try (apply update_LineJoinsMarkers, H);
    try (apply draw_LineJoinsMarkers, H);
    apply wp_state_of;
    unfold Control_setMap, activate, deactivate, setGEPlugin, onStart,
      onDrag, viewChanged;
    walk (@LineJoinsMarkers num) update_LineJoinsMarkers close_LJM.
Qed.

(** X5. In every state a control can reach, once the features are drawn the
    line is made of the two point objects that the camera marker and the
    look-at marker hold (the same objects, not copies). *)
Theorem line_joins_the_markers (o : Options num) (s : State num) :
  reachable o s -> featuresAdded s = true ->
  exists cf ln lf cg lg ls,
    cameraFeature s = Some cf /\ lineFeature s = Some ln /\
    lookAtFeature s = Some lf /\
    pf_geometry cf = Some cg /\ pf_geometry lf = Some lg /\
    lf_geometry ln = Some ls /\ components ls = [cg; lg].
Proof.
  intros Hr. revert s Hr.
  assert (H : forall s, reachable o s -> LineJoinsMarkers s).
  { induction 1; [|apply exec_LineJoinsMarkers; assumption].
    unfold initialize. apply wp_state_of.
    assert (H : LineJoinsMarkers (prototype o))
      by (unfold LineJoinsMarkers; simpl; discriminate).
    assert (Ha : active (prototype o) = false) by reflexivity.
    unfold setGEPlugin.
    walk (@LineJoinsMarkers num) update_LineJoinsMarkers close_LJM. }
  intros s Hr. exact (H s Hr).
Qed.

(** X6. [update] touches nothing but the three features, the layer, the
    two flags it maintains and the allocator: it never changes [active],
    the map, the plugin handle, the listener, the teleport flag or the drag
    anchor, and of the calls that change a collaborator it makes only
    [removeAllFeatures] and [addFeatures] on the layer.  (It also reads the
    projection of the map, the view of the plugin and the pixels of two
    positions; reads are not part of the log.) *)
Theorem update_only_redraws (s : State num) :
  let s' := state_of (update s) in
  config s' = config s /\ active s' = active s /\ map s' = map s /\
  gePlugin s' = gePlugin s /\ altitudeMode s' = altitudeMode s /\
  dragFeatureControl s' = dragFeatureControl s /\
  frameendCallback s' = frameendCallback s /\
  gePluginFlyToSpeedSet s' = gePluginFlyToSpeedSet s /\
  initialLookAt s' = initialLookAt s /\ initialRange s' = initialRange s /\
  exists pre, calls s' = pre ++ calls s /\ forallb isLayerCall pre = true.
Proof. exact (update_frame s). Qed.

End Lifecycle.

Section Drawing.
Context {num : Type} {N : JSNumber num} {L : OpenLayersLib num}.

(** *** draw *)

(** X7. [draw] never throws and leaves the control with its three
    features, its layer and its drag control; what existed before is kept
    as it was, so drawing a second time changes nothing. *)
Theorem draw_is_idempotent (s : State num) :
  exists s',
    draw s = Val tt s' /\
    draw s' = Val tt s' /\
    cameraFeature s' <> None /\ lineFeature s' <> None /\
    lookAtFeature s' <> None /\ layer s' <> None /\
    dragFeatureControl s' <> None /\
    (cameraFeature s <> None -> cameraFeature s' = cameraFeature s) /\
    (lineFeature s <> None -> lineFeature s' = lineFeature s) /\
    (lookAtFeature s <> None -> lookAtFeature s' = lookAtFeature s) /\
    (layer s <> None -> layer s' = layer s) /\
    (dragFeatureControl s <> None ->
     dragFeatureControl s' = dragFeatureControl s).
Proof.
  unfold draw, bind, gets, modify, ret.
  destruct (cameraFeature s) eqn:Ec; destruct (lineFeature s) eqn:Eln;
    destruct (lookAtFeature s) eqn:Elf; destruct (layer s) eqn:El;
    destruct (dragFeatureControl s) eqn:Ed;
    repeat (simp_state; rewrite ?Ec, ?Eln, ?Elf, ?El, ?Ed);
    (eexists; split; [reflexivity|]);
    repeat (simp_state; rewrite ?Ec, ?Eln, ?Elf, ?El, ?Ed);
    repeat split; try discriminate; try congruence.
Qed.

(** *** update *)

Lemma update_returns (s : State num) m ge l :
  Consistent s -> map s = Some m -> gePlugin s = Some ge -> layer s = Some l ->
  exists s', update s = Val tt s' /\ featuresAdded s' = true.
Proof.
  intros Hr Hm Hg El. unfold Consistent in Hr. rewrite El in Hr.
  destruct Hr as (cf & ln & lf & Hc & Hln & Hlf & H).
  cut (exists (u : unit) s', update s = Val u s' /\
         (fun _ s' => featuresAdded s' = true) u s').
  { intros ([] & s' & Hu & H'). exists s'. split; assumption. }
  apply wp_value. unfold update.
  destruct (featuresAdded s) eqn:Efa.
  - destruct H as (Hg1 & Hg2 & Hfeat).
    destruct (pf_geometry cf) as [cg|] eqn:Ecg; [|congruence].
    destruct (pf_geometry lf) as [lg|] eqn:Elg; [|congruence].
    wp_go; simp_state; first [reflexivity | assumption].
  - wp_go; simp_state; reflexivity.
Qed.

(** X8. In a state a control can reach, the frame-end update returns
    exactly when the control has a map, a plugin and a layer; otherwise it
    throws [TypeError]. *)
Theorem update_returns_iff_ready (o : Options num) (s : State num) :
  reachable o s ->
  ((exists s', update s = Val tt s') <->
   (map s <> None /\ gePlugin s <> None /\ layer s <> None)).
Proof.
  intros Hr. apply reachable_Consistent in Hr. split.
  - intros [s' Hu].
    assert (Hw : wp update (fun _ _ => True) (fun _ => False) s)
      by (unfold wp; rewrite Hu; exact I).
    clear Hu. unfold Consistent in Hr.
    destruct (map s) eqn:Em;
      [|exfalso; revert Hw; unfold update, wp, bind, deref; rewrite Em;
        exact (fun H => H)].
    destruct (gePlugin s) eqn:Eg;
      [|exfalso; revert Hw; unfold update, wp, bind, deref; rewrite Em, Eg;
        exact (fun H => H)].
    destruct (layer s) eqn:El; [repeat split; discriminate|].
    exfalso. revert Hw. apply (fun H => H).
    intros Hw.
    assert (Hno : wp update (fun _ _ => False) (fun _ => True) s).
    { unfold update. wp_go; simp_state; try exact I. }
    unfold wp in Hw, Hno. destruct (update s); assumption.
  - intros (Hm & Hg & Hl).
    destruct (map s) eqn:Em; [|congruence].
    destruct (gePlugin s) eqn:Eg; [|congruence].
    destruct (layer s) eqn:El; [|congruence].
    destruct (update_returns s Hr Em Eg El) as (s' & Hu & _).
    exists s'. exact Hu.
Qed.

Lemma update_unchanged_run (s : State num) m ge :
  map s = Some m -> gePlugin s = Some ge -> featuresAdded s = true ->
  poseUnchanged s m ge = true ->
  exists s',
    update s = Val tt s' /\
    rendering s' = rendering s /\ calls s' = calls s /\
    gimballLock s' = gimballLock s /\ featuresAdded s' = true.
Proof.
  intros Hm Hg Efa Hp. unfold poseUnchanged in Hp.
  apply andb_prop in Hp. destruct Hp as [Hp Hl].
  apply andb_prop in Hp. destruct Hp as [Hf Hc].
  apply eqb_prop in Hf.
  apply samePosition_inv in Hc. destruct Hc as (cf & cg & Ec & Ecg & Hcx & Hcy).
  apply samePosition_inv in Hl. destruct Hl as (lf & lg & El & Elg & Hlx & Hly).
  unfold mapPosition in *.
  assert (Hx : xorb (num_lt (cam_tilt (copyAsCamera ge (altitudeMode s)))
                            (gimballLockThreshold (config s)))
                    (gimballLock s) = false).
  { rewrite Hf. apply xorb_nilpotent. }
  cut (exists (u : unit) s', update s = Val u s' /\
         (fun _ s' => rendering s' = rendering s /\ calls s' = calls s /\
            gimballLock s' = gimballLock s /\ featuresAdded s' = true) u s').
  { intros ([] & s' & Hu & H). exists s'. split; assumption. }
  apply wp_value. unfold update.
  wp_go. unfold rendering. simp_state. repeat split; assumption.
Qed.

End Drawing.

Section Engine.
Context {num : Type} {N : JSNumber num} {L : OpenLayersLib num}.

(** *** setGEPlugin *)

Lemma setGEPlugin_swap_run (s : State num) (p q : GEPlugin num) cb :
  active s = true -> frameendCallback s = Some cb -> gePlugin s = Some p ->
  setGEPlugin (Some q) s =
  update (set_gePluginFlyToSpeedSet false
            (set_calls (GE_addEventListener num (Some (ge_id q))
                        :: GE_removeEventListener num (Some (ge_id p))
                        :: calls s)
               (set_frameendCallback (Some BoundUpdate)
                  (set_altitudeMode (ALTITUDE_RELATIVE_TO_GROUND q)
                     (set_gePlugin (Some q) s))))).
Proof.
  intros Ha Hcb Hg.
  unfold setGEPlugin, disconnectGEPlugin, connectGEPlugin, call, bind, gets,
    modify, ret.
  rewrite Hcb. simp_state. rewrite Hg. simp_state. rewrite Ha. reflexivity.
Qed.

(** X9. Handing a new plugin to an active control whose listener sits on
    the old one removes the listener from the old plugin, attaches it to
    the new one, takes the new plugin's altitude mode, brings the teleport
    flag down and runs [update] at once on the new plugin's view; whether
    that update returns or throws, the control then holds the new plugin
    with the listener attached to it. *)
Theorem setGEPlugin_swaps_listener (s : State num) (p q : GEPlugin num) cb :
  active s = true -> frameendCallback s = Some cb -> gePlugin s = Some p ->
  let s2 := set_gePluginFlyToSpeedSet false
              (set_calls (GE_addEventListener num (Some (ge_id q))
                          :: GE_removeEventListener num (Some (ge_id p))
                          :: calls s)
                 (set_frameendCallback (Some BoundUpdate)
                    (set_altitudeMode (ALTITUDE_RELATIVE_TO_GROUND q)
                       (set_gePlugin (Some q) s)))) in
  let s' := state_of (setGEPlugin (Some q) s) in
  setGEPlugin (Some q) s = update s2 /\
  gePlugin s' = Some q /\
  altitudeMode s' = ALTITUDE_RELATIVE_TO_GROUND q /\
  frameendCallback s' = Some BoundUpdate /\
  gePluginFlyToSpeedSet s' = false /\
  attachedTo (calls s') = Some (Some (ge_id q)).
Proof.
  intros Ha Hcb Hg s2 s'.
  assert (Hrun : setGEPlugin (Some q) s = update s2)
    by (eapply setGEPlugin_swap_run; eassumption).
  subst s'. rewrite Hrun.
  destruct (update_frame s2)
    as (_ & _ & _ & Hge & Ham & _ & Hfe & Hfl & _ & _ & pre & Hc & Hp).
  repeat split.
  - rewrite Hge. reflexivity.
  - rewrite Ham. reflexivity.
  - rewrite Hfe. reflexivity.
  - rewrite Hfl. reflexivity.
  - rewrite Hc, attachedTo_layer by exact Hp. reflexivity.
Qed.

(** *** onDrag *)

(** X10. Dragging a feature that is neither marker (the line, or a feature
    foreign to the control) hands the plugin its own current look-at view
    back, unchanged. *)
Theorem onDrag_other_feature_pushes_current_view
    (s : State num) (feature : FeatureId) (pixel : Pixel num) m l ge :
  map s = Some m -> layer s = Some l -> gePlugin s = Some ge ->
  feature <> CameraFeature -> feature <> LookAtFeature ->
  exists s',
    onDrag feature pixel s = Val tt s' /\
    calls s' =
      GE_setAbstractView (ge_id ge) (copyAsLookAt ge (altitudeMode s))
      :: calls s.
Proof.
  intros Hm Hl Hg Hc Hla.
  unfold onDrag, new_Point, call, deref, bind, gets, modify, ret.
  rewrite Hm, Hl. simp_state. rewrite Hg. simp_state.
  destruct feature; try congruence; simp_state;
    (eexists; split; [reflexivity|reflexivity]).
Qed.

(** X11. Dragging the camera marker with the gimbal-lock flag down before
    any drag start has captured an anchor throws [TypeError], and nothing
    is handed to the plugin. *)
Theorem onDrag_camera_without_anchor_throws
    (s : State num) (pixel : Pixel num) m l ge :
  map s = Some m -> layer s = Some l -> gePlugin s = Some ge ->
  gimballLock s = false -> initialLookAt s = None ->
  exists s',
    onDrag CameraFeature pixel s = Throw TypeError s' /\
    calls s' = calls s /\ rendering s' = rendering s.
Proof.
  intros Hm Hl Hg Hgl Ha.
  unfold onDrag, new_Point, call, deref, bind, gets, modify, ret.
  rewrite Hm, Hl. simp_state. rewrite Hg. simp_state. rewrite Hgl.
  simp_state. rewrite Ha.
  eexists. split; [reflexivity|]. split; reflexivity.
Qed.

(** *** onStart *)

Lemma onStart_run (s : State num) (feature : FeatureId) m ge cf lf cg lg :
  map s = Some m -> gePlugin s = Some ge ->
  cameraFeature s = Some cf -> pf_geometry cf = Some cg ->
  lookAtFeature s = Some lf -> pf_geometry lf = Some lg ->
  let geo := geProjection (config s) in
  let mp := getProjectionObject m in
  let anchor := Projection_transform_xy (pt_x lg, pt_y lg) mp geo in
  let camera := Projection_transform_xy (pt_x cg, pt_y cg) mp geo in
  let range :=
    num_div
      (num_mul (num_of_Z 1000)
         (Util_distVincenty {| lon := fst camera; lat := snd camera |}
                            {| lon := fst anchor; lat := snd anchor |}))
      (Math_sin (num_div (num_mul Math_PI
                            (la_tilt (copyAsLookAt ge (altitudeMode s))))
                         (num_of_Z 180))) in
  exists s',
    onStart feature s = Val tt s' /\
    initialLookAt s' = Some {| lon := fst anchor; lat := snd anchor |} /\
    initialRange s' = Some range /\
    gePluginFlyToSpeedSet s' = true /\
    calls s' = (if gePluginFlyToSpeedSet s then calls s
                else GE_setFlyToSpeed (ge_id ge) (SPEED_TELEPORT ge)
                     :: calls s) /\
    rendering s' = rendering s /\ map s' = map s /\ layer s' = layer s /\
    gePlugin s' = gePlugin s /\ gimballLock s' = gimballLock s /\
    altitudeMode s' = altitudeMode s /\ config s' = config s.
Proof.
  intros Hm Hg Hc Hcg Hlf Hlg geo mp anchor camera range.
  subst geo mp anchor camera range.
  unfold onStart, point_geometry, clone, new_Point, call, deref, deref_opt,
    bind, gets, modify, ret.
  rewrite Hm. simp_state. rewrite Hlf, Hlg. simp_state.
  rewrite Hc, Hcg. simp_state. rewrite Hg. simp_state.
  destruct (gePluginFlyToSpeedSet s) eqn:Efl; simp_state;
    rewrite ?Hg; simp_state;
    (eexists; split; [reflexivity|]); simp_state; rewrite ?Efl;
    repeat split; first [reflexivity | assumption].
Qed.

Arguments onStart_run : clear implicits.

(** X12. A drag start captures as anchor the geographic position of the
    look-at marker and as range
    [1000 * distVincenty(camera, anchor) / sin(PI * tilt / 180)] for the
    geographic position of the camera marker; the markers themselves are
    not touched (the positions are computed on clones), and the plugin's
    speed setter is called exactly when the teleport flag was down. *)
Theorem onStart_captures_anchor (s : State num) (feature : FeatureId)
    m ge cf lf cg lg :
  map s = Some m -> gePlugin s = Some ge ->
  cameraFeature s = Some cf -> pf_geometry cf = Some cg ->
  lookAtFeature s = Some lf -> pf_geometry lf = Some lg ->
  let geo := geProjection (config s) in
  let mp := getProjectionObject m in
  let anchor := Projection_transform_xy (pt_x lg, pt_y lg) mp geo in
  let camera := Projection_transform_xy (pt_x cg, pt_y cg) mp geo in
  exists s',
    onStart feature s = Val tt s' /\
    initialLookAt s' = Some {| lon := fst anchor; lat := snd anchor |} /\
    initialRange s' =
      Some (num_div
              (num_mul (num_of_Z 1000)
                 (Util_distVincenty {| lon := fst camera; lat := snd camera |}
                                    {| lon := fst anchor; lat := snd anchor |}))
              (Math_sin (num_div (num_mul Math_PI
                                    (la_tilt (copyAsLookAt ge (altitudeMode s))))
                                 (num_of_Z 180)))) /\
    gePluginFlyToSpeedSet s' = true /\
    calls s' = (if gePluginFlyToSpeedSet s then calls s
                else GE_setFlyToSpeed (ge_id ge) (SPEED_TELEPORT ge)
                     :: calls s) /\
    rendering s' = rendering s.
Proof.
  intros Hm Hg Hc Hcg Hlf Hlg geo mp anchor camera.
  destruct (onStart_run s feature m ge cf lf cg lg Hm Hg Hc Hcg Hlf Hlg)
    as (s' & H1 & H2 & H3 & H4 & H5 & H6 & _).
  exists s'. repeat split; assumption.
Qed.

(** X13. A drag start followed by a drag of the camera marker onto the
    pixel of its own position (gimbal-lock flag down) hands the plugin the
    captured anchor as look-at point and the captured range as range: a
    drag that does not move the camera does not change the distance. *)
Theorem drag_in_place_keeps_range (s : State num) (pixel : Pixel num)
    m l ge cf lf cg lg :
  map s = Some m -> layer s = Some l -> gePlugin s = Some ge ->
  cameraFeature s = Some cf -> pf_geometry cf = Some cg ->
  lookAtFeature s = Some lf -> pf_geometry lf = Some lg ->
  gimballLock s = false ->
  getLonLatFromViewPortPx m pixel = {| lon := pt_x cg; lat := pt_y cg |} ->
  exists s1 s2 view anchor,
    onStart CameraFeature s = Val tt s1 /\
    onDrag CameraFeature pixel s1 = Val tt s2 /\
    pushedView s2 = Some view /\
    initialLookAt s1 = Some anchor /\
    la_longitude view = lon anchor /\ la_latitude view = lat anchor /\
    la_range view = initialRange s1.
Proof.
  intros Hm Hl Hg Hc Hcg Hlf Hlg Hgl Hpx.
  destruct (onStart_run s CameraFeature m ge cf lf cg lg Hm Hg Hc Hcg Hlf Hlg)
    as (s1 & H1 & H2 & H3 & _ & _ & _ & Hm1 & Hl1 & Hg1 & Hgl1 & Ham1 & Hcfg1).
  rewrite Hm in Hm1. rewrite Hl in Hl1. rewrite Hg in Hg1.
  rewrite Hgl in Hgl1.
  pose proof (@onDrag_camera_run num N L s1 pixel m l ge _
                Hm1 Hl1 Hg1 H2 Hgl1) as Hd.
  cbv zeta in Hd.
  exists s1. eexists. eexists. eexists.
  split; [exact H1|]. split; [exact Hd|].
  split; [reflexivity|]. split; [exact H2|].
  split; [reflexivity|]. split; [reflexivity|].
  rewrite H3. unfold geographicPoint. rewrite Hpx, Ham1, Hcfg1.
  reflexivity.
Qed.

End Engine.

Section Activation.
Context {num : Type} {N : JSNumber num} {L : OpenLayersLib num}.

Lemma activate_run (s : State num) m l d ge :
  active s = false -> gePlugin s = Some ge -> map s = Some m ->
  layer s = Some l -> dragFeatureControl s = Some d ->
  activate s =
  match update (activating s) with
  | Val _ s' => Val true s'
  | Throw e s' => Throw e s'
  end.
Proof.
  intros Ha Hg Hm Hl Hd.
  unfold activate, activating, Control_activate, connectGEPlugin, call, deref,
    bind, gets, modify, ret.
  rewrite Ha. simp_state. rewrite Hg. simp_state. rewrite Hm. simp_state.
  rewrite Hl. simp_state. rewrite Hd. simp_state. rewrite Hg. reflexivity.
Qed.
Arguments activate_run : clear implicits.

Lemma activating_Consistent (s : State num) :
  Consistent s -> Consistent (activating s).
Proof. unfold Consistent, activating. simp_state. exact (fun H => H). Qed.

(** X14. Activating an inactive control that was drawn on a map and holds
    a plugin returns [true]: the layer and the drag control are added to
    the map, the drag control is activated, the frame-end listener is
    attached to the plugin, the teleport flag is brought down, and the
    features are drawn at once.  These calls are made in that order; of
    the calls that change a collaborator, those that follow are
    [removeAllFeatures] and [addFeatures] on the layer only (the reads that
    [update] makes of the map and of the view of the plugin are not part of
    the log). *)
Theorem activate_succeeds (o : Options num) (s : State num) m l d ge :
  reachable o s ->
  active s = false -> gePlugin s = Some ge -> map s = Some m ->
  layer s = Some l -> dragFeatureControl s = Some d ->
  exists s' pre,
    activate s = Val true s' /\
    active s' = true /\ frameendCallback s' = Some BoundUpdate /\
    gePluginFlyToSpeedSet s' = false /\ featuresAdded s' = true /\
    calls s' =
      pre ++ GE_addEventListener num (Some (ge_id ge))
             :: DragFeature_activate num :: Map_addControl num
             :: Map_addLayer num :: calls s /\
    forallb isLayerCall pre = true.
Proof.
  intros Hr Ha Hg Hm Hl Hd.
  apply reachable_Consistent in Hr. apply activating_Consistent in Hr.
  assert (Hm2 : map (activating s) = Some m) by exact Hm.
  assert (Hg2 : gePlugin (activating s) = Some ge) by exact Hg.
  assert (Hl2 : layer (activating s) = Some l) by exact Hl.
  destruct (@update_returns num N L (activating s) m ge l Hr Hm2 Hg2 Hl2)
    as (s' & Hu & Hfa).
  destruct (update_frame (activating s))
    as (_ & Hact & _ & _ & _ & _ & Hfe & Hfl & _ & _ & pre & Hc & Hp).
  rewrite Hu in Hact, Hfe, Hfl, Hc. simpl in Hact, Hfe, Hfl, Hc.
  exists s', pre.
  rewrite (activate_run s m l d ge Ha Hg Hm Hl Hd), Hu.
  repeat split; try assumption.
  rewrite Hc. unfold activating. simp_state. rewrite Hg. reflexivity.
Qed.

(** X15. [activate] returns [true] only from an inactive control that
    holds a plugin, a map, a layer and a drag control, and it then leaves
    the control active with the listener attached. *)
Theorem activate_true_only_if (s s' : State num) :
  activate s = Val true s' ->
  active s = false /\ gePlugin s <> None /\ map s <> None /\
  layer s <> None /\ dragFeatureControl s <> None /\
  active s' = true /\ frameendCallback s' = Some BoundUpdate.
Proof.
  intros H.
  destruct (active s) eqn:Ea.
  { rewrite (activate_active_run s Ea) in H. discriminate. }
  destruct (gePlugin s) as [ge|] eqn:Eg.
  2:{ rewrite (activate_without_engine_run s Eg) in H. discriminate. }
  destruct (map s) as [m|] eqn:Em.
  2:{ exfalso. revert H.
      unfold activate, Control_activate, deref, bind, gets, modify, ret.
      rewrite Ea. simp_state. rewrite Eg. simp_state. rewrite Em.
      discriminate. }
  destruct (layer s) as [l|] eqn:El.
  2:{ exfalso. revert H.
      unfold activate, Control_activate, deref, bind, gets, modify, ret.
      rewrite Ea. simp_state. rewrite Eg. simp_state. rewrite Em.
      simp_state. rewrite El. discriminate. }
  destruct (dragFeatureControl s) as [d|] eqn:Ed.
  2:{ exfalso. revert H.
      unfold activate, Control_activate, call, deref, bind, gets, modify, ret.
      rewrite Ea. simp_state. rewrite Eg. simp_state. rewrite Em.
      simp_state. rewrite El. simp_state. rewrite Ed. discriminate. }
  rewrite (activate_run s m l d ge Ea Eg Em El Ed) in H.
  destruct (update_frame (activating s))
    as (_ & Hact & _ & _ & _ & _ & Hfe & _).
  destruct (update (activating s)) as [u s2|e s2]; [|discriminate].
  injection H as <-. simpl in Hact, Hfe.
  repeat split; try discriminate; assumption.
Qed.

(** X16. Deactivating and activating again an active control whose
    features are drawn, while the pose of the plugin is unchanged, brings
    the listener back and leaves the features, their geometry objects and
    the layer as they were: nothing is removed from or added to the layer,
    because the layer kept its features while the control was inactive. *)
Theorem reactivation_keeps_rendering (o : Options num) (s : State num)
    m l d ge :
  reachable o s ->
  active s = true -> gePlugin s = Some ge -> map s = Some m ->
  layer s = Some l -> dragFeatureControl s = Some d ->
  featuresAdded s = true -> poseUnchanged s m ge = true ->
  exists s1 s2,
    deactivate s = Val true s1 /\
    activate s1 = Val true s2 /\
    rendering s2 = rendering s /\ gimballLock s2 = gimballLock s /\
    frameendCallback s2 = Some BoundUpdate /\
    calls s2 =
      GE_addEventListener num (Some (ge_id ge))
      :: DragFeature_activate num :: Map_addControl num
      :: Map_addLayer num :: calls s1.
Proof.
  intros Hr Ha Hg Hm Hl Hd Hfa Hp.
  pose proof (@deactivate_run num s d m Ha Hd Hm) as H1.
  match type of H1 with _ = Val true ?x => set (s1 := x) in * end.
  assert (Ha1 : active s1 = false) by reflexivity.
  assert (Hg1 : gePlugin s1 = Some ge) by exact Hg.
  assert (Hm1 : map s1 = Some m) by exact Hm.
  assert (Hl1 : layer s1 = Some l) by exact Hl.
  assert (Hd1 : dragFeatureControl s1 = Some d) by exact Hd.
  pose proof (activate_run s1 m l d ge Ha1 Hg1 Hm1 Hl1 Hd1) as H2.
  assert (Hp3 : poseUnchanged (activating s1) m ge = true) by exact Hp.
  assert (Hm3 : map (activating s1) = Some m) by exact Hm.
  assert (Hg3 : gePlugin (activating s1) = Some ge) by exact Hg.
  assert (Hfa3 : featuresAdded (activating s1) = true) by exact Hfa.
  destruct (@update_unchanged_run num N L (activating s1) m ge
              Hm3 Hg3 Hfa3 Hp3)
    as (s2 & Hu & Hrd & Hc & Hgl & _).
  rewrite Hu in H2.
  exists s1, s2. split; [exact H1|]. split; [exact H2|].
  split; [exact Hrd|]. split; [exact Hgl|].
  destruct (update_frame (activating s1))
    as (_ & _ & _ & _ & _ & _ & Hfe & _).
  rewrite Hu in Hfe. simpl in Hfe.
  split; [exact Hfe|].
  rewrite Hc. unfold activating. subst s1. simp_state. rewrite Hg.
  reflexivity.
Qed.

(** *** From the plugin to the map and back *)

Lemma update_redraw_lookAt (s : State num) m ge l :
  Consistent s -> map s = Some m -> gePlugin s = Some ge -> layer s = Some l ->
  featuresAdded s = false \/ poseUnchanged s m ge = false ->
  exists s' lf lg,
    update s = Val tt s' /\
    lookAtFeature s' = Some lf /\ pf_geometry lf = Some lg /\
    (pt_x lg, pt_y lg) =
      mapPosition s m (la_longitude (copyAsLookAt ge (altitudeMode s)))
                      (la_latitude (copyAsLookAt ge (altitudeMode s))).
Proof.
  intros Hr Hm Hg El Hch.
  unfold Consistent in Hr. rewrite El in Hr.
  destruct Hr as (cf & ln & lf & Hc & Hln & Hlf & H).
  cut (exists (u : unit) s', update s = Val u s' /\
         (fun _ s' => exists lf lg,
            lookAtFeature s' = Some lf /\ pf_geometry lf = Some lg /\
            (pt_x lg, pt_y lg) =
              mapPosition s m
                (la_longitude (copyAsLookAt ge (altitudeMode s)))
                (la_latitude (copyAsLookAt ge (altitudeMode s)))) u s').
  { intros ([] & s' & Hu & lf' & lg' & H1 & H2 & H3).
    exists s', lf', lg'. repeat split; assumption. }
  apply wp_value. unfold update.
  destruct (featuresAdded s) eqn:Efa.
  - destruct Hch as [Hch|Hch]; [discriminate|].
    destruct H as (Hg1 & Hg2 & Hfeat).
    destruct (pf_geometry cf) as [cg|] eqn:Ecg; [|congruence].
    destruct (pf_geometry lf) as [lg|] eqn:Elg; [|congruence].
    unfold poseUnchanged, samePosition, mapPosition in Hch.
    rewrite Hc, Hlf in Hch. destruct cf as [cfg cfs], lf as [lfg lfs].
    simpl in Ecg, Elg. subst cfg lfg.
    wp_go; simp_state;
      try (do 2 eexists; repeat split; try reflexivity;
           unfold mapPosition; simp_state; symmetry;
           apply surjective_pairing).
    exfalso.
    match goal with
    | H : xorb _ _ = false |- _ =>
        rewrite (xorb_false_eq _ _ H), eqb_reflx in Hch
    end.
    repeat match goal with
           | H : num_neq _ _ = false |- _ => rewrite H in Hch; clear H
           end.
    discriminate.
  - wp_go; simp_state; do 2 eexists; repeat split; try reflexivity;
      unfold mapPosition; simp_state; symmetry; apply surjective_pairing.
Qed.
Arguments update_redraw_lookAt : clear implicits.

(** X17. Round trip.  When the projection transform from the map back to
    the plugin's projection undoes the forward transform on the look-at
    position, a frame-end update that redraws followed by a drag of the
    look-at marker onto the pixel of its own position hands the plugin the
    look-at longitude and latitude it already has. *)
Theorem redraw_then_drag_in_place_round_trips
    (o : Options num) (s : State num) (pixel : Pixel num) m ge l :
  reachable o s ->
  map s = Some m -> gePlugin s = Some ge -> layer s = Some l ->
  featuresAdded s = false \/ poseUnchanged s m ge = false ->
  let geLookAt := copyAsLookAt ge (altitudeMode s) in
  let P := mapPosition s m (la_longitude geLookAt) (la_latitude geLookAt) in
  Projection_transform_xy P (getProjectionObject m) (geProjection (config s))
  = (la_longitude geLookAt, la_latitude geLookAt) ->
  getLonLatFromViewPortPx m pixel = {| lon := fst P; lat := snd P |} ->
  exists s1 lf lg s2 view,
    update s = Val tt s1 /\
    lookAtFeature s1 = Some lf /\ pf_geometry lf = Some lg /\
    (pt_x lg, pt_y lg) = P /\
    onDrag LookAtFeature pixel s1 = Val tt s2 /\
    pushedView s2 = Some view /\
    la_longitude view = la_longitude geLookAt /\
    la_latitude view = la_latitude geLookAt.
Proof.
  intros Hr Hm Hg El Hch geLookAt P Hinv Hpx.
  apply reachable_Consistent in Hr.
  destruct (update_redraw_lookAt s m ge l Hr Hm Hg El Hch)
    as (s1 & lf & lg & Hu & Hlf & Hlg & HP).
  destruct (update_frame s)
    as (Hcfg & _ & Hm1 & Hg1 & Ham & _).
  rewrite Hu in Hcfg, Hm1, Hg1, Ham. simpl in Hcfg, Hm1, Hg1, Ham.
  destruct (@update_returns num N L s m ge l Hr Hm Hg El) as (s1' & Hu' & _).
  assert (Hl1 : exists l1, layer s1 = Some l1).
  { destruct (layer s1) eqn:E; [eexists; reflexivity|].
    exfalso.
    pose proof (update_Consistent s Hr) as Hc1. rewrite Hu in Hc1.
    simpl in Hc1. unfold Consistent in Hc1. rewrite E in Hc1.
    destruct (@update_returns num N L s m ge l Hr Hm Hg El) as (s1'' & Hu'' & Hfa).
    rewrite Hu in Hu''. injection Hu'' as <-. congruence. }
  destruct Hl1 as [l1 Hl1].
  rewrite Hm in Hm1. rewrite Hg in Hg1.
  exists s1, lf, lg.
  assert (Hd : exists s2 view,
             onDrag LookAtFeature pixel s1 = Val tt s2 /\
             pushedView s2 = Some view /\
             la_longitude view = lon (geographicPoint s1 m pixel) /\
             la_latitude view = lat (geographicPoint s1 m pixel)).
  { unfold onDrag, new_Point, call, deref, bind, gets, modify, ret.
    rewrite Hm1, Hl1. simp_state. rewrite Hg1. simp_state.
    eexists; eexists. split; [reflexivity|]. repeat split. }
  destruct Hd as (s2 & view & Hd & Hpv & Hlon & Hlat).
  exists s2, view. repeat split; try assumption.
  - rewrite Hlon. unfold geographicPoint. rewrite Hpx, Hcfg. simpl.
    fold P. rewrite <- surjective_pairing. fold P. rewrite Hinv. reflexivity.
  - rewrite Hlat. unfold geographicPoint. rewrite Hpx, Hcfg. simpl.
    rewrite <- surjective_pairing. fold P. rewrite Hinv. reflexivity.
Qed.

End Activation.

(** ** Worked examples for the further properties *)

Lemma listener_never_leaks_witness :
  wellBracketed (calls grabbed) = true /\
  attachedTo (calls grabbed) = Some (Some 7).
Proof.
  destruct (@listener_never_leaks Q QNumber planar defaults grabbed
              reachable_grabbed) as (Hw & Ha & _).
  split; [exact Hw|]. rewrite Ha. vm_compute. reflexivity.
Defined.

Lemma deactivate_tears_down_witness :
  exists s',
    deactivate tiltedSession = Val true s' /\
    active s' = false /\ frameendCallback s' = None /\
    rendering s' = rendering tiltedSession.
Proof.
  edestruct (@deactivate_tears_down Q QNumber planar defaults tiltedSession)
    as (s' & Hd & Ha & Hf & _ & _ & Hr & _).
  - exact (reachable_started tilted).
  - vm_compute. reflexivity.
  - vm_compute. reflexivity.
  - vm_compute. reflexivity.
  - exists s'. repeat split; assumption.
Defined.

Lemma deactivate_always_detaches_witness :
  active (state_of (deactivate tiltedSession)) = false /\
  frameendCallback (state_of (deactivate tiltedSession)) = None /\
  attachedTo (calls (state_of (deactivate tiltedSession))) = None.
Proof.
  apply (@deactivate_always_detaches Q QNumber planar defaults tiltedSession).
  - exact (reachable_started tilted).
  - vm_compute. reflexivity.
Defined.

Lemma layer_shows_what_the_flags_say_witness :
  exists l,
    layer tiltedSession = Some l /\
    features l = [LineFeatureId; LookAtFeature; CameraFeature] /\
    NoDup (features l).
Proof.
  eexists. split; [vm_compute; reflexivity|].
  edestruct (@layer_shows_what_the_flags_say Q QNumber planar defaults
               tiltedSession) as (Hf & Hn).
  - exact (reachable_started tilted).
  - vm_compute. reflexivity.
  - split; [|exact Hn]. rewrite Hf. vm_compute. reflexivity.
Defined.

Lemma line_joins_the_markers_witness :
  exists cf ln lf cg lg ls,
    cameraFeature tiltedSession = Some cf /\
    lineFeature tiltedSession = Some ln /\
    lookAtFeature tiltedSession = Some lf /\
    pf_geometry cf = Some cg /\ pf_geometry lf = Some lg /\
    lf_geometry ln = Some ls /\ components ls = [cg; lg].
Proof.
  apply (@line_joins_the_markers Q QNumber planar defaults tiltedSession).
  - exact (reachable_started tilted).
  - vm_compute. reflexivity.
Defined.

Lemma update_returns_iff_ready_witness :
  exists s', update (L := planar) tiltedSession = Val tt s'.
Proof.
  apply (@update_returns_iff_ready Q QNumber planar defaults tiltedSession).
  - exact (reachable_started tilted).
  - repeat split; vm_compute; discriminate.
Defined.

Lemma setGEPlugin_swaps_listener_witness :
  gePlugin (state_of (setGEPlugin (L := planar) (Some (overhead 10%Q))
                        tiltedSession)) = Some (overhead 10%Q) /\
  attachedTo (calls (state_of (setGEPlugin (L := planar)
                                 (Some (overhead 10%Q)) tiltedSession)))
  = Some (Some 7).
Proof.
  edestruct (@setGEPlugin_swaps_listener Q QNumber planar tiltedSession tilted
               (overhead 10%Q) BoundUpdate)
    as (_ & Hg & _ & _ & _ & Ha).
  - vm_compute. reflexivity.
  - vm_compute. reflexivity.
  - vm_compute. reflexivity.
  - split; [exact Hg|exact Ha].
Defined.

Lemma onDrag_other_feature_pushes_current_view_witness :
  exists s',
    onDrag (L := planar) LineFeatureId {| px_x := 1%Q; px_y := 2%Q |}
      tiltedSession = Val tt s' /\
    pushedView s' = Some (copyAsLookAt tilted 1%Q).
Proof.
  edestruct (@onDrag_other_feature_pushes_current_view Q QNumber planar
               tiltedSession LineFeatureId {| px_x := 1%Q; px_y := 2%Q |})
    as (s' & Hd & Hc).
  - vm_compute. reflexivity.
  - vm_compute. reflexivity.
  - vm_compute. reflexivity.
  - discriminate.
  - discriminate.
  - exists s'. split; [exact Hd|]. unfold pushedView. rewrite Hc.
    reflexivity.
Defined.

Lemma onDrag_camera_without_anchor_throws_witness :
  exists s',
    onDrag (L := planar) CameraFeature {| px_x := 1%Q; px_y := 2%Q |}
      tiltedSession = Throw TypeError s' /\
    calls s' = calls tiltedSession.
Proof.
  edestruct (@onDrag_camera_without_anchor_throws Q QNumber planar
               tiltedSession {| px_x := 1%Q; px_y := 2%Q |})
    as (s' & Hd & Hc & _).
  - vm_compute. reflexivity.
  - vm_compute. reflexivity.
  - vm_compute. reflexivity.
  - vm_compute. reflexivity.
  - vm_compute. reflexivity.
  - exists s'. split; assumption.
Defined.

Lemma onStart_captures_anchor_witness :
  exists s',
    onStart (L := planar) CameraFeature tiltedSession = Val tt s' /\
    initialLookAt s' = Some {| lon := 8%Q; lat := 47%Q |} /\
    gePluginFlyToSpeedSet s' = true.
Proof.
  edestruct (@onStart_captures_anchor Q QNumber planar tiltedSession
               CameraFeature)
    as (s' & Hs & Ha & _ & Hf & _).
  - vm_compute. reflexivity.
  - vm_compute. reflexivity.
  - vm_compute. reflexivity.
  - vm_compute. reflexivity.
  - vm_compute. reflexivity.
  - vm_compute. reflexivity.
  - exists s'. split; [exact Hs|]. split; [exact Ha|exact Hf].
Defined.

Lemma drag_in_place_keeps_range_witness :
  exists s1 s2 view,
    onStart (L := planar) CameraFeature tiltedSession = Val tt s1 /\
    onDrag (L := planar) CameraFeature {| px_x := 7%Q; px_y := 47%Q |} s1
    = Val tt s2 /\
    pushedView s2 = Some view /\
    la_range view = initialRange s1.
Proof.
  edestruct (@drag_in_place_keeps_range Q QNumber planar tiltedSession
               {| px_x := 7%Q; px_y := 47%Q |})
    as (s1 & s2 & view & anchor & H1 & H2 & H3 & _ & _ & _ & H4).
  - vm_compute. reflexivity.
  - vm_compute. reflexivity.
  - vm_compute. reflexivity.
  - vm_compute. reflexivity.
  - vm_compute. reflexivity.
  - vm_compute. reflexivity.
  - vm_compute. reflexivity.
  - vm_compute. reflexivity.
  - vm_compute. reflexivity.
  - exists s1, s2, view. repeat split; assumption.
Defined.

Lemma activate_succeeds_witness :
  exists s',
    activate (L := planar) idle = Val true s' /\
    active s' = true /\ featuresAdded s' = true.
Proof.
  edestruct (@activate_succeeds Q QNumber planar defaults idle)
    as (s' & pre & Ha & Hact & _ & _ & Hfa & _).
  - exact (reachable_run _ (reachable_init _)
           : reachable (L := planar) defaults idle).
  - vm_compute. reflexivity.
  - vm_compute. reflexivity.
  - vm_compute. reflexivity.
  - vm_compute. reflexivity.
  - vm_compute. reflexivity.
  - exists s'. repeat split; assumption.
Defined.

Lemma activate_true_only_if_witness :
  active idle = false /\ gePlugin idle <> None.
Proof.
  destruct (@activate_true_only_if Q QNumber planar idle
              (state_of (@activate Q QNumber (@planar Q QNumber) idle))
              ltac:(vm_compute; reflexivity))
    as (Ha & Hg & _).
  split; assumption.
Defined.

Lemma reactivation_keeps_rendering_witness :
  exists s1 s2,
    deactivate tiltedSession = Val true s1 /\
    activate (L := planar) s1 = Val true s2 /\
    rendering s2 = rendering tiltedSession.
Proof.
  edestruct (@reactivation_keeps_rendering Q QNumber planar defaults
               tiltedSession)
    as (s1 & s2 & H1 & H2 & H3 & _).
  - exact (reachable_started tilted).
  - vm_compute. reflexivity.
  - vm_compute. reflexivity.
  - vm_compute. reflexivity.
  - vm_compute. reflexivity.
  - vm_compute. reflexivity.
  - vm_compute. reflexivity.
  - vm_compute. reflexivity.
  - exists s1, s2. repeat split; assumption.
Defined.

Lemma redraw_then_drag_in_place_round_trips_witness :
  exists s1 s2 view,
    update (L := planar) idle = Val tt s1 /\
    onDrag (L := planar) LookAtFeature {| px_x := 0%Q; px_y := 0%Q |} s1
    = Val tt s2 /\
    pushedView s2 = Some view /\
    la_longitude view = 0%Q /\ la_latitude view = 0%Q.
Proof.
  edestruct (@redraw_then_drag_in_place_round_trips Q QNumber planar defaults
               idle {| px_x := 0%Q; px_y := 0%Q |})
    as (s1 & lf & lg & s2 & view & H1 & _ & _ & _ & H2 & H3 & H4 & H5).
  - exact (reachable_run _ (reachable_init _)
           : reachable (L := planar) defaults idle).
  - vm_compute. reflexivity.
  - vm_compute. reflexivity.
  - vm_compute. reflexivity.
  - left. vm_compute. reflexivity.
  - vm_compute. reflexivity.
  - vm_compute. reflexivity.
  - exists s1, s2, view. repeat split; assumption.
Defined.
